(** * Titan: Claude Pro/Max OAuth authentication (PKCE flow, token lifecycle)

    A shallow embedding of the credential manager: the PKCE generator, the
    authorization URL builder, the two token exchanges, the credential store
    and the two public entry points [getClaudeAccessToken] and
    [authenticateWithClaude].

    Conventions of the embedding.
    - Text is held as its UTF-8 bytes in [string]; every string operation
      the program uses ([split] on ['#'], concatenation, JSON) commutes with
      that encoding. A file is its bytes, which are the text read from it
      when they are well-formed UTF-8; the body of a response is the text
      that decoding gives.
    - JavaScript numbers are held as exact decimal fractions, together with
      NaN and the two infinities. The runtime's numbers are binary64: the two
      agree on the integers up to [2 ^ 53] in absolute value, which binary64
      holds exactly, and on sums and products that stay among them. The
      properties that rest on a sum or a product of the program are stated
      for such numbers; that a number is not above such an integer is kept
      by rounding, which is monotone.
    - The limits of a machine (the depth of its stack, its memory) are not
      part of the embedding: conversions and parsing are as ECMAScript
      defines them.
    - [async] functions are computations in a state-and-exception monad over
      a [World]: the disk, a trace of the effects performed, and the answers
      of the outside world (clock, network, random source, user). *)

From Stdlib Require Import ZArith QArith String Ascii List Bool Lia.
From Stdlib Require Import Decimal DecimalString DecimalFacts DecimalPos DecimalN.
From stdpp Require Import base gmap strings list.
Import ListNotations.

Local Open Scope string_scope.
Local Open Scope Z_scope.
Local Notation "s1 ^^ s2" := (String.append s1 s2)
  (at level 60, right associativity) : string_scope.

(* ===================================================================== *)
(** ** Numbers of the JavaScript runtime *)
(* ===================================================================== *)

Module Number.

(** A finite number is the decimal fraction [dnum / 10 ^ dscale]; it is
    canonical when [dscale = 0] or [dnum] is not a multiple of ten, so an
    integer [z] is always [Dec z 0]. *)
Record dec : Type := Dec { dnum : Z; dscale : nat }.

Inductive number : Type :=
| NaN
| PosInf
| NegInf
| Fin (d : dec).

Definition pow10 (n : nat) : Z := 10 ^ Z.of_nat n.

Fixpoint norm (m : Z) (s : nat) : dec :=
  match s with
  | O => Dec m 0
  | S s' => if m mod 10 =? 0 then norm (m / 10) s' else Dec m s
  end.

Definition of_Z (z : Z) : number := Fin (Dec z 0).

(** [m * 10 ^ e], for a decimal literal with mantissa [m] and exponent [e]. *)
Definition of_sci (m e : Z) : number :=
  if 0 <=? e then Fin (Dec (m * 10 ^ e) 0) else Fin (norm m (Z.to_nat (- e))).

Definition dadd (a b : dec) : dec :=
  norm (dnum a * pow10 (dscale b) + dnum b * pow10 (dscale a))
       (dscale a + dscale b).

Definition dmul (a b : dec) : dec :=
  norm (dnum a * dnum b) (dscale a + dscale b).

Definition dltb (a b : dec) : bool :=
  dnum a * pow10 (dscale b) <? dnum b * pow10 (dscale a).

(** The rational a finite number stands for. *)
Definition dval (d : dec) : Q :=
  (inject_Z (dnum d) / inject_Z (pow10 (dscale d)))%Q.

Definition neg (a : number) : number :=
  match a with
  | NaN => NaN
  | PosInf => NegInf
  | NegInf => PosInf
  | Fin d => Fin (Dec (- dnum d) (dscale d))
  end.

(** Number::multiply, without the rounding of binary64: exact, as the
    runtime is when the operands and the product are whole numbers up to
    [2 ^ 53] in absolute value. *)
Definition mul (a b : number) : number :=
  match a, b with
  | NaN, _ | _, NaN => NaN
  | Fin x, Fin y => Fin (dmul x y)
  | Fin x, PosInf | PosInf, Fin x =>
      match dnum x with Z0 => NaN | Zpos _ => PosInf | Zneg _ => NegInf end
  | Fin x, NegInf | NegInf, Fin x =>
      match dnum x with Z0 => NaN | Zpos _ => NegInf | Zneg _ => PosInf end
  | PosInf, PosInf | NegInf, NegInf => PosInf
  | PosInf, NegInf | NegInf, PosInf => NegInf
  end.

(** Number::add, without the rounding of binary64: exact, as the runtime
    is when the operands and the sum are whole numbers up to [2 ^ 53] in
    absolute value. *)
Definition add (a b : number) : number :=
  match a, b with
  | NaN, _ | _, NaN => NaN
  | Fin x, Fin y => Fin (dadd x y)
  | PosInf, NegInf | NegInf, PosInf => NaN
  | PosInf, _ | _, PosInf => PosInf
  | NegInf, _ | _, NegInf => NegInf
  end.

(** Number::lessThan, with "undefined" (a NaN operand) read as [false],
    which is what the relational operators do with it. *)
Definition ltb (a b : number) : bool :=
  match a, b with
  | NaN, _ | _, NaN => false
  | Fin x, Fin y => dltb x y
  | _, NegInf => false
  | NegInf, _ => true
  | PosInf, _ => false
  | Fin _, PosInf => true
  end.

(** [a > b] is [b < a]. *)
Definition gtb (a b : number) : bool := ltb b a.

Definition is_zero (a : number) : bool :=
  match a with Fin d => dnum d =? 0 | _ => false end.

(** *** Number::toString (radix ten) *)

Definition digits (n : N) : string := NilZero.string_of_uint (N.to_uint n).

Fixpoint zeros (n : nat) : string :=
  match n with O => EmptyString | S n' => String "0" (zeros n') end.

(** Number of ["0"] characters that end [s]. *)
Fixpoint trailing_zeros (s : string) : nat :=
  match s with
  | EmptyString => O
  | String c r =>
      let t := trailing_zeros r in
      if (Ascii.eqb c "0" && Nat.eqb t (String.length r))%bool then S t else t
  end.

Definition to_string_pos (m : N) (s : nat) : string :=
  let D := digits m in
  let t := match s with O => trailing_zeros D | _ => O end in
  let sig := substring 0 (String.length D - t) D in
  let k := String.length sig in
  let n := Z.of_nat (String.length D) - Z.of_nat s in
  if (Z.of_nat k <=? n) && (n <=? 21) then
    sig ^^ zeros (Z.to_nat n - k)
  else if (0 <? n) && (n <=? 21) then
    substring 0 (Z.to_nat n) sig ^^ "." ^^ substring (Z.to_nat n) (k - Z.to_nat n) sig
  else if (-6 <? n) && (n <=? 0) then
    "0." ^^ zeros (Z.to_nat (- n)) ^^ sig
  else
    let e := n - 1 in
    let es := (if e <? 0 then "-" else "+") ^^ digits (Z.to_N (Z.abs e)) in
    if Nat.eqb k 1 then sig ^^ "e" ^^ es
    else substring 0 1 sig ^^ "." ^^ substring 1 (k - 1) sig ^^ "e" ^^ es.

Definition to_string (a : number) : string :=
  match a with
  | NaN => "NaN"
  | PosInf => "Infinity"
  | NegInf => "-Infinity"
  | Fin d =>
      match dnum d with
      | Z0 => "0"
      | Zpos p => to_string_pos (Npos p) (dscale d)
      | Zneg p => "-" ^^ to_string_pos (Npos p) (dscale d)
      end
  end.

End Number.
Export Number(number, NaN, PosInf, NegInf, Fin, dec, Dec).

(* ===================================================================== *)
(** ** Text *)
(* ===================================================================== *)

Module Text.

Definition code (c : ascii) : N := N_of_ascii c.

Definition is_digit (c : ascii) : bool :=
  (N.leb 48 (code c) && N.leb (code c) 57)%bool.

(** Value of [c] as a digit in a radix up to sixteen. *)
Definition digit_val (c : ascii) : option Z :=
  let n := Z.of_N (code c) in
  if (48 <=? n) && (n <=? 57) then Some (n - 48)
  else if (97 <=? n) && (n <=? 102) then Some (n - 87)
  else if (65 <=? n) && (n <=? 70) then Some (n - 55)
  else None.

(** The number a string of digits denotes in radix [b]; [None] when a
    character is not a digit of that radix. *)
Fixpoint radix_val (b : Z) (acc : Z) (s : string) : option Z :=
  match s with
  | EmptyString => Some acc
  | String c r =>
      match digit_val c with
      | Some d => if d <? b then radix_val b (acc * b + d) r else None
      | None => None
      end
  end.

(** Longest prefix of characters satisfying [p], and the rest. *)
Fixpoint span (p : ascii -> bool) (s : string) : string * string :=
  match s with
  | EmptyString => (EmptyString, EmptyString)
  | String c r =>
      if p c then let '(a, b) := span p r in (String c a, b)
      else (EmptyString, s)
  end.

(** [s.split(sep)] for a one-character separator. *)
Fixpoint split (sep : ascii) (s : string) : list string :=
  match s with
  | EmptyString => [EmptyString]
  | String c r =>
      if Ascii.eqb c sep then EmptyString :: split sep r
      else match split sep r with
           | [] => [String c EmptyString]
           | h :: t => String c h :: t
           end
  end.

Fixpoint contains (c : ascii) (s : string) : bool :=
  match s with
  | EmptyString => false
  | String a r => Ascii.eqb a c || contains c r
  end.

(** Removes one WhiteSpace or LineTerminator code point (TAB, LF, VT, FF,
    CR, SP, U+00A0, U+1680, U+2000..U+200A, U+2028, U+2029, U+202F,
    U+205F, U+3000, U+FEFF) from the front of [s], if there is one. *)
Definition drop_space (s : string) : option string :=
  match s with
  | String c r =>
      let n := code c in
      if (N.leb 9 n && N.leb n 13)%bool || N.eqb n 32 then Some r
      else
        match r with
        | String c1 r1 =>
            let n1 := code c1 in
            if N.eqb n 194 && N.eqb n1 160 then Some r1
            else
              match r1 with
              | String c2 r2 =>
                  let n2 := code c2 in
                  if (N.eqb n 225 && N.eqb n1 154 && N.eqb n2 128)
                     || (N.eqb n 226 && N.eqb n1 128 &&
                         ((N.leb 128 n2 && N.leb n2 138)
                          || N.eqb n2 168 || N.eqb n2 169 || N.eqb n2 175))
                     || (N.eqb n 226 && N.eqb n1 129 && N.eqb n2 159)
                     || (N.eqb n 227 && N.eqb n1 128 && N.eqb n2 128)
                     || (N.eqb n 239 && N.eqb n1 187 && N.eqb n2 191)
                  then Some r2 else None
              | EmptyString => None
              end
        | EmptyString => None
        end
  | EmptyString => None
  end.

(** A white-space code point is at most three bytes, so [fuel] counts
    bytes. *)
Fixpoint trim_start_fuel (fuel : nat) (s : string) : string :=
  match fuel with
  | O => s
  | S f => match drop_space s with
           | Some r => trim_start_fuel f r
           | None => s
           end
  end.

Definition trim_start (s : string) : string :=
  trim_start_fuel (String.length s) s.

Definition all_space (s : string) : bool :=
  match trim_start s with EmptyString => true | _ => false end.

Fixpoint trim_end (s : string) : string :=
  match s with
  | EmptyString => EmptyString
  | String c r => if all_space s then EmptyString else String c (trim_end r)
  end.

(** [s.trim()]. *)
Definition trim (s : string) : string := trim_end (trim_start s).

Definition hex_digit (n : N) : ascii :=
  ascii_of_N (if N.ltb n 10 then 48 + n else 87 + n).

Definition upper_hex_digit (n : N) : ascii :=
  ascii_of_N (if N.ltb n 10 then 48 + n else 55 + n).

(** UTF-8 bytes of a code point (a lone surrogate is encoded like any
    other three-byte code point). *)
Definition utf8 (cp : N) : string :=
  let b (n : N) := ascii_of_N n in
  if N.ltb cp 128 then String (b cp) EmptyString
  else if N.ltb cp 2048 then
    String (b (192 + cp / 64)%N) (String (b (128 + cp mod 64)%N) EmptyString)
  else if N.ltb cp 65536 then
    String (b (224 + cp / 4096)%N)
      (String (b (128 + (cp / 64) mod 64)%N)
         (String (b (128 + cp mod 64)%N) EmptyString))
  else
    String (b (240 + cp / 262144)%N)
      (String (b (128 + (cp / 4096) mod 64)%N)
         (String (b (128 + (cp / 64) mod 64)%N)
            (String (b (128 + cp mod 64)%N) EmptyString))).

Definition between (a b : N) (c : ascii) : bool :=
  (N.leb a (code c) && N.leb (code c) b)%bool.

(** Well-formed UTF-8: the byte sequences that decoding leaves as they
    are (an ill-formed one is replaced by U+FFFD when a file or a response
    is decoded). *)
Fixpoint well_formed (s : string) : bool :=
  match s with
  | EmptyString => true
  | String c r =>
      let n := code c in
      if N.ltb n 128 then well_formed r
      else if between 194 223 c then
        match r with
        | String c1 r1 => between 128 191 c1 && well_formed r1
        | _ => false
        end
      else if between 224 239 c then
        match r with
        | String c1 (String c2 r2) =>
            between (if N.eqb n 224 then 160 else 128)
                    (if N.eqb n 237 then 159 else 191) c1
            && between 128 191 c2 && well_formed r2
        | _ => false
        end
      else if between 240 244 c then
        match r with
        | String c1 (String c2 (String c3 r3)) =>
            between (if N.eqb n 240 then 144 else 128)
                    (if N.eqb n 244 then 143 else 191) c1
            && between 128 191 c2 && between 128 191 c3 && well_formed r3
        | _ => false
        end
      else false
  end.

End Text.

(* ===================================================================== *)
(** ** Values of the JavaScript runtime *)
(* ===================================================================== *)

(** The values JSON can denote, and [undefined]. An object is the list of
    its own properties in property order. *)
#[warnings="-register-all"]
Inductive value : Type :=
| Undefined
| Null
| Bool (b : bool)
| Num (n : number)
| Str (s : string)
| Arr (items : list value)
| Obj (props : list (string * value)).

Module JS.

(** ToBoolean. *)
Definition ToBoolean (v : value) : bool :=
  match v with
  | Undefined | Null => false
  | Bool b => b
  | Num NaN => false
  | Num n => negb (Number.is_zero n)
  | Str EmptyString => false
  | Str _ => true
  | Arr _ | Obj _ => true
  end.

Fixpoint assoc (k : string) (l : list (string * value)) : option value :=
  match l with
  | [] => None
  | (k', v) :: r => if String.eqb k' k then Some v else assoc k r
  end.

(** ToString of a value that [JSON.parse] made. An array is its elements
    joined by commas, [null] and [undefined] elements giving the empty
    string. An object goes through OrdinaryToPrimitive, which calls its
    [toString] and its [valueOf]: the inherited [toString] answers
    ["[object Object]"]; an own property of that name hides it and, being a
    JSON value, cannot be called, and neither [valueOf] gives a primitive.
    [None] is the TypeError the runtime throws then. *)
Fixpoint ToString (v : value) : option string :=
  match v with
  | Undefined => Some "undefined"
  | Null => Some "null"
  | Bool true => Some "true"
  | Bool false => Some "false"
  | Num n => Some (Number.to_string n)
  | Str s => Some s
  | Arr l =>
      (fix join (l : list value) : option string :=
         match l with
         | [] => Some EmptyString
         | x :: r =>
             match match x with
                   | Undefined | Null => Some EmptyString
                   | _ => ToString x
                   end with
             | None => None
             | Some e =>
                 match r with
                 | [] => Some e
                 | _ :: _ =>
                     match join r with
                     | Some t => Some (e ^^ "," ^^ t)
                     | None => None
                     end
                 end
             end
         end) l
  | Obj props =>
      match assoc "toString" props with
      | Some _ => None
      | None => Some "[object Object]"
      end
  end.

(** StrDecimalLiteral without its sign: digits, an optional fraction and
    an optional exponent, up to the end of the string. *)
Definition unsigned_decimal (s : string) : number :=
  let '(ip, r1) := Text.span Text.is_digit s in
  let '(fp, r2) :=
    match r1 with
    | String "." r => Text.span Text.is_digit r
    | _ => (EmptyString, r1)
    end in
  match ip ^^ fp with
  | EmptyString => NaN
  | ds =>
      let mant := default 0 (Text.radix_val 10 0 ds) in
      let scale := Z.of_nat (String.length fp) in
      match r2 with
      | EmptyString => Number.of_sci mant (- scale)
      | String c r =>
          if Ascii.eqb c "e" || Ascii.eqb c "E" then
            let '(neg, ds) :=
              match r with
              | String "+" r' => (false, r')
              | String "-" r' => (true, r')
              | _ => (false, r)
              end in
            match ds, Text.radix_val 10 0 ds with
            | String _ _, Some e =>
                Number.of_sci mant ((if neg then - e else e) - scale)
            | _, _ => NaN
            end
          else NaN
      end
  end.

Definition signed_decimal (s : string) : number :=
  let body (t : string) : number :=
    if String.eqb t "Infinity" then PosInf else unsigned_decimal t in
  match s with
  | String "+" r => body r
  | String "-" r => Number.neg (body r)
  | _ => body s
  end.

(** StringToNumber: white space is trimmed, the empty string is zero, and
    what is not a StringNumericLiteral is NaN. *)
Definition StringToNumber (s : string) : number :=
  let radix (b : Z) (ds : string) : number :=
    match ds, Text.radix_val b 0 ds with
    | String _ _, Some n => Number.of_Z n
    | _, _ => NaN
    end in
  match Text.trim s with
  | EmptyString => Number.of_Z 0
  | String "0" (String "x" ds) | String "0" (String "X" ds) => radix 16 ds
  | String "0" (String "o" ds) | String "0" (String "O" ds) => radix 8 ds
  | String "0" (String "b" ds) | String "0" (String "B" ds) => radix 2 ds
  | t => signed_decimal t
  end.

(** ToNumber; arrays and objects go through ToPrimitive, which converts
    them as ToString does, with the same TypeError. *)
Definition ToNumber (v : value) : option number :=
  match v with
  | Undefined => Some NaN
  | Null => Some (Number.of_Z 0)
  | Bool true => Some (Number.of_Z 1)
  | Bool false => Some (Number.of_Z 0)
  | Num n => Some n
  | Str s => Some (StringToNumber s)
  | Arr _ | Obj _ => option_map StringToNumber (ToString v)
  end.

(** [v * n] and [v > n] for a number [n]: the other operand is converted
    with ToNumber. *)
Definition times (v : value) (n : number) : option number :=
  option_map (fun x => Number.mul x n) (ToNumber v).

Definition greater (v : value) (n : number) : option bool :=
  option_map (fun x => Number.gtb x n) (ToNumber v).

(** [v.k] for one of the property names this program reads
    ([access_token], [refresh_token], [expires_at], [expires_in]), none of
    which a prototype, an array or a string defines: [None] is the
    TypeError of reading a property of [null] or [undefined]. *)
Definition get (v : value) (k : string) : option value :=
  match v with
  | Undefined | Null => None
  | Obj l => Some (default Undefined (assoc k l))
  | _ => Some Undefined
  end.

End JS.

(* ===================================================================== *)
(** ** JSON.parse and JSON.stringify *)
(* ===================================================================== *)

Module JSON.

Definition nl : string := String "010"%char EmptyString.

Definition dquote : string := String "034"%char EmptyString.

(** *** Parsing *)

(** The white space of JSON: space, tab, line feed, carriage return. *)
Definition is_ws (c : ascii) : bool :=
  let n := Text.code c in
  N.eqb n 32 || N.eqb n 9 || N.eqb n 10 || N.eqb n 13.

Fixpoint skip_ws (s : string) : string :=
  match s with
  | String c r => if is_ws c then skip_ws r else s
  | EmptyString => s
  end.

(** What follows [p] at the front of [s], when [s] starts with [p]. *)
Fixpoint strip_prefix (p s : string) : option string :=
  match p, s with
  | EmptyString, _ => Some s
  | String a p', String b s' =>
      if Ascii.eqb a b then strip_prefix p' s' else None
  | String _ _, EmptyString => None
  end.

Definition hex4 (a b c d : ascii) : option N :=
  match Text.digit_val a, Text.digit_val b, Text.digit_val c, Text.digit_val d with
  | Some x, Some y, Some z, Some w =>
      Some (Z.to_N (((x * 16 + y) * 16 + z) * 16 + w))
  | _, _, _, _ => None
  end.

Definition prepend (p : string) (r : option (string * string))
  : option (string * string) :=
  match r with
  | Some (s, rest) => Some (p ^^ s, rest)
  | None => None
  end.

Definition one (n : N) : string := String (ascii_of_N n) EmptyString.

Definition is_high (cu : N) : bool := (N.leb 55296 cu && N.leb cu 56319)%bool.
Definition is_low (cu : N) : bool := (N.leb 56320 cu && N.leb cu 57343)%bool.

(** The character a two-character escape stands for. *)
Definition simple_escape (e : ascii) : option N :=
  let n := Text.code e in
  if N.eqb n 34 then Some 34%N          (* quotation mark *)
  else if N.eqb n 92 then Some 92%N     (* reverse solidus *)
  else if N.eqb n 47 then Some 47%N     (* solidus *)
  else if N.eqb n 98 then Some 8%N      (* b *)
  else if N.eqb n 102 then Some 12%N    (* f *)
  else if N.eqb n 110 then Some 10%N    (* n *)
  else if N.eqb n 114 then Some 13%N    (* r *)
  else if N.eqb n 116 then Some 9%N     (* t *)
  else None.

(** The characters of a string literal after its opening quote, up to the
    closing quote, with escapes decoded; and what follows the literal. A
    [\u] escape of a high surrogate followed by one of a low surrogate is
    one code point. *)
Fixpoint string_body (s : string) : option (string * string) :=
  match s with
  | EmptyString => None
  | String c r =>
      let n := Text.code c in
      if N.eqb n 34 then Some (EmptyString, r)
      else if N.eqb n 92 then
        match r with
        | EmptyString => None
        | String e r' =>
            match simple_escape e with
            | Some x => prepend (one x) (string_body r')
            | None =>
                if negb (Ascii.eqb e "u") then None
                else
                  match r' with
                  | String h1 (String h2 (String h3 (String h4 r2))) =>
                      match hex4 h1 h2 h3 h4 with
                      | None => None
                      | Some cu =>
                          if negb (is_high cu)
                          then prepend (Text.utf8 cu) (string_body r2)
                          else
                            match r2 with
                            | String b (String u (String l1 (String l2
                                (String l3 (String l4 r3))))) =>
                                match hex4 l1 l2 l3 l4 with
                                | Some lo =>
                                    if Ascii.eqb b "\" && Ascii.eqb u "u"
                                       && is_low lo
                                    then
                                      prepend
                                        (Text.utf8
                                           (65536 + (cu - 55296) * 1024
                                            + (lo - 56320))%N)
                                        (string_body r3)
                                    else prepend (Text.utf8 cu) (string_body r2)
                                | None => prepend (Text.utf8 cu) (string_body r2)
                                end
                            | _ => prepend (Text.utf8 cu) (string_body r2)
                            end
                      end
                  | _ => None
                  end
            end
        end
      else if N.ltb n 32 then None
      else prepend (String c EmptyString) (string_body r)
  end.

(** An optional sign at the front of [s]. *)
Definition scan_sign (plus : bool) (s : string) : bool * string :=
  match strip_prefix "-" s with
  | Some r => (true, r)
  | None =>
      match (if plus then strip_prefix "+" s else None) with
      | Some r => (false, r)
      | None => (false, s)
      end
  end.

(** A JSON number at the front of [s]: an optional minus sign; an integer
    part that is a single zero or starts with a non-zero digit; an
    optional fraction (a dot and digits); an optional exponent. The number
    is the decimal the numeral denotes; the runtime takes the binary64
    nearest to it, which is the same number for a whole number up to
    [2 ^ 53] in absolute value. *)
Definition scan_number (s : string) : option (number * string) :=
  let '(neg, s1) := scan_sign false s in
  let '(ip, r1) := Text.span Text.is_digit s1 in
  let int_ok :=
    match ip with
    | EmptyString => false
    | String c EmptyString => true
    | String c (String _ _) => negb (Ascii.eqb c "0")
    end in
  let frac :=
    match strip_prefix "." r1 with
    | Some r =>
        let '(fp, r2) := Text.span Text.is_digit r in
        match fp with EmptyString => None | _ => Some (fp, r2) end
    | None => Some (EmptyString, r1)
    end in
  match int_ok, frac with
  | true, Some (fp, r2) =>
      let mant := default 0 (Text.radix_val 10 0 (ip ^^ fp)) in
      let mant := if neg then - mant else mant in
      let scale := Z.of_nat (String.length fp) in
      match r2 with
      | String c r =>
          if Ascii.eqb c "e" || Ascii.eqb c "E" then
            let '(eneg, r3) := scan_sign true r in
            let '(ds, r4) := Text.span Text.is_digit r3 in
            match ds, Text.radix_val 10 0 ds with
            | String _ _, Some e =>
                Some (Number.of_sci mant ((if eneg then - e else e) - scale), r4)
            | _, _ => None
            end
          else Some (Number.of_sci mant (- scale), r2)
      | EmptyString => Some (Number.of_sci mant (- scale), r2)
      end
  | _, _ => None
  end.

(** An array index is the canonical decimal form of an integer below
    [2^32 - 1]; such property names come first, in ascending order. *)
Definition array_index (k : string) : option Z :=
  match k with
  | EmptyString => None
  | String c (String _ _) =>
      if Ascii.eqb c "0" then None
      else match Text.radix_val 10 0 k with
           | Some n => if n <? 4294967295 then Some n else None
           | None => None
           end
  | String _ EmptyString =>
      match Text.radix_val 10 0 k with
      | Some n => Some n
      | None => None
      end
  end.

Fixpoint replace (k : string) (v : value) (l : list (string * value))
  : option (list (string * value)) :=
  match l with
  | [] => None
  | (k', v') :: r =>
      if String.eqb k' k then Some ((k, v) :: r)
      else match replace k v r with
           | Some r' => Some ((k', v') :: r')
           | None => None
           end
  end.

Fixpoint insert_index (i : Z) (k : string) (v : value)
    (l : list (string * value)) : list (string * value) :=
  match l with
  | [] => [(k, v)]
  | (k', v') :: r =>
      match array_index k' with
      | Some j => if j <? i then (k', v') :: insert_index i k v r
                  else (k, v) :: l
      | None => (k, v) :: l
      end
  end.

(** CreateDataProperty on an ordinary object: an existing property keeps
    its place and takes the new value. *)
Definition define (k : string) (v : value) (l : list (string * value))
  : list (string * value) :=
  match replace k v l with
  | Some l' => l'
  | None =>
      match array_index k with
      | Some i => insert_index i k v l
      | None => l ++ [(k, v)]
      end
  end.

(** The value at the front of [s], and what follows it. *)
Fixpoint value_at (fuel : nat) (s : string) : option (value * string) :=
  match fuel with
  | O => None
  | S f =>
      let s' := skip_ws s in
      match strip_prefix "{" s' with
      | Some r =>
          match strip_prefix "}" (skip_ws r) with
          | Some r' => Some (Obj [], r')
          | None => members f r []
          end
      | None =>
      match strip_prefix "[" s' with
      | Some r =>
          match strip_prefix "]" (skip_ws r) with
          | Some r' => Some (Arr [], r')
          | None => elements f r []
          end
      | None =>
      match strip_prefix dquote s' with
      | Some r =>
          match string_body r with
          | Some (t, r') => Some (Str t, r')
          | None => None
          end
      | None =>
      match strip_prefix "true" s' with
      | Some r => Some (Bool true, r)
      | None =>
      match strip_prefix "false" s' with
      | Some r => Some (Bool false, r)
      | None =>
      match strip_prefix "null" s' with
      | Some r => Some (Null, r)
      | None =>
          match scan_number s' with
          | Some (n, r) => Some (Num n, r)
          | None => None
          end
      end end end end end end
  end
with elements (fuel : nat) (s : string) (acc : list value)
  : option (value * string) :=
  match fuel with
  | O => None
  | S f =>
      match value_at f s with
      | Some (v, r) =>
          match strip_prefix "," (skip_ws r) with
          | Some r' => elements f r' (acc ++ [v])
          | None =>
              match strip_prefix "]" (skip_ws r) with
              | Some r' => Some (Arr (acc ++ [v]), r')
              | None => None
              end
          end
      | None => None
      end
  end
with members (fuel : nat) (s : string) (acc : list (string * value))
  : option (value * string) :=
  match fuel with
  | O => None
  | S f =>
      match strip_prefix dquote (skip_ws s) with
      | Some r =>
          match string_body r with
          | Some (k, r1) =>
              match strip_prefix ":" (skip_ws r1) with
              | Some r2 =>
                  match value_at f r2 with
                  | Some (v, r3) =>
                      match strip_prefix "," (skip_ws r3) with
                      | Some r4 => members f r4 (define k v acc)
                      | None =>
                          match strip_prefix "}" (skip_ws r3) with
                          | Some r4 => Some (Obj (define k v acc), r4)
                          | None => None
                          end
                      end
                  | None => None
                  end
              | None => None
              end
          | None => None
          end
      | None => None
      end
  end.

(** Fuel for a text of the given length: every call the parser makes on
    itself comes after at least one character was read, or is the call of
    [elements] on [value_at]. *)
Definition fuel_for (len : nat) : nat := 2 * len + 2.

(** [JSON.parse(text)]; [None] is the SyntaxError it throws. *)
Definition parse (text : string) : option value :=
  match value_at (fuel_for (String.length text)) text with
  | Some (v, r) =>
      match skip_ws r with
      | EmptyString => Some v
      | _ => None
      end
  | None => None
  end.

(** *** Serializing *)

Definition hex2 (n : N) : string :=
  String (Text.hex_digit (n / 16)) (String (Text.hex_digit (n mod 16)) EmptyString).

(** The characters of QuoteJSONString between its quotes. *)
Fixpoint escape (s : string) : string :=
  match s with
  | EmptyString => EmptyString
  | String c r =>
      let n := Text.code c in
      if N.eqb n 34 then String "\" (String "034" (escape r))
      else if N.eqb n 92 then "\\" ^^ escape r
      else if N.eqb n 8 then "\b" ^^ escape r
      else if N.eqb n 12 then "\f" ^^ escape r
      else if N.eqb n 10 then "\n" ^^ escape r
      else if N.eqb n 13 then "\r" ^^ escape r
      else if N.eqb n 9 then "\t" ^^ escape r
      else if N.ltb n 32 then "\u00" ^^ hex2 n ^^ escape r
      else
        match r with
        | String c1 (String c2 r2) =>
            let n1 := Text.code c1 in
            if N.eqb n 237 && N.leb 160 n1 then
              (* a lone surrogate *)
              "\ud" ^^ String (Text.hex_digit (8 + (n1 - 160) / 4))
                (hex2 (((n1 mod 4) * 64 + (Text.code c2 - 128)) mod 256))
                ^^ escape r2
            else String c (escape r)
        | _ => String c (escape r)
        end
  end.

Definition quote (s : string) : string :=
  String "034" (escape s ^^ String "034" EmptyString).

Fixpoint join (sep : string) (l : list string) : string :=
  match l with
  | [] => EmptyString
  | [x] => x
  | x :: r => x ^^ sep ^^ join sep r
  end.

Definition wrap (open close gap indent : string) (items : list string)
  : string :=
  match items, gap with
  | [], _ => open ^^ close
  | _, EmptyString => open ^^ join "," items ^^ close
  | _, _ =>
      let inner := indent ^^ gap in
      open ^^ nl ^^ inner ^^ join ("," ^^ nl ^^ inner) items
           ^^ nl ^^ indent ^^ close
  end.

Definition colon (gap : string) : string :=
  match gap with EmptyString => ":" | _ => ": " end.

(** SerializeJSONProperty: [None] is [undefined], which an object leaves
    out and an array writes as [null]. *)
Fixpoint serialize (gap indent : string) (v : value) : option string :=
  match v with
  | Undefined => None
  | Null => Some "null"
  | Bool true => Some "true"
  | Bool false => Some "false"
  | Num (Fin d) => Some (Number.to_string (Fin d))
  | Num _ => Some "null"
  | Str s => Some (quote s)
  | Arr l =>
      let items :=
        (fix go (l : list value) : list string :=
           match l with
           | [] => []
           | x :: r => default "null" (serialize gap (indent ^^ gap) x) :: go r
           end) l in
      Some (wrap "[" "]" gap indent items)
  | Obj l =>
      let items :=
        (fix go (l : list (string * value)) : list string :=
           match l with
           | [] => []
           | (k, x) :: r =>
               match serialize gap (indent ^^ gap) x with
               | Some t => (quote k ^^ colon gap ^^ t) :: go r
               | None => go r
               end
           end) l in
      Some (wrap "{" "}" gap indent items)
  end.

Fixpoint spaces (n : nat) : string :=
  match n with O => EmptyString | S n' => String " " (spaces n') end.

(** [JSON.stringify(v, null, space)] for a number [space]. *)
Definition stringify (v : value) (space : nat) : option string :=
  serialize (spaces (Nat.min 10 space)) EmptyString v.

(** [JSON.stringify] of an object literal, which is never [undefined]. *)
Definition stringify_object (props : list (string * value)) (space : nat)
  : string :=
  default EmptyString (stringify (Obj props) space).

End JSON.

(* ===================================================================== *)
(** ** Node's crypto and Buffer: SHA-256 and the base64url encoding *)
(* ===================================================================== *)

Module Crypto.

(** A Buffer is the [string] of its bytes. *)
Definition bytes_of (s : string) : list Z :=
  map (fun c => Z.of_N (Text.code c)) (list_ascii_of_string s).

Definition of_bytes (l : list Z) : string :=
  string_of_list_ascii (map (fun b => ascii_of_N (Z.to_N b)) l).

(** *** SHA-256 (FIPS 180-4) on 32-bit words held in [Z] *)

Definition w32 (x : Z) : Z := x mod 2 ^ 32.
Definition rotr (n x : Z) : Z :=
  Z.lor (Z.shiftr x n) (w32 (Z.shiftl x (32 - n))).
Definition Ch (x y z : Z) : Z :=
  Z.lxor (Z.land x y) (Z.land (Z.lxor x 0xffffffff) z).
Definition Maj (x y z : Z) : Z :=
  Z.lxor (Z.lxor (Z.land x y) (Z.land x z)) (Z.land y z).
Definition Sigma0 (x : Z) : Z := Z.lxor (Z.lxor (rotr 2 x) (rotr 13 x)) (rotr 22 x).
Definition Sigma1 (x : Z) : Z := Z.lxor (Z.lxor (rotr 6 x) (rotr 11 x)) (rotr 25 x).
Definition sigma0 (x : Z) : Z := Z.lxor (Z.lxor (rotr 7 x) (rotr 18 x)) (Z.shiftr x 3).
Definition sigma1 (x : Z) : Z := Z.lxor (Z.lxor (rotr 17 x) (rotr 19 x)) (Z.shiftr x 10).

(** The constants are the first thirty-two bits of the fractional parts of
    the cube roots ([K]) and of the square roots ([H0]) of the first primes. *)
Definition is_prime (n : Z) : bool :=
  forallb (fun d => negb (n mod Z.of_nat d =? 0)) (seq 2 (Z.to_nat n - 2)).

Definition primes : list Z :=
  filter is_prime (map Z.of_nat (seq 2 310)).

(** The integer cube root of [n], found one bit at a time from bit [k]
    down. *)
Fixpoint cube_root (k : nat) (r n : Z) : Z :=
  match k with
  | O => r
  | S k' =>
      let c := r + 2 ^ Z.of_nat k' in
      if c * c * c <=? n then cube_root k' c n else cube_root k' r n
  end.

Definition K : list Z :=
  map (fun p => w32 (cube_root 36 0 (p * 2 ^ 96))) primes.

Definition H0 : list Z :=
  map (fun p => w32 (Z.sqrt (p * 2 ^ 64))) (firstn 8 primes).

(** Big-endian bytes of [x], [n] of them. *)
Fixpoint be_bytes (n : nat) (x : Z) : list Z :=
  match n with
  | O => []
  | S n' => (x / 256 ^ Z.of_nat n') mod 256 :: be_bytes n' x
  end.

Definition pad (msg : list Z) : list Z :=
  let len := Z.of_nat (length msg) in
  msg ++ [128] ++ repeat 0 (Z.to_nat ((55 - len) mod 64)) ++ be_bytes 8 (8 * len).

(** The big-endian words of a block of bytes. *)
Fixpoint words (l : list Z) : list Z :=
  match l with
  | a :: b :: c :: d :: r => ((a * 256 + b) * 256 + c) * 256 + d :: words r
  | _ => []
  end.

Definition at_ (w : list Z) (i : nat) : Z := nth i w 0.

(** Extends the sixteen words of a block to the sixty-four of its message
    schedule. *)
Fixpoint schedule (n : nat) (w : list Z) : list Z :=
  match n with
  | O => w
  | S n' =>
      let t := length w in
      schedule n'
        (w ++ [w32 (sigma1 (at_ w (t - 2)) + at_ w (t - 7)
                    + sigma0 (at_ w (t - 15)) + at_ w (t - 16))])
  end.

Definition round (st : list Z) (kw : Z * Z) : list Z :=
  match st with
  | [a; b; c; d; e; f; g; h] =>
      let t1 := h + Sigma1 e + Ch e f g + fst kw + snd kw in
      let t2 := Sigma0 a + Maj a b c in
      [w32 (t1 + t2); a; b; c; w32 (d + t1); e; f; g]
  | _ => st
  end.

Definition zip_with {A B C} (f : A -> B -> C) : list A -> list B -> list C :=
  fix go (l : list A) (m : list B) : list C :=
    match l, m with
    | x :: l', y :: m' => f x y :: go l' m'
    | _, _ => []
    end.

Definition compress (h : list Z) (block : list Z) : list Z :=
  let w := schedule 48 (words block) in
  let st := fold_left round (zip_with pair K w) h in
  zip_with (fun x y => w32 (x + y)) h st.

Fixpoint blocks (n : nat) (h : list Z) (l : list Z) : list Z :=
  match n with
  | O => h
  | S n' => blocks n' (compress h (firstn 64 l)) (skipn 64 l)
  end.

(** [crypto.createHash('sha256').update(s).digest()]: the thirty-two bytes
    of the digest of the bytes of [s]. *)
Definition sha256 (s : string) : string :=
  let p := pad (bytes_of s) in
  of_bytes (concat (map (be_bytes 4) (blocks (length p / 64) H0 p))).

(** *** base64url, as [Buffer.toString('base64url')] writes it *)

Definition b64char (n : N) : ascii :=
  ascii_of_N
    (if N.ltb n 26 then 65 + n
     else if N.ltb n 52 then 71 + n
     else if N.ltb n 62 then n - 4
     else if N.eqb n 62 then 45 else 95).

Fixpoint base64url (s : string) : string :=
  match s with
  | EmptyString => EmptyString
  | String a EmptyString =>
      let x := Text.code a in
      String (b64char (x / 4)) (String (b64char ((x mod 4) * 16)) EmptyString)
  | String a (String b EmptyString) =>
      let x := Text.code a in
      let y := Text.code b in
      String (b64char (x / 4))
        (String (b64char ((x mod 4) * 16 + y / 16))
           (String (b64char ((y mod 16) * 4)) EmptyString))
  | String a (String b (String c r)) =>
      let x := Text.code a in
      let y := Text.code b in
      let z := Text.code c in
      String (b64char (x / 4))
        (String (b64char ((x mod 4) * 16 + y / 16))
           (String (b64char ((y mod 16) * 4 + z / 64))
              (String (b64char (z mod 64)) (base64url r))))
  end.


End Crypto.

(* ===================================================================== *)
(** ** The process and the world around it *)
(* ===================================================================== *)

(** What a promise rejects with, or a statement throws. *)
Inductive error : Type :=
| Error (message : string)       (* [new Error(message)] *)
| TypeError                      (* a property of [null], a conversion *)
| SyntaxError                    (* [JSON.parse], [response.json()] *)
| SystemError (errno : string)   (* [fs], [child_process] *)
| FetchFailed (cause : string)   (* [fetch] rejecting *)
| Thrown (v : value).            (* anything a callback throws *)

Inductive outcome (A : Type) : Type :=
| Ok (a : A)
| Throw (e : error).
Arguments Ok {A} a.
Arguments Throw {A} e.

(** A path is the list of its components below the root. *)
Abbreviation path := (list string).

Record file : Type := File { content : string; mode : Z }.

Record Disk : Type := mkDisk {
  dirs : gset path;          (* the directories, the root apart *)
  files : gmap path file     (* the regular files *)
}.

Record Request : Type := mkRequest {
  url : string;
  method : string;
  headers : list (string * string);
  body : string
}.

Record Response : Type := mkResponse {
  status : Z;
  statusText : string;
  text : string              (* the body as [response.text()] decodes it,
                                without a byte order mark: the text that
                                [response.json()] parses *)
}.

(** What [fetch] settles with. *)
Inductive FetchOutcome : Type :=
| Rejected (e : error)
| Resolved (r : Response).

Inductive Event : Type :=
| EvReadFile (p : path)
| EvMkdir (p : path)
| EvWriteFile (p : path) (data : string)
| EvChmod (p : path) (m : Z)
| EvUnlink (p : path)
| EvFetch (req : Request)
| EvNow (t : Z)
| EvRandomBytes (n : nat)
| EvExec (command : string)
| EvLog (line : string)
| EvStdin.

(** The answers of the outside world, by the number of effects the process
    has performed so far: the program is deterministic, so this fixes
    every run. A call that fails may have changed the disk before it
    failed: [partial] is [None] when it had not, [Some k] when a write had
    opened its file and written [k] bytes, or a recursive [mkdir] had gone
    [k] directories down its way. *)
Record Env : Type := mkEnv {
  homedir : path;                          (* [os.homedir()] *)
  platform : string;                       (* [process.platform] *)
  create_mode : Z;                         (* mode of a file just created *)
  clock : nat -> Z;                        (* [Date.now()] *)
  io_error : nat -> option error;          (* failure of an fs or exec call *)
  partial : nat -> option nat;             (* what a failing call had done *)
  network : nat -> Request -> FetchOutcome;
  entropy : nat -> nat -> ascii;           (* the bytes of [randomBytes] *)
  stdin : nat -> string                    (* the next chunk typed *)
}.

Record World : Type := mkWorld {
  env : Env;
  disk : Disk;
  trace : list Event
}.

(** An [async] function, or a statement that may throw. *)
Definition M (A : Type) : Type := World -> outcome A * World.

Definition ret {A} (a : A) : M A := fun w => (Ok a, w).

Definition throw {A} (e : error) : M A := fun w => (Throw e, w).

Definition bind {A B} (m : M A) (k : A -> M B) : M B :=
  fun w => match m w with
           | (Ok a, w') => k a w'
           | (Throw e, w') => (Throw e, w')
           end.

(** [try { m } catch (e) { h e }]. *)
Definition try_catch {A} (m : M A) (h : error -> M A) : M A :=
  fun w => match m w with
           | (Ok a, w') => (Ok a, w')
           | (Throw e, w') => h e w'
           end.

Notation "'let*' x ':=' m 'in' k" := (bind m (fun x => k))
  (at level 10, x name, m at level 100, k at level 200).
Notation "m ';;' k" := (bind m (fun _ => k))
  (at level 100, k at level 200, right associativity).

(** Reads the process constants. *)
Definition with_env {A} (f : Env -> M A) : M A := fun w => f (env w) w.

Module Sys.

Definition now (w : World) : nat := length (trace w).

Definition log (e : Event) (w : World) : World :=
  mkWorld (env w) (disk w) (trace w ++ [e]).

Definition set_disk (d : Disk) (w : World) : World :=
  mkWorld (env w) d (trace w).

(** An effect: the answer is computed in the world as it is when the call
    is made, and the call is recorded. *)
Definition effect {A} (e : Event) (f : World -> outcome A * Disk) : M A :=
  fun w => let '(r, d) := f w in (r, log e (set_disk d w)).

Definition is_dir (d : Disk) (p : path) : bool :=
  match p with [] => true | _ => bool_decide (p ∈ dirs d) end.

Definition is_file (d : Disk) (p : path) : bool :=
  match files d !! p with Some _ => true | None => false end.

(** The proper prefixes of [p] and [p] itself, the root apart. *)
Definition ancestors (p : path) : list path :=
  map (fun n => firstn n p) (seq 1 (length p)).

Definition dirname (p : path) : path := removelast p.

(** [fs.readFile(p, 'utf-8')]: the bytes of the file, which are the text
    read when they are well-formed UTF-8 (the runtime puts U+FFFD in the
    place of a sequence that is not). *)
Definition readFile (p : path) : M string :=
  effect (EvReadFile p) (fun w =>
    match io_error (env w) (now w) with
    | Some e => (Throw e, disk w)
    | None =>
        match files (disk w) !! p with
        | Some f => (Ok (content f), disk w)
        | None =>
            (Throw (SystemError (if is_dir (disk w) p then "EISDIR" else "ENOENT")),
             disk w)
        end
    end).

(** The first regular file among [l]. *)
Fixpoint first_file (d : Disk) (l : list path) : option path :=
  match l with
  | [] => None
  | q :: r => if is_file d q then Some q else first_file d r
  end.

(** The paths of [l] that come before its first regular file. *)
Fixpoint before_file (d : Disk) (l : list path) : list path :=
  match l with
  | [] => []
  | q :: r => if is_file d q then [] else q :: before_file d r
  end.

(** [fs.mkdir(p, { recursive: true })]: the missing directories on the way
    are created one after the other, from the root down. A regular file on
    the way stops it: with EEXIST when it is [p] itself, with ENOTDIR when
    it is above [p]. The directories made before a failure stay. *)
Definition mkdir_recursive (p : path) : M unit :=
  effect (EvMkdir p) (fun w =>
    let made (l : list path) : Disk :=
      mkDisk (dirs (disk w) ∪ list_to_set l) (files (disk w)) in
    let way := before_file (disk w) (ancestors p) in
    match io_error (env w) (now w) with
    | Some e =>
        (Throw e, made (firstn (default O (partial (env w) (now w))) way))
    | None =>
        match first_file (disk w) (ancestors p) with
        | Some q =>
            (Throw (SystemError (if bool_decide (q = p) then "EEXIST"
                                 else "ENOTDIR")),
             made way)
        | None => (Ok tt, made (ancestors p))
        end
    end).

(** [fs.writeFile(p, data)]: the file is opened with the flag ['w'], which
    creates it or empties it, and [data] is written to it. A call that fails
    once the file is open leaves in it the bytes written until then. *)
Definition writeFile (p : path) (data : string) : M unit :=
  effect (EvWriteFile p data) (fun w =>
    let m := match files (disk w) !! p with
             | Some f => mode f
             | None => create_mode (env w)
             end in
    let holding (s : string) : Disk :=
      mkDisk (dirs (disk w)) (<[p := File s m]> (files (disk w))) in
    let opens := negb (is_dir (disk w) p) && is_dir (disk w) (dirname p) in
    match io_error (env w) (now w) with
    | Some e =>
        match partial (env w) (now w) with
        | Some k =>
            (Throw e, if opens then holding (substring 0 k data) else disk w)
        | None => (Throw e, disk w)
        end
    | None =>
        if is_dir (disk w) p then (Throw (SystemError "EISDIR"), disk w)
        else if negb (is_dir (disk w) (dirname p))
        then (Throw (SystemError
                       (if existsb (is_file (disk w)) (ancestors (dirname p))
                        then "ENOTDIR" else "ENOENT")),
              disk w)
        else (Ok tt, holding data)
    end).

(** [fs.chmod(p, m)] on a regular file. *)
Definition chmod (p : path) (m : Z) : M unit :=
  effect (EvChmod p m) (fun w =>
    match io_error (env w) (now w) with
    | Some e => (Throw e, disk w)
    | None =>
        match files (disk w) !! p with
        | Some f =>
            (Ok tt, mkDisk (dirs (disk w))
                           (<[p := File (content f) m]> (files (disk w))))
        | None => (Throw (SystemError "ENOENT"), disk w)
        end
    end).

(** [fs.unlink(p)]. *)
Definition unlink (p : path) : M unit :=
  effect (EvUnlink p) (fun w =>
    match io_error (env w) (now w) with
    | Some e => (Throw e, disk w)
    | None =>
        match files (disk w) !! p with
        | Some _ => (Ok tt, mkDisk (dirs (disk w)) (delete p (files (disk w))))
        | None => (Throw (SystemError "ENOENT"), disk w)
        end
    end).

(** [Date.now()]. *)
Definition Date_now : M Z :=
  fun w => let t := clock (env w) (now w) in (Ok t, log (EvNow t) w).

(** [fetch(url, init)]; the response is what the network answers. *)
Definition fetch (req : Request) : M Response :=
  effect (EvFetch req) (fun w =>
    match network (env w) (now w) req with
    | Rejected e => (Throw e, disk w)
    | Resolved r => (Ok r, disk w)
    end).

(** [crypto.randomBytes(n)]. *)
Definition randomBytes (n : nat) : M string :=
  effect (EvRandomBytes n) (fun w =>
    (Ok (string_of_list_ascii (map (entropy (env w) (now w)) (seq 0 n))),
     disk w)).

(** [exec(command, callback)] as the promise [openUrl] wraps it in. *)
Definition exec (command : string) : M unit :=
  effect (EvExec command) (fun w =>
    match io_error (env w) (now w) with
    | Some e => (Throw e, disk w)
    | None => (Ok tt, disk w)
    end).

(** [console.log(line)]. *)
Definition console_log (line : string) : M unit :=
  effect (EvLog line) (fun w => (Ok tt, disk w)).

(** [process.stdin.once('data', ...)]: the next chunk, as text. *)
Definition stdin_data : M string :=
  effect EvStdin (fun w => (Ok (stdin (env w) (now w)), disk w)).

End Sys.

(* ===================================================================== *)
(** ** The credential manager *)
(* ===================================================================== *)

Definition CLIENT_ID : string := "9d1c250a-e61b-44d9-88ed-5944d1962f5e".

Definition CREDS_PATH (e : Env) : path :=
  homedir e ++ [".titan"; "credentials"; "claude.json"].

Definition TOKEN_URL : string := "https://console.anthropic.com/v1/oauth/token".

Definition REDIRECT_URI : string :=
  "https://console.anthropic.com/oauth/code/callback".

(** The object literal the two exchanges build. Its fields hold whatever the
    token endpoint sent: the response is untyped. *)
Record Credentials : Type := mkCredentials {
  access_token : value;
  refresh_token : value;
  expires_at : number   (* timestamp in ms *)
}.

Definition Credentials_object (c : Credentials) : list (string * value) :=
  [("access_token", access_token c);
   ("refresh_token", refresh_token c);
   ("expires_at", Num (expires_at c))].

Record PKCEPair : Type := mkPKCE {
  verifier : string;
  challenge : string
}.

(** [v.k], throwing as the runtime does. *)
Definition prop (v : value) (k : string) : M value :=
  match JS.get v k with
  | Some x => ret x
  | None => throw TypeError
  end.

(** [v * n] and [v > n], throwing as the runtime does. *)
Definition times (v : value) (n : number) : M number :=
  match JS.times v n with
  | Some x => ret x
  | None => throw TypeError
  end.

Definition greater (v : value) (n : number) : M bool :=
  match JS.greater v n with
  | Some b => ret b
  | None => throw TypeError
  end.

(** [JSON.parse(text)], and [response.json()] on the text of the body. *)
Definition JSON_parse (text : string) : M value :=
  match JSON.parse text with
  | Some v => ret v
  | None => throw SyntaxError
  end.

(** [response.ok]. *)
Definition ok (r : Response) : bool := (200 <=? status r) && (status r <=? 299).

(** [l[i]] for the array [split] returns. *)
Definition item (l : list string) (i : nat) : value :=
  match nth_error l i with
  | Some s => Str s
  | None => Undefined
  end.

(** Generate PKCE pair for OAuth *)
Definition generatePKCE : M PKCEPair :=
  let* bytes := Sys.randomBytes 32 in
  let verifier := Crypto.base64url bytes in
  let challenge := Crypto.base64url (Crypto.sha256 verifier) in
  ret (mkPKCE verifier challenge).

(** The application/x-www-form-urlencoded serializer of [URLSearchParams]. *)
Module Url.

Definition unreserved (c : ascii) : bool :=
  let n := Text.code c in
  Text.is_digit c
  || (N.leb 65 n && N.leb n 90) || (N.leb 97 n && N.leb n 122)
  || N.eqb n 42 || N.eqb n 45 || N.eqb n 46 || N.eqb n 95.

Fixpoint encode (s : string) : string :=
  match s with
  | EmptyString => EmptyString
  | String c r =>
      if unreserved c then String c (encode r)
      else if Ascii.eqb c " " then String "+" (encode r)
      else
        let n := Text.code c in
        String "%" (String (Text.upper_hex_digit (n / 16))
                      (String (Text.upper_hex_digit (n mod 16)) (encode r)))
  end.

Definition query (params : list (string * string)) : string :=
  JSON.join "&" (map (fun kv => encode (fst kv) ^^ "=" ^^ encode (snd kv)) params).

End Url.

(** Get OAuth authorization URL *)
Definition getAuthorizationURL (pkce : PKCEPair) : string :=
  "https://claude.ai/oauth/authorize" ^^ "?" ^^
  Url.query
    [("code", "true");
     ("client_id", CLIENT_ID);
     ("response_type", "code");
     ("redirect_uri", REDIRECT_URI);
     ("scope", "org:create_api_key user:profile user:inference");
     ("code_challenge", challenge pkce);
     ("code_challenge_method", "S256");
     ("state", verifier pkce)].

Definition json_post (body : string) : Request :=
  mkRequest TOKEN_URL "POST" [("Content-Type", "application/json")] body.

(** The body of the authorization-code request. *)
Definition code_request_body (code verifier : string) : string :=
  let parts := Text.split "#" code in
  let authCode := item parts 0 in
  let state := item parts 1 in
  JSON.stringify_object
    [("code", authCode);
     ("state", state);
     ("grant_type", Str "authorization_code");
     ("client_id", Str CLIENT_ID);
     ("redirect_uri", Str REDIRECT_URI);
     ("code_verifier", Str verifier)] 0.

(** What both exchanges do with the parsed response. *)
Definition credentials_of_response (data : value) : M Credentials :=
  let* access_token := prop data "access_token" in
  let* refresh_token := prop data "refresh_token" in
  let* now := Sys.Date_now in
  let* expires_in := prop data "expires_in" in
  let* lifetime := times expires_in (Number.of_Z 1000) in
  ret (mkCredentials access_token refresh_token
         (Number.add (Number.of_Z now) lifetime)).

(** Exchange authorization code for tokens *)
Definition exchangeCodeForTokens (code verifier : string) : M Credentials :=
  let* response := Sys.fetch (json_post (code_request_body code verifier)) in
  if negb (ok response) then
    throw (Error ("Token exchange failed: " ^^ statusText response))
  else
    let* data := JSON_parse (text response) in
    credentials_of_response data.

(** The body of the refresh request. *)
Definition refresh_request_body (refreshToken : value) : string :=
  JSON.stringify_object
    [("grant_type", Str "refresh_token");
     ("refresh_token", refreshToken);
     ("client_id", Str CLIENT_ID)] 0.

(** Refresh access token *)
Definition refreshAccessToken (refreshToken : value) : M Credentials :=
  let* response := Sys.fetch (json_post (refresh_request_body refreshToken)) in
  if negb (ok response) then
    throw (Error ("Token refresh failed: " ^^ statusText response))
  else
    let* data := JSON_parse (text response) in
    credentials_of_response data.

Definition saveCredentials (creds : Credentials) : M unit :=
  with_env (fun e =>
    Sys.mkdir_recursive (Sys.dirname (CREDS_PATH e)) ;;
    Sys.writeFile (CREDS_PATH e)
      (JSON.stringify_object (Credentials_object creds) 2) ;;
    try_catch
      (Sys.chmod (CREDS_PATH e) 0x180)   (* 0o600: Read/write for owner only *)
      (fun _ => ret tt)).                (* chmod may fail on Windows, that's ok *)

Definition loadCredentials : M value :=
  with_env (fun e =>
    try_catch
      (let* data := Sys.readFile (CREDS_PATH e) in
       JSON_parse data)
      (fun _ => ret Null)).

(** Get a valid Claude access token.
    Returns cached token if valid, refreshes if expired, or null if not
    authenticated. *)
Definition getClaudeAccessToken : M value :=
  let* creds := loadCredentials in
  if negb (JS.ToBoolean creds) then ret Null
  else
    (* If token is still valid, return it *)
    let* expires_at := prop creds "expires_at" in
    let* now := Sys.Date_now in
    let* valid :=
      greater expires_at (Number.add (Number.of_Z now) (Number.of_Z 60000)) in
    if valid then prop creds "access_token"
    else
      (* Otherwise, refresh it *)
      try_catch
        (let* refresh_token := prop creds "refresh_token" in
         let* newCreds := refreshAccessToken refresh_token in
         saveCredentials newCreds ;;
         ret (access_token newCreds))
        (fun _ => ret Null).

(** Check if user is authenticated with Claude *)
Definition isAuthenticated : M bool :=
  let* token := getClaudeAccessToken in
  ret (match token with Null => false | _ => true end).

Definition dq : string := String "034" EmptyString.

Definition openUrl (url : string) : M unit :=
  with_env (fun e =>
    let command :=
      if String.eqb (platform e) "darwin" then "open " ^^ dq ^^ url ^^ dq
      else if String.eqb (platform e) "win32"
      then "start " ^^ dq ^^ dq ^^ " " ^^ dq ^^ url ^^ dq
      else "xdg-open " ^^ dq ^^ url ^^ dq in
    Sys.exec command).

Record AuthFlowCallbacks : Type := mkCallbacks {
  onAuthUrlReady : option (string -> M unit);
  promptForCode : option (M string);
  onSuccess : option (M unit);
  onError : option (error -> M unit)
}.

(** [callbacks?.f] *)
Definition hook {A} (callbacks : option AuthFlowCallbacks)
    (f : AuthFlowCallbacks -> option A) : option A :=
  match callbacks with
  | Some c => f c
  | None => None
  end.

(** Complete the OAuth flow to authenticate with Claude. *)
Definition authenticateWithClaude (callbacks : option AuthFlowCallbacks)
  : M value :=
  (* Try to get existing valid token *)
  let* existingToken := getClaudeAccessToken in
  if JS.ToBoolean existingToken then ret existingToken
  else
    (* Generate PKCE and auth URL *)
    let* pkce := generatePKCE in
    let authUrl := getAuthorizationURL pkce in
    (* Open browser *)
    try_catch (openUrl authUrl) (fun _ => ret tt) ;;
    (* Notify about auth URL *)
    match hook callbacks onAuthUrlReady with
    | Some f => f authUrl
    | None =>
        Sys.console_log (JSON.nl ^^ "To authenticate, visit:") ;;
        Sys.console_log authUrl ;;
        Sys.console_log (JSON.nl ^^ "Paste the authorization code below:")
    end ;;
    (* Get code from user *)
    let* code :=
      match hook callbacks promptForCode with
      | Some p => p
      | None => let* data := Sys.stdin_data in ret (Text.trim data)
      end in
    (* Exchange code for tokens *)
    let* creds := exchangeCodeForTokens code (verifier pkce) in
    saveCredentials creds ;;
    match hook callbacks onSuccess with
    | Some f => f
    | None => ret tt
    end ;;
    ret (access_token creds).

(** Clear stored credentials (logout) *)
Definition clearCredentials : M unit :=
  with_env (fun e =>
    try_catch (Sys.unlink (CREDS_PATH e)) (fun _ => ret tt)).

(* ===================================================================== *)
(** ** Notions the properties are stated with *)
(* ===================================================================== *)

(** A parsed credential file that has the three fields of [Credentials]. *)
Definition fully_valid (v : value) : Prop :=
  exists a r e,
    JS.get v "access_token" = Some (Str a) /\
    JS.get v "refresh_token" = Some (Str r) /\
    JS.get v "expires_at" = Some (Num e).

(** [m] only adds events satisfying [P] to the trace, and leaves the
    answers of the outside world alone. *)
Definition emits (P : Event -> Prop) {A} (m : M A) : Prop :=
  forall w, exists tr,
    trace (snd (m w)) = (trace w ++ tr)%list /\ Forall P tr /\
    env (snd (m w)) = env w.

(** [m] leaves the disk as it found it. *)
Definition read_only {A} (m : M A) : Prop :=
  forall w, disk (snd (m w)) = disk w.

Definition is_fetch (e : Event) : Prop :=
  match e with EvFetch _ => True | _ => False end.

(** The effects of the credential store and of the token exchanger. *)
Definition store_or_exchange (e : Event) : Prop :=
  match e with
  | EvReadFile _ | EvMkdir _ | EvWriteFile _ _ | EvChmod _ _
  | EvFetch _ | EvNow _ => True
  | _ => False
  end.

(** The characters of the base64url alphabet. *)
Definition url_safe (c : ascii) : bool :=
  let n := Text.code c in
  Text.is_digit c
  || (N.leb 65 n && N.leb n 90) || (N.leb 97 n && N.leb n 122)
  || N.eqb n 45 || N.eqb n 95.

Fixpoint all_chars (p : ascii -> bool) (s : string) : bool :=
  match s with
  | EmptyString => true
  | String c r => p c && all_chars p r
  end.

(** The first thing [m] does is [ev]. *)
Definition starts_with (ev : Event) {A} (m : M A) : Prop :=
  forall w, exists tr, trace (snd (m w)) = (trace w ++ ev :: tr)%list.

Definition any_event (e : Event) : Prop := True.

(** The bytes [crypto.randomBytes(n)] returns when it is the call number
    [step] of the process. *)
Definition drawn (e : Env) (step n : nat) : string :=
  string_of_list_ascii (map (entropy e step) (seq 0 n)).

(** The number a base64url character stands for. *)
Definition b64val (c : ascii) : N :=
  let n := Text.code c in
  if (N.leb 65 n && N.leb n 90)%bool then n - 65
  else if (N.leb 97 n && N.leb n 122)%bool then n - 71
  else if (N.leb 48 n && N.leb n 57)%bool then n + 4
  else if N.eqb n 45 then 62 else 63.

(** The request the code exchange sends when the pasted text is
    [authCode#state]. *)
Definition compound_code_body (authCode state verifier : string) : string :=
  JSON.stringify_object
    [("code", Str authCode);
     ("state", Str state);
     ("grant_type", Str "authorization_code");
     ("client_id", Str CLIENT_ID);
     ("redirect_uri", Str REDIRECT_URI);
     ("code_verifier", Str verifier)] 0.

(** The request the code exchange sends when the pasted text has no
    [state] part: the object has no [state] property. *)
Definition plain_code_body (code verifier : string) : string :=
  JSON.stringify_object
    [("code", Str code);
     ("grant_type", Str "authorization_code");
     ("client_id", Str CLIENT_ID);
     ("redirect_uri", Str REDIRECT_URI);
     ("code_verifier", Str verifier)] 0.

(** A text none of whose bytes is 0xED, the first byte of an encoded
    surrogate: the text that [escape] writes without [\u] escapes of
    surrogates. Every ASCII text is one. *)
Definition plain (s : string) : bool :=
  negb (Text.contains "237"%char s).

(** What may follow a number in a JSON text without being read as part of
    it: nothing, or a character that is not a digit, a dot or an exponent
    mark. *)
Definition ends_number (rest : string) : bool :=
  match rest with
  | EmptyString => true
  | String c _ =>
      negb (Text.is_digit c || Ascii.eqb c "." || Ascii.eqb c "e"
            || Ascii.eqb c "E")
  end.

(** The values that are read back here as they were written: plain
    strings and natural numbers below [10^21], which are printed as their
    digits. *)
Definition simple (v : value) : bool :=
  match v with
  | Str s => plain s
  | Num (Fin (Dec m O)) => (0 <=? m) && (m <? 10 ^ 21)
  | _ => false
  end.

(** The properties of a flat object: plain names, not array indices, all
    different, with simple values. *)
Fixpoint flat (seen : list string) (props : list (string * value)) : bool :=
  match props with
  | [] => true
  | (k, v) :: rest =>
      plain k && simple v
      && negb (existsb (String.eqb k) seen)
      && match JSON.array_index k with None => true | Some _ => false end
      && flat (seen ++ [k]) rest
  end.

(** How a simple value is written. *)
Definition printed (v : value) : string :=
  match v with
  | Str s => JSON.quote s
  | Num n => Number.to_string n
  | _ => EmptyString
  end.

(** How a property is written, [cpad] being what follows the colon. *)
Definition printed_property (cpad : string) (kv : string * value) : string :=
  JSON.quote (fst kv) ^^ ":" ^^ cpad ^^ printed (snd kv).

(** A decimal numeral whose first digit is not zero. *)
Definition nonzero_head (d : uint) : Prop :=
  match d with
  | Nil | D0 _ => False
  | _ => True
  end.

(** What follows the colon: nothing, or a space when there is
    indentation. *)
Definition colon_pad (gap : string) : string :=
  match gap with EmptyString => EmptyString | _ => " " end.

(** Nothing on the disk stands in the way of the file [p]: no directory it
    lies in is a regular file, and [p] is not a directory. *)
Definition clear_way (d : Disk) (p : path) : bool :=
  negb (existsb (Sys.is_file d) (Sys.ancestors (Sys.dirname p)))
  && negb (Sys.is_dir d p).

(** The disk once [saveCredentials] has written [text] to [p]; [restricted]
    says whether the permissions could be changed. *)
Definition saved_disk (d : Disk) (p : path) (text : string) (m0 : Z)
    (restricted : bool) : Disk :=
  mkDisk (dirs d ∪ list_to_set (Sys.ancestors (Sys.dirname p)))
         (<[p := File text
                   (if restricted then 0x180
                    else match files d !! p with
                         | Some f => mode f
                         | None => m0
                         end)]> (files d)).

(** The mode of the file [p] once it has been opened for writing. *)
Definition opened_mode (w : World) (p : path) : Z :=
  match files (disk w) !! p with
  | Some f => mode f
  | None => create_mode (env w)
  end.

(** The byte string of length [n] that stands for the number [x], least
    significant byte first, and the number a byte string stands for: the
    strings of length [n] are numbered by the numbers below [256 ^ n]. *)
Fixpoint numbered (n : nat) (x : N) : string :=
  match n with
  | O => EmptyString
  | S k => String (ascii_of_N (x mod 256)) (numbered k (x / 256))
  end.


(** An object with a [toString] property of its own: what cannot be
    converted to a number or to a string. *)
Definition hides_toString (v : value) : bool :=
  match v with
  | Obj props =>
      match JS.assoc "toString" props with
      | Some _ => true
      | None => false
      end
  | _ => false
  end.

Definition is_array (v : value) : bool :=
  match v with Arr _ => true | _ => false end.

(** What the credential file holds after a save of [text] that threw: what
    it held, or the bytes of [text] written until then. *)
Definition kept_or_cut (w w' : World) (p : path) (text : string) : Prop :=
  files (disk w') !! p = files (disk w) !! p \/
  exists k,
    files (disk w') !! p = Some (File (substring 0 k text) (opened_mode w p)).

(** The integers binary64 holds exactly. *)
Definition held_exactly (z : Z) : Prop := - 2 ^ 53 <= z <= 2 ^ 53.

(** The credential [c] and the world [w'] are what an exchange makes of
    the answer to [req] in [w]: the answer has a success status and a JSON
    body, the tokens are those of the body, its [expires_in] converts to a
    number, the expiry is counted from the clock read once the answer is
    there, and only the request and the clock reading were added to the
    trace. *)
Definition made_of_response (w : World) (req : Request) (c : Credentials)
    (w' : World) : Prop :=
  exists resp data ei lifetime,
    network (env w) (Sys.now w) req = Resolved resp /\
    200 <= status resp <= 299 /\
    JSON.parse (text resp) = Some data /\
    JS.get data "access_token" = Some (access_token c) /\
    JS.get data "refresh_token" = Some (refresh_token c) /\
    JS.get data "expires_in" = Some ei /\
    JS.ToNumber ei = Some lifetime /\
    (forall s : Z,
       ei = Num (Number.of_Z s) ->
       held_exactly (clock (env w) (S (Sys.now w)) + s * 1000) ->
       expires_at c =
       Number.of_Z (clock (env w) (S (Sys.now w)) + s * 1000)) /\
    w' = mkWorld (env w) (disk w)
           (trace w ++ [EvFetch req; EvNow (clock (env w) (S (Sys.now w)))]).

(** The characters the form-urlencoded serializer writes. *)
Definition form_char (c : ascii) : bool :=
  Url.unreserved c || Ascii.eqb c "+" || Ascii.eqb c "%".

(** The characters of an authorization URL. *)
Definition url_char (c : ascii) : bool :=
  form_char c || Ascii.eqb c ":" || Ascii.eqb c "/" || Ascii.eqb c "?"
  || Ascii.eqb c "&" || Ascii.eqb c "=".

(** The query of the authorization URL for the pair [pkce], parameter by
    parameter. *)
Definition authorization_parameters (pkce : PKCEPair) : list string :=
  ["code=true";
   "client_id=9d1c250a-e61b-44d9-88ed-5944d1962f5e";
   "response_type=code";
   "redirect_uri=https%3A%2F%2Fconsole.anthropic.com%2Foauth%2Fcode%2Fcallback";
   "scope=org%3Acreate_api_key+user%3Aprofile+user%3Ainference";
   "code_challenge=" ^^ Url.encode (challenge pkce);
   "code_challenge_method=S256";
   "state=" ^^ Url.encode (verifier pkce)].

(** The command that opens a URL, by platform, up to the URL. *)
Definition launcher (platform : string) : string :=
  if String.eqb platform "darwin" then "open "
  else if String.eqb platform "win32" then "start " ^^ dq ^^ dq ^^ " "
  else "xdg-open ".

(** TAB, LF, VT, FF, CR and the space. *)
Definition ascii_space (c : ascii) : bool :=
  let n := Text.code c in
  (N.leb 9 n && N.leb n 13) || N.eqb n 32.

(** The visible characters of ASCII. *)
Definition visible (c : ascii) : bool :=
  let n := Text.code c in
  N.leb 33 n && N.leb n 126.

(** Concrete machines to run the credential manager on. *)
Module Scenario.

Definition home : path := ["home"; "user"].

Definition now : Z := 1700000000000.

(** A machine whose clock reads [now], whose disk never fails, and whose
    network gives [answer] to every request. *)
Definition machine (answer : FetchOutcome) : Env :=
  mkEnv home "linux" 0x1a4 (fun _ => now) (fun _ => None) (fun _ => None)
    (fun _ _ => answer) (fun _ i => ascii_of_nat (7 * i + 3))
    (fun _ => EmptyString).

Definition offline : FetchOutcome := Rejected (FetchFailed "ENOTFOUND").

Definition creds_dir : path := home ++ [".titan"; "credentials"].
Definition creds_file : path := creds_dir ++ ["claude.json"].

(** A disk whose credential file holds [text]. *)
Definition disk_with (text : string) : Disk :=
  mkDisk (list_to_set (Sys.ancestors creds_dir))
         {[ creds_file := File text 0x180 ]}.

Definition empty_disk : Disk := mkDisk ∅ ∅.

Definition world (answer : FetchOutcome) (d : Disk) : World :=
  mkWorld (machine answer) d [].



Definition key (k : string) : string := dq ^^ k ^^ dq.

(** The text [{"access_token": "A"}]: JSON, but not a whole credential. *)
Definition partial_text : string :=
  "{" ^^ key "access_token" ^^ ": " ^^ key "A" ^^ "}".

(** The file [saveCredentials] writes for the given credential. *)
Definition credential_text (a r : string) (expires : Z) : string :=
  JSON.stringify_object
    (Credentials_object (mkCredentials (Str a) (Str r) (Number.of_Z expires))) 2.

(** A machine whose credential file holds the credential [a], [r],
    [expires]. *)
Definition stored (a r : string) (expires : Z) (answer : FetchOutcome)
  : World :=
  world answer (disk_with (credential_text a r expires)).

Definition stored_file (a r : string) (expires : Z) : file :=
  File (credential_text a r expires) 0x180.

Definition stored_props (a r : string) (expires : Z)
  : list (string * value) :=
  [("access_token", Str a); ("refresh_token", Str r);
   ("expires_at", Num (Number.of_Z expires))].

(** The body [{"access_token":"B","refresh_token":"R2","expires_in":3600}]
    and the object it denotes. *)
Definition rotated_text : string :=
  "{" ^^ key "access_token" ^^ ":" ^^ key "B" ^^ ","
      ^^ key "refresh_token" ^^ ":" ^^ key "R2" ^^ ","
      ^^ key "expires_in" ^^ ":3600}".

Definition rotated_data : value :=
  Obj [("access_token", Str "B"); ("refresh_token", Str "R2");
       ("expires_in", Num (Number.of_Z 3600))].

Definition rotated_response : Response := mkResponse 200 "OK" rotated_text.

Definition rotated : FetchOutcome := Resolved rotated_response.

(** HTTP 401 from the token endpoint. *)
Definition unauthorized : FetchOutcome :=
  Resolved (mkResponse 401 "Unauthorized"
              ("{" ^^ key "error" ^^ ":" ^^ key "invalid_grant" ^^ "}")).

(** The body of the code exchange for the pasted text
    [abc123#xyzstate] and the verifier [v]. *)
Definition compound_text (v : string) : string :=
  "{" ^^ key "code" ^^ ":" ^^ key "abc123" ^^ ","
      ^^ key "state" ^^ ":" ^^ key "xyzstate" ^^ ","
      ^^ key "grant_type" ^^ ":" ^^ key "authorization_code" ^^ ","
      ^^ key "client_id" ^^ ":" ^^ key CLIENT_ID ^^ ","
      ^^ key "redirect_uri" ^^ ":" ^^ key REDIRECT_URI ^^ ","
      ^^ key "code_verifier" ^^ ":" ^^ key v ^^ "}".

(** The same for the pasted text [abc123]. *)
Definition plain_text (v : string) : string :=
  "{" ^^ key "code" ^^ ":" ^^ key "abc123" ^^ ","
      ^^ key "grant_type" ^^ ":" ^^ key "authorization_code" ^^ ","
      ^^ key "client_id" ^^ ":" ^^ key CLIENT_ID ^^ ","
      ^^ key "redirect_uri" ^^ ":" ^^ key REDIRECT_URI ^^ ","
      ^^ key "code_verifier" ^^ ":" ^^ key v ^^ "}".

(** The same machine, on which the call number [k] of the process fails
    with [e]. *)
Definition failing_at (k : nat) (e : error) (w : World) : World :=
  mkWorld
    (mkEnv (homedir (env w)) (platform (env w)) (create_mode (env w))
       (clock (env w))
       (fun n => if Nat.eqb n k then Some e else None)
       (partial (env w)) (network (env w)) (entropy (env w)) (stdin (env w)))
    (disk w) (trace w).

(** The same machine, at which [line] is typed. *)
Definition typing (line : string) (w : World) : World :=
  mkWorld
    (mkEnv (homedir (env w)) (platform (env w)) (create_mode (env w))
       (clock (env w)) (io_error (env w)) (partial (env w)) (network (env w))
       (entropy (env w)) (fun _ => line))
    (disk w) (trace w).

(** The text [{"expires_at": 1700003600000}]: a credential that is fresh
    and has no tokens. *)
Definition tokenless_text : string :=
  "{" ^^ key "expires_at" ^^ ": 1700003600000}".

(** The verifier and the pair drawn on these machines by the first call
    of the process but one. *)
Definition drawn_verifier : string :=
  Crypto.base64url (drawn (machine offline) 1 32).

Definition drawn_pair : PKCEPair :=
  mkPKCE drawn_verifier (Crypto.base64url (Crypto.sha256 drawn_verifier)).

(** Hooks that take the URL and give the code [abc123#xyzstate] without a
    word. *)
Definition quiet_hooks : AuthFlowCallbacks :=
  mkCallbacks (Some (fun _ => ret tt)) (Some (ret "abc123#xyzstate")) None None.

(** The text [{"expires_at":{"toString":null}}]: a credential whose expiry
    cannot be converted to a number. *)
Definition unconvertible_text : string :=
  "{" ^^ key "expires_at" ^^ ":{" ^^ key "toString" ^^ ":null}}".

(** The same machine, on which a write that fails has opened its file and
    written [k] bytes. *)
Definition cutting (k : nat) (w : World) : World :=
  mkWorld
    (mkEnv (homedir (env w)) (platform (env w)) (create_mode (env w))
       (clock (env w)) (io_error (env w)) (fun _ => Some k) (network (env w))
       (entropy (env w)) (stdin (env w)))
    (disk w) (trace w).

(** A disk on which a regular file stands where the directory [.titan]
    should be. *)
Definition blocked_disk : Disk :=
  mkDisk (list_to_set (Sys.ancestors home))
         {[ (home ++ [".titan"])%list := File EmptyString 0x1a4 ]}.








(** HTTP 200 with the body [{}]. *)
Definition empty_answer : FetchOutcome :=
  Resolved (mkResponse 200 "OK" "{}").

End Scenario.

(* ===================================================================== *)
(** ** Properties *)
(* ===================================================================== *)

(** *** Arithmetic of the runtime's numbers *)

Module NumberFacts.
Import Number.

Lemma pow10_pos n : 0 < pow10 n.
Proof. unfold pow10. apply Z.pow_pos_nonneg; lia. Qed.

Lemma pow10_S n : pow10 (S n) = 10 * pow10 n.
Proof. unfold pow10. rewrite Nat2Z.inj_succ, Z.pow_succ_r; lia. Qed.

Lemma pow10_add n m : pow10 (n + m) = pow10 n * pow10 m.
Proof. unfold pow10. rewrite Nat2Z.inj_add, Z.pow_add_r; lia. Qed.

Lemma inject_pow10_nonzero n : ~ (inject_Z (pow10 n) == 0)%Q.
Proof.
  pose proof (pow10_pos n) as H. unfold Qeq. simpl. lia.
Qed.

(** [norm] changes the representation, not the number. *)
Lemma norm_val s : forall m, (dval (norm m s) == inject_Z m / inject_Z (pow10 s))%Q.
Proof.
  induction s as [|s IH]; intros m; simpl.
  - reflexivity.
  - destruct (Z.eqb_spec (m mod 10) 0) as [E|E]; [|reflexivity].
    rewrite IH, pow10_S.
    assert (Hm : m = 10 * (m / 10)) by (pose proof (Z.div_mod m 10); lia).
    rewrite Hm at 2.
    rewrite !inject_Z_mult.
    field. apply inject_pow10_nonzero.
Qed.

Lemma dadd_val a b : (dval (dadd a b) == dval a + dval b)%Q.
Proof.
  unfold dadd. rewrite norm_val. unfold dval.
  rewrite pow10_add, inject_Z_plus, !inject_Z_mult.
  field. split; apply inject_pow10_nonzero.
Qed.

Lemma dmul_val a b : (dval (dmul a b) == dval a * dval b)%Q.
Proof.
  unfold dmul. rewrite norm_val. unfold dval.
  rewrite pow10_add, !inject_Z_mult.
  field. split; apply inject_pow10_nonzero.
Qed.

Lemma dval_of_Z z : (dval (Dec z 0) == inject_Z z)%Q.
Proof.
  unfold dval. cbn [dnum dscale]. change (pow10 0) with 1.
  change (inject_Z 1) with 1%Q. field.
Qed.

(** [dltb] decides the order of the rationals. *)
Lemma dltb_spec a b : dltb a b = true <-> (dval a < dval b)%Q.
Proof.
  unfold dltb, dval. rewrite Z.ltb_lt.
  pose proof (pow10_pos (dscale a)) as Ha.
  pose proof (pow10_pos (dscale b)) as Hb.
  destruct (pow10 (dscale a)) as [|pa|pa] eqn:Ea; try lia.
  destruct (pow10 (dscale b)) as [|pb|pb] eqn:Eb; try lia.
  unfold Qlt, Qdiv, Qmult, Qinv, inject_Z. simpl.
  rewrite !Z.mul_1_r. reflexivity.
Qed.

Lemma add_of_Z a b : add (of_Z a) (of_Z b) = of_Z (a + b).
Proof.
  unfold add, of_Z, dadd. simpl. unfold pow10. simpl.
  rewrite !Z.mul_1_r. reflexivity.
Qed.

Lemma mul_of_Z a b : mul (of_Z a) (of_Z b) = of_Z (a * b).
Proof. reflexivity. Qed.

Lemma gtb_of_Z a b : gtb (of_Z a) (of_Z b) = (b <? a).
Proof.
  unfold gtb, ltb, of_Z, dltb. simpl. unfold pow10. simpl.
  rewrite !Z.mul_1_r. reflexivity.
Qed.

End NumberFacts.

(** The comparison and the product of the program on whole numbers. *)
Lemma greater_of_Z (a b : Z) :
  JS.greater (Num (Number.of_Z a)) (Number.of_Z b) = Some (b <? a).
Proof.
  unfold JS.greater, JS.ToNumber. cbn [option_map].
  rewrite NumberFacts.gtb_of_Z. reflexivity.
Qed.

Lemma times_of_Z (a b : Z) :
  JS.times (Num (Number.of_Z a)) (Number.of_Z b) = Some (Number.of_Z (a * b)).
Proof. reflexivity. Qed.

(** A number converts to itself: only an object can fail to convert. *)
Lemma greater_Num (n m : number) :
  JS.greater (Num n) m = Some (Number.gtb n m).
Proof. reflexivity. Qed.

(** *** Characters and their codes *)

Lemma code_bound c : (Text.code c < 256)%N.
Proof. apply N_ascii_bounded. Qed.

Lemma code_inj a b : Text.code a = Text.code b -> a = b.
Proof.
  intros H. rewrite <- (ascii_N_embedding a), <- (ascii_N_embedding b).
  unfold Text.code in H. rewrite H. reflexivity.
Qed.

(** *** The JSON parser never runs out of fuel *)

Module JSONFacts.
Import JSON.

Lemma skip_ws_length s : (String.length (skip_ws s) <= String.length s)%nat.
Proof.
  induction s as [|c s IH]; [reflexivity|]. cbn [skip_ws].
  destruct (is_ws c); cbn [String.length]; lia.
Qed.

Lemma strip_prefix_length p : forall s r,
  strip_prefix p s = Some r ->
  String.length s = (String.length p + String.length r)%nat.
Proof.
  induction p as [|a p IH]; intros s r H; cbn [strip_prefix] in H.
  - injection H as <-. reflexivity.
  - destruct s as [|b s]; [discriminate|].
    destruct (Ascii.eqb a b); [|discriminate].
    apply IH in H. cbn [String.length]. lia.
Qed.

Lemma prepend_Some p x t r :
  prepend p x = Some (t, r) -> exists t', x = Some (t', r) /\ t = p ^^ t'.
Proof.
  destruct x as [[t' r']|]; [|discriminate].
  cbn [prepend]. intros [= <- <-]. eauto.
Qed.

(** A string literal is at least its closing quote. *)
Lemma string_body_length n : forall s t r,
  (String.length s <= n)%nat ->
  string_body s = Some (t, r) ->
  (String.length r < String.length s)%nat.
Proof.
  induction n as [|n IH]; intros s t r Hn H.
  { destruct s; [discriminate|]. cbn in Hn. lia. }
  assert (Step : forall p s' t' r',
            (String.length s' <= n)%nat ->
            prepend p (string_body s') = Some (t', r') ->
            (String.length r' < String.length s')%nat).
  { intros p s' t' r' L (t'' & E & _)%prepend_Some. exact (IH _ _ _ L E). }
  destruct s as [|c s]; [discriminate|]. cbn [string_body] in H.
  cbn [String.length] in *.
  destruct (N.eqb (Text.code c) 34); [injection H as <- <-; lia|].
  destruct (N.eqb (Text.code c) 92).
  - destruct s as [|e s]; [discriminate|]. cbn [String.length] in *.
    destruct (simple_escape e).
    { apply Step in H; lia. }
    destruct (negb (Ascii.eqb e "u")); [discriminate|].
    destruct s as [|h1 [|h2 [|h3 [|h4 r2]]]]; try discriminate.
    cbn [String.length] in *.
    destruct (hex4 h1 h2 h3 h4) as [cu|]; [|discriminate].
    destruct (negb (is_high cu)).
    { apply Step in H; lia. }
    destruct r2 as [|b [|u [|l1 [|l2 [|l3 [|l4 r3]]]]]];
      try (apply Step in H; cbn [String.length] in *; lia).
    destruct (hex4 l1 l2 l3 l4) as [lo|];
      [destruct (_ && _)|];
      apply Step in H; cbn [String.length] in *; lia.
  - destruct (N.ltb (Text.code c) 32); [discriminate|].
    apply Step in H; lia.
Qed.

Lemma span_length p : forall s a b,
  Text.span p s = (a, b) ->
  String.length s = (String.length a + String.length b)%nat.
Proof.
  induction s as [|c s IH]; intros a b H; cbn [Text.span] in H.
  - injection H as <- <-. reflexivity.
  - destruct (p c).
    + destruct (Text.span p s) as [a' b'] eqn:E. injection H as <- <-.
      cbn [String.length]. rewrite (IH _ _ eq_refl). reflexivity.
    + injection H as <- <-. reflexivity.
Qed.

Lemma scan_sign_length plus s neg r :
  scan_sign plus s = (neg, r) -> (String.length r <= String.length s)%nat.
Proof.
  unfold scan_sign. intros H.
  destruct (strip_prefix "-" s) as [r1|] eqn:E1.
  { injection H as <- <-. apply strip_prefix_length in E1. cbn in E1. lia. }
  destruct plus.
  - destruct (strip_prefix "+" s) as [r2|] eqn:E2; injection H as <- <-.
    + apply strip_prefix_length in E2. cbn in E2. lia.
    + lia.
  - injection H as <- <-. lia.
Qed.

(** A number is at least one digit. *)
Lemma scan_number_length s n r :
  scan_number s = Some (n, r) -> (String.length r < String.length s)%nat.
Proof.
  unfold scan_number.
  destruct (scan_sign false s) as [neg s1] eqn:Es.
  apply scan_sign_length in Es.
  destruct (Text.span Text.is_digit s1) as [ip r1] eqn:Ei.
  apply span_length in Ei.
  destruct ip as [|c0 ip']; [discriminate|].
  set (ok := match ip' with EmptyString => true | _ => _ end).
  destruct ok; [|discriminate].
  cbn [String.length] in Ei.
  assert (Hr1 : (String.length r1 < String.length s)%nat) by lia.
  destruct (strip_prefix "." r1) as [rf|] eqn:Ef.
  - apply strip_prefix_length in Ef. cbn in Ef.
    destruct (Text.span Text.is_digit rf) as [fp r2] eqn:E2.
    apply span_length in E2.
    destruct fp as [|f0 fp]; [discriminate|].
    destruct r2 as [|c r2'].
    { intros [= <- <-]. cbn in *. lia. }
    destruct (_ || _).
    + destruct (scan_sign true r2') as [eneg r3] eqn:E3.
      apply scan_sign_length in E3.
      destruct (Text.span Text.is_digit r3) as [ds r4] eqn:E4.
      apply span_length in E4.
      destruct ds; [discriminate|].
      destruct (Text.radix_val _ _ _); [|discriminate].
      intros [= <- <-]. cbn [String.length] in *. lia.
    + intros [= <- <-]. cbn [String.length] in *. lia.
  - destruct r1 as [|c r1'].
    { intros [= <- <-]. cbn in *. lia. }
    destruct (_ || _).
    + destruct (scan_sign true r1') as [eneg r3] eqn:E3.
      apply scan_sign_length in E3.
      destruct (Text.span Text.is_digit r3) as [ds r4] eqn:E4.
      apply span_length in E4.
      destruct ds; [discriminate|].
      destruct (Text.radix_val _ _ _); [|discriminate].
      intros [= <- <-]. cbn [String.length] in *. lia.
    + intros [= <- <-]. cbn [String.length] in *. lia.
Qed.

(** *** Reading back what [JSON.stringify] wrote *)

Lemma append_cons x (a b : string) : String x a ^^ b = String x (a ^^ b).
Proof. reflexivity. Qed.

Lemma append_nil_l (b : string) : EmptyString ^^ b = b.
Proof. reflexivity. Qed.

Lemma append_assoc (a b c : string) : (a ^^ b) ^^ c = a ^^ b ^^ c.
Proof.
  induction a as [|x a IH]; [reflexivity|].
  rewrite !append_cons, IH. reflexivity.
Qed.

Lemma append_nil_r (a : string) : a ^^ EmptyString = a.
Proof.
  induction a as [|x a IH]; [reflexivity|].
  rewrite append_cons, IH. reflexivity.
Qed.

Lemma code_eq c n : N.eqb (Text.code c) n = true -> c = ascii_of_N n.
Proof.
  intros H. apply N.eqb_eq in H. rewrite <- H. symmetry.
  apply ascii_N_embedding.
Qed.

Lemma control_table :
  forallb (fun n =>
             match hex4 "0" "0" (Text.hex_digit (n / 16)) (Text.hex_digit (n mod 16)) with
             | Some m => N.eqb m n && negb (is_high m)
                         && String.eqb (Text.utf8 m) (one n)
             | None => false
             end)
          (map N.of_nat (seq 0 32)) = true.
Proof. vm_compute. reflexivity. Qed.

(** The [\u00XX] escape of a control character reads back as it. *)
Lemma control_escape n :
  (n < 32)%N ->
  hex4 "0" "0" (Text.hex_digit (n / 16)) (Text.hex_digit (n mod 16)) = Some n
  /\ is_high n = false /\ Text.utf8 n = one n.
Proof.
  intros H. pose proof control_table as T. rewrite forallb_forall in T.
  specialize (T n).
  destruct (hex4 _ _ _ _) as [m|].
  - assert (In n (map N.of_nat (seq 0 32))) as I.
    { apply in_map_iff. exists (N.to_nat n). split; [apply N2Nat.id|].
      apply in_seq. lia. }
    apply T in I. apply andb_true_iff in I as [I U].
    apply andb_true_iff in I as [E Hh].
    apply N.eqb_eq in E. subst m. apply String.eqb_eq in U.
    apply negb_true_iff in Hh. auto.
  - assert (In n (map N.of_nat (seq 0 32))) as I.
    { apply in_map_iff. exists (N.to_nat n). split; [apply N2Nat.id|].
      apply in_seq. lia. }
    apply T in I. discriminate I.
Qed.

Lemma string_body_simple e x r :
  simple_escape e = Some x ->
  string_body (String "\" (String e r)) = prepend (one x) (string_body r).
Proof.
  intros H. cbn [string_body].
  change (N.eqb (Text.code "\") 34) with false.
  change (N.eqb (Text.code "\") 92) with true.
  cbv beta iota zeta. rewrite H. reflexivity.
Qed.

Lemma string_body_control n r :
  (n < 32)%N ->
  string_body
    (String "\" (String "u" (String "0" (String "0"
       (String (Text.hex_digit (n / 16))
          (String (Text.hex_digit (n mod 16)) r))))))
  = prepend (one n) (string_body r).
Proof.
  intros H. destruct (control_escape n H) as (Hh & Hi & Hu).
  cbn [string_body].
  change (N.eqb (Text.code "\") 34) with false.
  change (N.eqb (Text.code "\") 92) with true.
  change (simple_escape "u") with (@None N).
  change (negb (Ascii.eqb "u" "u")) with false.
  cbv beta iota zeta. rewrite Hh, Hi. cbn [negb]. rewrite Hu. reflexivity.
Qed.

Ltac push_append :=
  repeat first [rewrite append_cons | rewrite append_nil_l | rewrite append_assoc].

(** A plain string that was quoted reads back as itself. *)
Lemma string_body_escape s : forall rest,
  plain s = true ->
  string_body (escape s ^^ dquote ^^ rest) = Some (s, rest).
Proof.
  unfold plain.
  induction s as [|c s IH]; intros rest Hp; [reflexivity|].
  cbn [Text.contains] in Hp. apply negb_true_iff, orb_false_iff in Hp as [Hc Hs].
  assert (Hs' : negb (Text.contains "237" s) = true) by (rewrite Hs; reflexivity).
  specialize (IH rest Hs').
  assert (Hn : N.eqb (Text.code c) 237 = false).
  { apply N.eqb_neq. intros E. apply Ascii.eqb_neq in Hc. apply Hc.
    apply code_inj. exact E. }
  cbn [escape].
  destruct (N.eqb (Text.code c) 34) eqn:E34.
  { apply code_eq in E34. subst c. push_append.
    rewrite (string_body_simple _ 34%N) by reflexivity.
    rewrite IH. reflexivity. }
  destruct (N.eqb (Text.code c) 92) eqn:E92.
  { apply code_eq in E92. subst c. push_append.
    rewrite (string_body_simple _ 92%N) by reflexivity.
    rewrite IH. reflexivity. }
  destruct (N.eqb (Text.code c) 8) eqn:E8.
  { apply code_eq in E8. subst c. push_append.
    rewrite (string_body_simple _ 8%N) by reflexivity.
    rewrite IH. reflexivity. }
  destruct (N.eqb (Text.code c) 12) eqn:E12.
  { apply code_eq in E12. subst c. push_append.
    rewrite (string_body_simple _ 12%N) by reflexivity.
    rewrite IH. reflexivity. }
  destruct (N.eqb (Text.code c) 10) eqn:E10.
  { apply code_eq in E10. subst c. push_append.
    rewrite (string_body_simple _ 10%N) by reflexivity.
    rewrite IH. reflexivity. }
  destruct (N.eqb (Text.code c) 13) eqn:E13.
  { apply code_eq in E13. subst c. push_append.
    rewrite (string_body_simple _ 13%N) by reflexivity.
    rewrite IH. reflexivity. }
  destruct (N.eqb (Text.code c) 9) eqn:E9.
  { apply code_eq in E9. subst c. push_append.
    rewrite (string_body_simple _ 9%N) by reflexivity.
    rewrite IH. reflexivity. }
  destruct (N.ltb (Text.code c) 32) eqn:E32.
  - apply N.ltb_lt in E32. unfold hex2. push_append.
    rewrite (string_body_control _ _ E32), IH.
    unfold one. cbn [prepend]. push_append.
    unfold Text.code. rewrite ascii_N_embedding. reflexivity.
  - assert (E : (match s with
                 | String c1 (String c2 r2) =>
                     if N.eqb (Text.code c) 237 && N.leb 160 (Text.code c1)
                     then "\ud" ^^ String (Text.hex_digit (8 + (Text.code c1 - 160) / 4))
                            (hex2 (((Text.code c1 mod 4) * 64
                                    + (Text.code c2 - 128)) mod 256))
                            ^^ escape r2
                     else String c (escape s)
                 | _ => String c (escape s)
                 end) = String c (escape s)).
    { destruct s as [|c1 [|c2 r2]]; try reflexivity.
      rewrite Hn. reflexivity. }
    rewrite E, append_cons.
    cbn [string_body]. rewrite E34, E92, E32, IH. reflexivity.
Qed.

(** *** Decimal digits *)

Lemma span_digits d : forall rest,
  ends_number rest = true ->
  Text.span Text.is_digit (NilEmpty.string_of_uint d ^^ rest)
  = (NilEmpty.string_of_uint d, rest).
Proof.
  induction d as [|d IH|d IH|d IH|d IH|d IH|d IH|d IH|d IH|d IH|d IH];
    intros rest Hr; cbn [NilEmpty.string_of_uint];
    try (rewrite append_cons; cbn [Text.span];
         match goal with
         | |- context [Text.is_digit ?c] => change (Text.is_digit c) with true
         end; cbv iota; rewrite (IH rest Hr); reflexivity).
  rewrite append_nil_l. destruct rest as [|c r]; [reflexivity|].
  cbn [Text.span]. cbn [ends_number] in Hr.
  destruct (Text.is_digit c); [discriminate Hr|reflexivity].
Qed.

Lemma radix_val_acc d : forall acc,
  Text.radix_val 10 (Z.pos acc) (NilEmpty.string_of_uint d)
  = Some (Z.pos (Pos.of_uint_acc d acc)).
Proof.
  induction d as [|d IH|d IH|d IH|d IH|d IH|d IH|d IH|d IH|d IH|d IH];
    intros acc; cbn [NilEmpty.string_of_uint Text.radix_val Pos.of_uint_acc];
    [reflexivity|..];
    match goal with
    | |- context [Text.digit_val ?c] =>
        let v := eval vm_compute in (Text.digit_val c) in
        change (Text.digit_val c) with v
    end; cbv iota;
    match goal with
    | |- context [Z.ltb ?k 10] => change (Z.ltb k 10) with true
    end; cbv iota; rewrite <- IH; f_equal; lia.
Qed.

Lemma radix_val_uint d :
  Text.radix_val 10 0 (NilEmpty.string_of_uint d) = Some (Z.of_N (N.of_uint d)).
Proof.
  induction d as [|d IH|d IH|d IH|d IH|d IH|d IH|d IH|d IH|d IH|d IH];
    cbn [NilEmpty.string_of_uint Text.radix_val];
    [reflexivity|..];
    match goal with
    | |- context [Text.digit_val ?c] =>
        let v := eval vm_compute in (Text.digit_val c) in
        change (Text.digit_val c) with v
    end; cbv iota;
    match goal with
    | |- context [Z.ltb ?k 10] => change (Z.ltb k 10) with true
    end; cbv iota;
    [exact IH|..]; apply radix_val_acc.
Qed.

Lemma digits_eq n : Number.digits n = NilEmpty.string_of_uint (N.to_uint n).
Proof.
  unfold Number.digits, NilZero.string_of_uint.
  destruct n as [|p]; [reflexivity|].
  pose proof (Unsigned.to_uint_nonnil p) as H. cbn [N.to_uint].
  destruct (Pos.to_uint p); [congruence|reflexivity..].
Qed.

(** The digits of [n] denote [n]. *)
Lemma radix_val_digits n :
  Text.radix_val 10 0 (Number.digits n) = Some (Z.of_N n).
Proof.
  rewrite digits_eq, radix_val_uint, DecimalN.Unsigned.of_to. reflexivity.
Qed.

Lemma span_is_digit_digits n rest :
  ends_number rest = true ->
  Text.span Text.is_digit (Number.digits n ^^ rest) = (Number.digits n, rest).
Proof. rewrite digits_eq. apply span_digits. Qed.

Lemma to_uint_head p : nonzero_head (Pos.to_uint p).
Proof.
  pose proof (DecimalPos.Unsigned.to_of (Pos.to_uint p)) as E.
  rewrite DecimalPos.Unsigned.of_to in E. cbn [N.to_uint] in E.
  pose proof (DecimalPos.Unsigned.to_uint_nonzero p) as Hz.
  pose proof (DecimalPos.Unsigned.to_uint_nonnil p) as Hn.
  destruct (Pos.to_uint p) as [|d|d|d|d|d|d|d|d|d|d]; try exact I;
    [congruence|].
  unfold unorm in E. cbn [nzhead] in E.
  pose proof (nzhead_nonzero d) as NZ.
  destruct (nzhead d) as [|d'|d'|d'|d'|d'|d'|d'|d'|d'|d'] eqn:H;
    try discriminate E.
  - exfalso. apply Hz. congruence.
  - exfalso. exact (NZ d' eq_refl).
Qed.

Lemma nonzero_head_string d :
  nonzero_head d ->
  exists c r,
    NilEmpty.string_of_uint d = String c r /\
    Text.is_digit c = true /\ Ascii.eqb c "0" = false /\ Ascii.eqb c "-" = false /\
    r = NilEmpty.string_of_uint (Unsigned.tl d).
Proof.
  destruct d; cbn [nonzero_head]; intros H; try contradiction;
    eexists; eexists; cbn [NilEmpty.string_of_uint Unsigned.tl];
    (split; [reflexivity|]); repeat split; reflexivity.
Qed.

Lemma string_of_uint_length d :
  String.length (NilEmpty.string_of_uint d) = N.to_nat (Unsigned.usize d).
Proof.
  induction d; cbn [NilEmpty.string_of_uint Unsigned.usize String.length];
    rewrite ?N2Nat.inj_succ, ?IHd; reflexivity.
Qed.

Lemma nonzero_head_value d :
  nonzero_head d -> (10 ^ Unsigned.usize (Unsigned.tl d) <= N.of_uint d)%N.
Proof.
  destruct d; cbn [nonzero_head]; intros H; try contradiction;
    cbn [N.of_uint Pos.of_uint Unsigned.tl];
    rewrite DecimalPos.Unsigned.of_uint_acc_rev;
    match goal with
    | |- (?x <= ?a + N.pos ?k * ?x)%N =>
        assert (1 * x <= N.pos k * x)%N by (apply N.mul_le_mono_r; lia);
        lia
    end.
Qed.

(** The first character of the digits of a number: a digit, and not a zero
    unless it is the only one. *)
Lemma digits_head n :
  exists c r,
    Number.digits n = String c r /\
    Text.is_digit c = true /\ Ascii.eqb c "-" = false /\
    (r = EmptyString \/ Ascii.eqb c "0" = false).
Proof.
  rewrite digits_eq. destruct n as [|p].
  - exists "0"%char, EmptyString. repeat split; auto.
  - destruct (nonzero_head_string _ (to_uint_head p))
      as (c & r & E & Hd & Hz & Hm & _).
    exists c, r. cbn [N.to_uint]. auto.
Qed.

(** A number below [10^21] has at most twenty-one digits. *)
Lemma digits_length n :
  (n < 10 ^ 21)%N -> (String.length (Number.digits n) <= 21)%nat.
Proof.
  intros H. rewrite digits_eq. destruct n as [|p]; [cbn; lia|].
  cbn [N.to_uint].
  pose proof (to_uint_head p) as Hd.
  destruct (nonzero_head_string _ Hd) as (c & r & E & _ & _ & _ & Er).
  pose proof (nonzero_head_value _ Hd) as V.
  rewrite DecimalPos.Unsigned.of_to in V.
  rewrite E, Er. cbn [String.length]. rewrite string_of_uint_length.
  assert (L : (Unsigned.usize (Unsigned.tl (Pos.to_uint p)) < 21)%N).
  { apply N.lt_nge. intros G.
    apply (N.pow_le_mono_r 10) in G; [|lia]. lia. }
  lia.
Qed.

(** *** Printing and scanning integers *)

Lemma trailing_zeros_le s : (Number.trailing_zeros s <= String.length s)%nat.
Proof.
  induction s as [|c s IH]; [reflexivity|].
  cbn [Number.trailing_zeros String.length].
  destruct (_ && _)%bool; lia.
Qed.

Lemma all_zeros s :
  Number.trailing_zeros s = String.length s -> s = Number.zeros (String.length s).
Proof.
  induction s as [|c s IH]; [reflexivity|].
  cbn [Number.trailing_zeros String.length Number.zeros].
  pose proof (trailing_zeros_le s) as L.
  destruct (Ascii.eqb c "0") eqn:Ec; cbn [andb].
  - destruct (Nat.eqb_spec (Number.trailing_zeros s) (String.length s)) as [E|E];
      [|lia].
    intros _. apply Ascii.eqb_eq in Ec. subst c. rewrite <- (IH E). reflexivity.
  - lia.
Qed.

Lemma substring_prefix_cons c s m :
  substring 0 (S m) (String c s) = String c (substring 0 m s).
Proof. reflexivity. Qed.

Lemma substring_nothing s : substring 0 0 s = EmptyString.
Proof. destruct s; reflexivity. Qed.

Lemma substring_prefix_length s : forall j,
  (j <= String.length s)%nat -> String.length (substring 0 j s) = j.
Proof.
  induction s as [|c s IH]; intros [|j] H; cbn [String.length] in *;
    try reflexivity; try lia.
  rewrite substring_prefix_cons. cbn [String.length]. rewrite IH; lia.
Qed.

(** A string is what is before its trailing zeros, and these. *)
Lemma trailing_zeros_split s :
  substring 0 (String.length s - Number.trailing_zeros s) s
    ^^ Number.zeros (Number.trailing_zeros s) = s.
Proof.
  induction s as [|c s IH]; [reflexivity|].
  pose proof (trailing_zeros_le s) as L.
  cbn [Number.trailing_zeros String.length].
  destruct (Ascii.eqb c "0" && Nat.eqb (Number.trailing_zeros s) (String.length s))%bool
    eqn:E.
  - apply andb_true_iff in E as [Ec En].
    apply Ascii.eqb_eq in Ec. apply Nat.eqb_eq in En. subst c.
    rewrite En, Nat.sub_diag, substring_nothing, append_nil_l.
    cbn [Number.zeros]. rewrite <- (all_zeros s En). reflexivity.
  - replace (S (String.length s) - Number.trailing_zeros s)%nat
      with (S (String.length s - Number.trailing_zeros s)) by lia.
    rewrite substring_prefix_cons, append_cons, IH. reflexivity.
Qed.

(** A natural number below [10^21] is printed as its digits. *)
Lemma to_string_natural n :
  (n < 10 ^ 21)%N ->
  Number.to_string (Number.of_Z (Z.of_N n)) = Number.digits n.
Proof.
  intros H. destruct n as [|p]; [reflexivity|].
  pose proof (digits_length _ H) as L.
  unfold Number.to_string, Number.of_Z. cbn [Number.dnum Number.dscale Z.of_N].
  unfold Number.to_string_pos.
  set (D := Number.digits (N.pos p)) in *.
  pose proof (trailing_zeros_le D) as T.
  rewrite substring_prefix_length by lia.
  replace (Z.of_nat (String.length D - Number.trailing_zeros D)
           <=? Z.of_nat (String.length D) - Z.of_nat 0) with true
    by (symmetry; apply Z.leb_le; lia).
  replace (Z.of_nat (String.length D) - Z.of_nat 0 <=? 21) with true
    by (symmetry; apply Z.leb_le; lia).
  cbn [andb].
  replace (Z.to_nat (Z.of_nat (String.length D) - Z.of_nat 0)
           - (String.length D - Number.trailing_zeros D))%nat
    with (Number.trailing_zeros D) by lia.
  apply trailing_zeros_split.
Qed.

Lemma strip_prefix_char_no a c r :
  Ascii.eqb c a = false ->
  strip_prefix (String a EmptyString) (String c r) = None.
Proof.
  intros H. cbn [strip_prefix]. rewrite Ascii.eqb_sym, H. reflexivity.
Qed.

(** The digits of a number, followed by something that ends a number, scan
    as that number. *)
Lemma scan_number_digits n rest :
  ends_number rest = true ->
  scan_number (Number.digits n ^^ rest) = Some (Number.of_Z (Z.of_N n), rest).
Proof.
  intros Hr.
  destruct (digits_head n) as (c & r & E & Hd & Hm & Hz).
  unfold scan_number, scan_sign.
  rewrite E at 1. rewrite append_cons, (strip_prefix_char_no _ _ _ Hm).
  rewrite (span_is_digit_digits n rest Hr).
  assert (Ok : match Number.digits n with
               | EmptyString => false
               | String c0 EmptyString => true
               | String c0 (String _ _) => negb (Ascii.eqb c0 "0")
               end = true).
  { rewrite E. destruct r; [reflexivity|].
    destruct Hz as [Hz|Hz]; [discriminate Hz|]. rewrite Hz. reflexivity. }
  rewrite Ok.
  assert (Dot : strip_prefix "." rest = None).
  { destruct rest as [|c' r']; [reflexivity|]. cbn [ends_number] in Hr.
    apply negb_true_iff in Hr. repeat apply orb_false_iff in Hr as [Hr ?].
    apply strip_prefix_char_no. assumption. }
  rewrite Dot, append_nil_r, radix_val_digits.
  cbn [default from_option id String.length].
  assert (V : Number.of_sci (Z.of_N n) (- Z.of_nat 0) = Number.of_Z (Z.of_N n)).
  { unfold Number.of_sci, Number.of_Z. cbn [Z.of_nat Z.opp Z.leb Z.compare].
    rewrite Z.pow_0_r, Z.mul_1_r. reflexivity. }
  destruct rest as [|c' r']; [rewrite V; reflexivity|].
  cbn [ends_number] in Hr.
  apply negb_true_iff in Hr. repeat apply orb_false_iff in Hr as [Hr ?].
  replace (Ascii.eqb c' "e" || Ascii.eqb c' "E") with false
    by (symmetry; apply orb_false_iff; auto).
  rewrite V. reflexivity.
Qed.

(** *** Reading back flat objects *)

Lemma skip_ws_blank pad x :
  all_chars is_ws pad = true -> skip_ws (pad ^^ x) = skip_ws x.
Proof.
  induction pad as [|c pad IH]; [reflexivity|].
  cbn [all_chars]. intros [Hc Hp]%andb_true_iff.
  rewrite append_cons. cbn [skip_ws]. rewrite Hc. apply IH, Hp.
Qed.

Lemma skip_ws_stop c r : is_ws c = false -> skip_ws (String c r) = String c r.
Proof. intros H. cbn [skip_ws]. rewrite H. reflexivity. Qed.

Lemma is_ws_ends c r : is_ws c = true -> ends_number (String c r) = true.
Proof.
  unfold is_ws. intros H.
  repeat apply orb_true_iff in H as [H|H];
    apply code_eq in H; subst c; reflexivity.
Qed.

Lemma ends_number_blank pad x :
  all_chars is_ws pad = true -> ends_number x = true ->
  ends_number (pad ^^ x) = true.
Proof.
  destruct pad as [|c pad]; [intros _ H; exact H|].
  cbn [all_chars]. intros [Hc _]%andb_true_iff _.
  rewrite append_cons. apply is_ws_ends, Hc.
Qed.

Lemma string_body_quoted s rest :
  plain s = true ->
  string_body (escape s ^^ String "034" rest) = Some (s, rest).
Proof. exact (string_body_escape s rest). Qed.

(** A digit is none of the characters a value of another kind starts
    with. *)
Lemma digit_differs c a :
  Text.is_digit c = true -> Text.is_digit a = false -> Ascii.eqb a c = false.
Proof.
  intros Hc Ha. apply Ascii.eqb_neq. intros ->. congruence.
Qed.

Lemma digit_not_ws c : Text.is_digit c = true -> is_ws c = false.
Proof.
  intros H. destruct (is_ws c) eqn:W; [|reflexivity].
  unfold is_ws in W.
  repeat apply orb_true_iff in W as [W|W];
    apply code_eq in W; subst c; discriminate H.
Qed.

Lemma strip_prefix_char c r :
  strip_prefix (String c EmptyString) (String c r) = Some r.
Proof. cbn [strip_prefix]. rewrite Ascii.eqb_refl. reflexivity. Qed.

Lemma strip_prefix_other a p c r :
  Ascii.eqb a c = false -> strip_prefix (String a p) (String c r) = None.
Proof. intros H. cbn [strip_prefix]. rewrite H. reflexivity. Qed.

(** A simple value, after white space and before what ends a number, is
    read as itself. *)
Lemma value_at_simple v f pad rest :
  simple v = true ->
  all_chars is_ws pad = true ->
  ends_number rest = true ->
  value_at (S f) (pad ^^ printed v ^^ rest) = Some (v, rest).
Proof.
  intros Hv Hpad Hrest.
  destruct v as [| |b|n|s|l|l]; try discriminate Hv.
  - (* a number *)
    destruct n as [| | |[m [|sc]]]; try discriminate Hv.
    cbn [simple] in Hv. apply andb_true_iff in Hv as [H0 H1].
    apply Z.leb_le in H0. apply Z.ltb_lt in H1.
    assert (Hn : (Z.to_N m < 10 ^ 21)%N) by lia.
    assert (Em : m = Z.of_N (Z.to_N m)) by lia.
    assert (P : printed (Num (Fin (Dec m 0))) = Number.digits (Z.to_N m)).
    { cbn [printed]. change (Fin (Dec m 0)) with (Number.of_Z m).
      rewrite Em at 1. apply to_string_natural, Hn. }
    rewrite P.
    destruct (digits_head (Z.to_N m)) as (c & r & E & Hd & _ & _).
    pose proof (scan_number_digits (Z.to_N m) rest Hrest) as Sc.
    rewrite E in *. rewrite append_cons in *.
    assert (Sk : skip_ws (pad ^^ String c (r ^^ rest)) = String c (r ^^ rest)).
    { rewrite (skip_ws_blank _ _ Hpad). apply skip_ws_stop, digit_not_ws, Hd. }
    cbn [value_at]. rewrite Sk.
    rewrite !strip_prefix_other by (apply (digit_differs _ _ Hd); reflexivity).
    unfold dquote.
    rewrite !strip_prefix_other by (apply (digit_differs _ _ Hd); reflexivity).
    rewrite Sc, <- Em. reflexivity.
  - (* a string *)
    cbn [simple] in Hv. cbn [printed]. unfold quote. push_append.
    assert (Sk : skip_ws (pad ^^ String "034" (escape s ^^ String "034" rest))
                 = String "034" (escape s ^^ String "034" rest)).
    { rewrite (skip_ws_blank _ _ Hpad). apply skip_ws_stop. reflexivity. }
    cbn [value_at]. rewrite Sk.
    rewrite !strip_prefix_other by reflexivity.
    unfold dquote. rewrite strip_prefix_char, (string_body_quoted _ _ Hv).
    reflexivity.
Qed.

Lemma replace_fresh k v acc :
  existsb (String.eqb k) (map fst acc) = false -> replace k v acc = None.
Proof.
  induction acc as [|[k' v'] acc IH]; [reflexivity|].
  cbn [map fst existsb replace]. intros [Hk Ha]%orb_false_iff.
  rewrite String.eqb_sym, Hk, (IH Ha). reflexivity.
Qed.

Lemma define_fresh k v acc :
  existsb (String.eqb k) (map fst acc) = false ->
  array_index k = None ->
  define k v acc = (acc ++ [(k, v)])%list.
Proof.
  intros Hk Hi. unfold define. rewrite (replace_fresh _ _ _ Hk), Hi. reflexivity.
Qed.

Lemma join_more sep x y l :
  join sep (x :: y :: l) = x ^^ sep ^^ join sep (y :: l).
Proof. reflexivity. Qed.

(** The properties of a flat object, written one after the other, are read
    back in the same order. *)
Lemma members_flat cpad pad pad' :
  all_chars is_ws cpad = true ->
  all_chars is_ws pad = true ->
  all_chars is_ws pad' = true ->
  forall props acc f rest,
    props <> [] ->
    flat (map fst acc) props = true ->
    members (length props + S f)
      (pad ^^ join (String "," pad) (map (printed_property cpad) props)
           ^^ pad' ^^ String "}" rest) acc
    = Some (Obj (acc ++ props), rest).
Proof.
  intros Hc Hp Hp'.
  induction props as [|[k v] tl IH]; intros acc f rest Hne Hflat;
    [congruence|].
  cbn [flat] in Hflat.
  apply andb_true_iff in Hflat as [Hflat Htl].
  apply andb_true_iff in Hflat as [Hflat Hidx].
  apply andb_true_iff in Hflat as [Hflat Hnew].
  apply andb_true_iff in Hflat as [Hk Hv].
  apply negb_true_iff in Hnew.
  assert (Hidx' : array_index k = None) by (destruct (array_index k); congruence).
  assert (Hdef : define k v acc = (acc ++ [(k, v)])%list)
    by (apply define_fresh; assumption).
  assert (Hseen : map fst (acc ++ [(k, v)]) = (map fst acc ++ [k])%list)
    by (rewrite map_app; reflexivity).
  cbn [length Nat.add members map].
  rewrite (skip_ws_blank _ _ Hp).
  destruct tl as [|kv' tl'].
  - (* the last property *)
    cbn [map join length Nat.add]. unfold printed_property at 1. cbn [fst snd].
    unfold quote. push_append.
    rewrite skip_ws_stop by reflexivity.
    unfold dquote. rewrite strip_prefix_char, (string_body_quoted _ _ Hk).
    rewrite skip_ws_stop by reflexivity.
    rewrite strip_prefix_char.
    rewrite (value_at_simple v _ cpad _ Hv Hc)
      by (apply ends_number_blank; [assumption|reflexivity]).
    rewrite (skip_ws_blank _ _ Hp').
    rewrite skip_ws_stop by reflexivity.
    rewrite strip_prefix_other by reflexivity.
    rewrite strip_prefix_char, Hdef. reflexivity.
  - (* a property followed by others *)
    cbn [map length Nat.add]. rewrite join_more.
    change (printed_property cpad kv' :: map (printed_property cpad) tl')
      with (map (printed_property cpad) (kv' :: tl')).
    unfold printed_property at 1. cbn [fst snd].
    unfold quote. push_append.
    rewrite skip_ws_stop by reflexivity.
    unfold dquote. rewrite strip_prefix_char, (string_body_quoted _ _ Hk).
    rewrite skip_ws_stop by reflexivity.
    rewrite strip_prefix_char.
    rewrite (value_at_simple v _ cpad _ Hv Hc) by reflexivity.
    rewrite skip_ws_stop by reflexivity.
    rewrite strip_prefix_char, Hdef.
    specialize (IH (acc ++ [(k, v)])%list f rest).
    rewrite Hseen in IH. cbn [length Nat.add] in IH.
    rewrite IH; [|discriminate|exact Htl].
    rewrite <- app_assoc. reflexivity.
Qed.

(** Facts on the lengths of what the scanners leave. *)
Ltac lengths :=
  repeat match goal with
  | H : strip_prefix _ _ = Some _ |- _ =>
      apply strip_prefix_length in H; cbn [String.length] in H
  | H : string_body _ = Some _ |- _ =>
      apply (string_body_length _ _ _ _ (Nat.le_refl _)) in H
  | |- context [skip_ws ?s] =>
      lazymatch goal with
      | _ : (String.length (skip_ws s) <= String.length s)%nat |- _ => fail
      | _ => pose proof (skip_ws_length s)
      end
  | H : context [skip_ws ?s] |- _ =>
      lazymatch goal with
      | _ : (String.length (skip_ws s) <= String.length s)%nat |- _ => fail
      | _ => pose proof (skip_ws_length s)
      end
  end.

(** Every value is at least one character. *)
Lemma rest_shorter f :
  (forall s v r, value_at f s = Some (v, r) ->
                 (String.length r < String.length s)%nat) /\
  (forall s acc v r, elements f s acc = Some (v, r) ->
                     (String.length r < String.length s)%nat) /\
  (forall s acc v r, members f s acc = Some (v, r) ->
                     (String.length r < String.length s)%nat).
Proof.
  induction f as [|f (IHv & IHe & IHm)];
    [repeat split; intros; discriminate|].
  split; [|split].
  - intros s v r H. cbn [value_at] in H.
    destruct (strip_prefix "{" (skip_ws s)) as [r1|] eqn:E1.
    { destruct (strip_prefix "}" (skip_ws r1)) as [r2|] eqn:E2.
      - injection H as <- <-. lengths. lia.
      - apply IHm in H. lengths. lia. }
    destruct (strip_prefix "[" (skip_ws s)) as [r1|] eqn:E2.
    { destruct (strip_prefix "]" (skip_ws r1)) as [r2|] eqn:E3.
      - injection H as <- <-. lengths. lia.
      - apply IHe in H. lengths. lia. }
    destruct (strip_prefix dquote (skip_ws s)) as [r1|] eqn:E3.
    { destruct (string_body r1) as [[t r2]|] eqn:E4; [|discriminate].
      injection H as <- <-. unfold dquote in E3. lengths. lia. }
    destruct (strip_prefix "true" (skip_ws s)) as [r1|] eqn:E4.
    { injection H as <- <-. lengths. lia. }
    destruct (strip_prefix "false" (skip_ws s)) as [r1|] eqn:E5.
    { injection H as <- <-. lengths. lia. }
    destruct (strip_prefix "null" (skip_ws s)) as [r1|] eqn:E6.
    { injection H as <- <-. lengths. lia. }
    destruct (scan_number (skip_ws s)) as [[n r1]|] eqn:E7; [|discriminate].
    injection H as <- <-. apply scan_number_length in E7. lengths. lia.
  - intros s acc v r H. cbn [elements] in H.
    destruct (value_at f s) as [[v1 r1]|] eqn:E1; [|discriminate].
    apply IHv in E1.
    destruct (strip_prefix "," (skip_ws r1)) as [r2|] eqn:E2.
    { apply IHe in H. lengths. lia. }
    destruct (strip_prefix "]" (skip_ws r1)) as [r2|] eqn:E3; [|discriminate].
    injection H as <- <-. lengths. lia.
  - intros s acc v r H. cbn [members] in H.
    destruct (strip_prefix dquote (skip_ws s)) as [r1|] eqn:E1; [|discriminate].
    destruct (string_body r1) as [[k r2]|] eqn:E2; [|discriminate].
    destruct (strip_prefix ":" (skip_ws r2)) as [r3|] eqn:E3; [|discriminate].
    destruct (value_at f r3) as [[v1 r4]|] eqn:E4; [|discriminate].
    apply IHv in E4. unfold dquote in E1.
    destruct (strip_prefix "," (skip_ws r4)) as [r5|] eqn:E5.
    { apply IHm in H. lengths. lia. }
    destruct (strip_prefix "}" (skip_ws r4)) as [r5|] eqn:E6; [|discriminate].
    injection H as <- <-. lengths. lia.
Qed.

(** Two amounts of fuel that are both enough for a text give the same
    result. *)
Lemma enough_fuel_agrees f :
  (forall g s,
     (2 * String.length s + 2 <= f)%nat -> (2 * String.length s + 2 <= g)%nat ->
     value_at f s = value_at g s) /\
  (forall g s acc,
     (2 * String.length s + 3 <= f)%nat -> (2 * String.length s + 3 <= g)%nat ->
     elements f s acc = elements g s acc) /\
  (forall g s acc,
     (2 * String.length s + 3 <= f)%nat -> (2 * String.length s + 3 <= g)%nat ->
     members f s acc = members g s acc).
Proof.
  induction f as [|f (IHv & IHe & IHm)];
    [repeat split; intros; lia|].
  split; [|split].
  - intros [|g] s Hf Hg; [lia|]. cbn [value_at].
    destruct (strip_prefix "{" (skip_ws s)) as [r1|] eqn:E1.
    { destruct (strip_prefix "}" (skip_ws r1)) as [r2|] eqn:E2; [reflexivity|].
      apply IHm; lengths; lia. }
    destruct (strip_prefix "[" (skip_ws s)) as [r1|] eqn:E2; [|reflexivity].
    destruct (strip_prefix "]" (skip_ws r1)) as [r2|] eqn:E3; [reflexivity|].
    apply IHe; lengths; lia.
  - intros [|g] s acc Hf Hg; [lia|]. cbn [elements].
    rewrite (IHv g s) by lia.
    destruct (value_at g s) as [[v1 r1]|] eqn:E1; [|reflexivity].
    apply (proj1 (rest_shorter g)) in E1.
    destruct (strip_prefix "," (skip_ws r1)) as [r2|] eqn:E2; [|reflexivity].
    apply IHe; lengths; lia.
  - intros [|g] s acc Hf Hg; [lia|]. cbn [members].
    destruct (strip_prefix dquote (skip_ws s)) as [r1|] eqn:E1; [|reflexivity].
    destruct (string_body r1) as [[k r2]|] eqn:E2; [|reflexivity].
    destruct (strip_prefix ":" (skip_ws r2)) as [r3|] eqn:E3; [|reflexivity].
    unfold dquote in E1. lengths.
    rewrite (IHv g r3) by lia.
    destruct (value_at g r3) as [[v1 r4]|] eqn:E4; [|reflexivity].
    apply (proj1 (rest_shorter g)) in E4.
    destruct (strip_prefix "," (skip_ws r4)) as [r5|] eqn:E5; [|reflexivity].
    apply IHm; lengths; lia.
Qed.

(** More fuel than [parse] gives itself changes nothing: [None] is a syntax
    error, never a want of fuel. *)
Lemma parse_fuel_enough text extra :
  value_at (fuel_for (String.length text) + extra) text
  = value_at (fuel_for (String.length text)) text.
Proof.
  apply enough_fuel_agrees; unfold fuel_for; lia.
Qed.

(** *** [JSON.parse] after [JSON.stringify] *)

Lemma serialize_simple gap indent v :
  simple v = true -> serialize gap indent v = Some (printed v).
Proof.
  destruct v as [| |b|n|s|l|l]; try discriminate; [|reflexivity].
  destruct n as [| | |[m [|sc]]]; try discriminate. reflexivity.
Qed.

Lemma colon_pad_blank gap : all_chars is_ws (colon_pad gap) = true.
Proof. destruct gap; reflexivity. Qed.

Lemma serialize_flat gap indent props : forall seen,
  flat seen props = true ->
  serialize gap indent (Obj props)
  = Some (wrap "{" "}" gap indent (map (printed_property (colon_pad gap)) props)).
Proof.
  intros seen H. cbn [serialize]. do 2 f_equal.
  revert seen H. induction props as [|[k v] props IH]; intros seen H;
    [reflexivity|].
  cbn [flat] in H.
  apply andb_true_iff in H as [H Htl].
  apply andb_true_iff in H as [H _].
  apply andb_true_iff in H as [H _].
  apply andb_true_iff in H as [_ Hv].
  rewrite (serialize_simple _ _ _ Hv), (IH _ Htl).
  cbn [map]. f_equal. unfold printed_property, colon, colon_pad. cbn [fst snd].
  destruct gap; reflexivity.
Qed.

Lemma spaces_blank n : all_chars is_ws (spaces n) = true.
Proof. induction n as [|n IH]; [reflexivity|]. cbn. exact IH. Qed.

(** A flat object that was serialized, with or without indentation, parses
    as itself. *)
Lemma parse_stringify_flat props space :
  props <> [] ->
  flat [] props = true ->
  parse (stringify_object props space) = Some (Obj props).
Proof.
  intros Hne Hflat.
  unfold stringify_object, stringify.
  rewrite (serialize_flat _ _ _ _ Hflat). cbn [default from_option id].
  set (gap := spaces (Nat.min 10 space)).
  assert (Hgap : all_chars is_ws gap = true) by apply spaces_blank.
  set (cp := colon_pad gap).
  assert (Hcp : all_chars is_ws cp = true) by apply colon_pad_blank.
  assert (Shape : exists pad pad',
            all_chars is_ws pad = true /\ all_chars is_ws pad' = true /\
            wrap "{" "}" gap EmptyString (map (printed_property cp) props)
            = String "{" (pad ^^ join (String "," pad)
                                   (map (printed_property cp) props)
                              ^^ pad' ^^ String "}" EmptyString)).
  { destruct props as [|kv tl]; [congruence|].
    unfold wrap. cbn [map]. destruct gap as [|g gap'] eqn:G.
    - exists EmptyString, EmptyString.
      split; [reflexivity|]. split; reflexivity.
    - exists (nl ^^ String g gap'), nl. split; [|split].
      + unfold nl. rewrite append_cons, append_nil_l.
        cbn [all_chars] in Hgap |- *. rewrite Hgap. reflexivity.
      + reflexivity.
      + reflexivity. }
  destruct Shape as (pad & pad' & Hpad & Hpad' & ->).
  set (text := String "{" _).
  unfold parse.
  rewrite <- (parse_fuel_enough text (length props + 2)).
  replace (fuel_for (String.length text) + (length props + 2))%nat
    with (S (length props + S (fuel_for (String.length text)))) by lia.
  unfold text. cbn [value_at].
  rewrite skip_ws_stop by reflexivity.
  rewrite strip_prefix_char.
  assert (Head : exists r,
            skip_ws (pad ^^ join (String "," pad) (map (printed_property cp) props)
                         ^^ pad' ^^ String "}" EmptyString)
            = String "034" r).
  { rewrite (skip_ws_blank _ _ Hpad).
    destruct props as [|[k v] [|kv' tl]]; [congruence|..]; cbn [map].
    - cbn [join]. unfold printed_property at 1, quote. push_append.
      eexists. apply skip_ws_stop. reflexivity.
    - rewrite join_more. unfold printed_property at 1, quote. push_append.
      eexists. apply skip_ws_stop. reflexivity. }
  destruct Head as (r & ->).
  rewrite strip_prefix_other by reflexivity.
  rewrite (members_flat cp pad pad' Hcp Hpad Hpad' props [] _ EmptyString Hne Hflat).
  reflexivity.
Qed.

End JSONFacts.


(** *** Effects: what a computation adds to the trace and does to the disk *)

Section Effects.

Context {A B : Type}.

Lemma emits_ret P (a : A) : emits P (ret a).
Proof. intros w. exists []. simpl. rewrite app_nil_r. auto. Qed.

Lemma emits_throw P e : emits P (@throw A e).
Proof. intros w. exists []. simpl. rewrite app_nil_r. auto. Qed.

Lemma emits_bind P (m : M A) (k : A -> M B) :
  emits P m -> (forall a, emits P (k a)) -> emits P (bind m k).
Proof.
  intros Hm Hk w. unfold bind.
  destruct (Hm w) as (tr & Ht & HP & He).
  destruct (m w) as [[a|e] w1]; simpl in *.
  - destruct (Hk a w1) as (tr' & Ht' & HP' & He').
    exists (tr ++ tr')%list. rewrite Ht', Ht, He', He, app_assoc.
    split; [reflexivity|]. split; [|reflexivity].
    apply Forall_app; auto.
  - exists tr. auto.
Qed.

Lemma emits_try P (m : M A) (h : error -> M A) :
  emits P m -> (forall e, emits P (h e)) -> emits P (try_catch m h).
Proof.
  intros Hm Hh w. unfold try_catch.
  destruct (Hm w) as (tr & Ht & HP & He).
  destruct (m w) as [[a|e] w1]; simpl in *.
  - exists tr. auto.
  - destruct (Hh e w1) as (tr' & Ht' & HP' & He').
    exists (tr ++ tr')%list. rewrite Ht', Ht, He', He, app_assoc.
    split; [reflexivity|]. split; [|reflexivity].
    apply Forall_app; auto.
Qed.

Lemma emits_with_env P (f : Env -> M A) :
  (forall e, emits P (f e)) -> emits P (with_env f).
Proof. intros H w. apply H. Qed.

Lemma emits_effect (P : Event -> Prop) ev (f : World -> outcome A * Disk) :
  P ev -> emits P (Sys.effect ev f).
Proof.
  intros H w. exists [ev]. unfold Sys.effect.
  destruct (f w) as [r d]. simpl. auto.
Qed.

Lemma read_only_ret (a : A) : read_only (ret a).
Proof. intros w. reflexivity. Qed.

Lemma read_only_throw e : read_only (@throw A e).
Proof. intros w. reflexivity. Qed.

Lemma read_only_bind (m : M A) (k : A -> M B) :
  read_only m -> (forall a, read_only (k a)) -> read_only (bind m k).
Proof.
  intros Hm Hk w. unfold bind. specialize (Hm w).
  destruct (m w) as [[a|e] w1]; simpl in *; [|assumption].
  rewrite Hk. assumption.
Qed.

Lemma read_only_try (m : M A) (h : error -> M A) :
  read_only m -> (forall e, read_only (h e)) -> read_only (try_catch m h).
Proof.
  intros Hm Hh w. unfold try_catch. specialize (Hm w).
  destruct (m w) as [[a|e] w1]; simpl in *; [assumption|].
  rewrite Hh. assumption.
Qed.

Lemma read_only_with_env (f : Env -> M A) :
  (forall e, read_only (f e)) -> read_only (with_env f).
Proof. intros H w. apply H. Qed.

Lemma read_only_effect ev (f : World -> outcome A) :
  read_only (Sys.effect ev (fun w => (f w, disk w))).
Proof. intros w. reflexivity. Qed.

End Effects.

Lemma emits_Date_now (P : Event -> Prop) :
  (forall t, P (EvNow t)) -> emits P Sys.Date_now.
Proof. intros H w. exists [EvNow (clock (env w) (Sys.now w))]. simpl. auto. Qed.

Lemma read_only_Date_now : read_only Sys.Date_now.
Proof. intros w. reflexivity. Qed.

Lemma read_only_readFile p : read_only (Sys.readFile p).
Proof.
  intros w. unfold Sys.readFile, Sys.effect.
  destruct (io_error _ _); [reflexivity|].
  destruct (files _ !! p); reflexivity.
Qed.

Lemma read_only_fetch req : read_only (Sys.fetch req).
Proof.
  intros w. unfold Sys.fetch, Sys.effect.
  destruct (network _ _ _); reflexivity.
Qed.

Lemma emits_weaken (P Q : Event -> Prop) {A} (m : M A) :
  (forall ev, P ev -> Q ev) -> emits P m -> emits Q m.
Proof.
  intros HPQ Hm w. destruct (Hm w) as (tr & Ht & HP & He).
  exists tr. repeat split; auto. eapply Forall_impl; eauto.
Qed.

(** Walks through a computation, one statement at a time. *)
Ltac step_emits :=
  first
    [ apply emits_ret
    | apply emits_throw
    | apply emits_Date_now; intros; exact I
    | apply emits_effect; exact I
    | apply emits_with_env; intros
    | apply emits_bind; [|intros]
    | apply emits_try; [|intros]
    | match goal with
      | |- emits _ (if ?b then _ else _) => destruct b
      | |- emits _ (match ?x with _ => _ end) => destruct x
      end ].

Ltac step_read_only :=
  first
    [ apply read_only_ret
    | apply read_only_throw
    | apply read_only_Date_now
    | apply read_only_readFile
    | apply read_only_fetch
    | apply read_only_with_env; intros
    | apply read_only_bind; [|intros]
    | apply read_only_try; [|intros]
    | match goal with
      | |- read_only (if ?b then _ else _) => destruct b
      | |- read_only (match ?x with _ => _ end) => destruct x
      end ].

Lemma emits_prop P v k : emits P (prop v k).
Proof. unfold prop. repeat step_emits. Qed.

Lemma read_only_prop v k : read_only (prop v k).
Proof. unfold prop. repeat step_read_only. Qed.

Lemma emits_times P v n : emits P (times v n).
Proof. unfold times. repeat step_emits. Qed.

Lemma read_only_times v n : read_only (times v n).
Proof. unfold times. repeat step_read_only. Qed.

Lemma emits_greater P v n : emits P (greater v n).
Proof. unfold greater. repeat step_emits. Qed.

Lemma read_only_greater v n : read_only (greater v n).
Proof. unfold greater. repeat step_read_only. Qed.

Lemma emits_JSON_parse P s : emits P (JSON_parse s).
Proof. unfold JSON_parse. repeat step_emits. Qed.

Lemma read_only_JSON_parse s : read_only (JSON_parse s).
Proof. unfold JSON_parse. repeat step_read_only. Qed.

Lemma emits_credentials_of_response data :
  emits store_or_exchange (credentials_of_response data).
Proof.
  unfold credentials_of_response.
  repeat first [apply emits_prop | apply emits_times | step_emits].
Qed.

Lemma read_only_credentials_of_response data :
  read_only (credentials_of_response data).
Proof.
  unfold credentials_of_response.
  repeat first [apply read_only_prop | apply read_only_times | step_read_only].
Qed.

Lemma emits_refreshAccessToken rt :
  emits store_or_exchange (refreshAccessToken rt).
Proof.
  unfold refreshAccessToken, Sys.fetch.
  repeat first [apply emits_JSON_parse | apply emits_credentials_of_response
               | step_emits].
Qed.

(** The token exchanger never touches the disk. *)
Lemma read_only_refreshAccessToken rt : read_only (refreshAccessToken rt).
Proof.
  unfold refreshAccessToken.
  repeat first [apply read_only_JSON_parse
               | apply read_only_credentials_of_response | step_read_only].
Qed.

Lemma read_only_exchangeCodeForTokens code v :
  read_only (exchangeCodeForTokens code v).
Proof.
  unfold exchangeCodeForTokens.
  repeat first [apply read_only_JSON_parse
               | apply read_only_credentials_of_response | step_read_only].
Qed.

Lemma emits_saveCredentials c : emits store_or_exchange (saveCredentials c).
Proof.
  unfold saveCredentials, Sys.mkdir_recursive, Sys.writeFile, Sys.chmod.
  repeat step_emits.
Qed.

Lemma emits_loadCredentials : emits store_or_exchange loadCredentials.
Proof.
  unfold loadCredentials, Sys.readFile.
  repeat first [apply emits_JSON_parse | step_emits].
Qed.

(** Loading reads the disk and changes nothing on it. *)
Lemma read_only_loadCredentials : read_only loadCredentials.
Proof.
  unfold loadCredentials.
  repeat first [apply read_only_JSON_parse | step_read_only].
Qed.

(** The accessor's effects are those of the store and of the exchanger: it
    draws no random bytes, launches nothing, prints and prompts nothing. *)
Lemma emits_getClaudeAccessToken : emits store_or_exchange getClaudeAccessToken.
Proof.
  unfold getClaudeAccessToken.
  repeat first [apply emits_loadCredentials | apply emits_prop
               | apply emits_greater
               | apply emits_refreshAccessToken | apply emits_saveCredentials
               | step_emits].
Qed.

Lemma emits_any {A} (P : Event -> Prop) (m : M A) : emits P m -> emits any_event m.
Proof. apply emits_weaken. intros; exact I. Qed.

Lemma starts_with_bind ev {A B} (m : M A) (k : A -> M B) :
  starts_with ev m -> (forall a, emits any_event (k a)) ->
  starts_with ev (bind m k).
Proof.
  intros Hm Hk w. unfold bind. destruct (Hm w) as (tr & Ht).
  destruct (m w) as [[a|e] w1]; simpl in *.
  - destruct (Hk a w1) as (tr' & Ht' & _).
    exists (tr ++ tr')%list. rewrite Ht', Ht, <- app_assoc. reflexivity.
  - exists tr. assumption.
Qed.

Lemma starts_with_try ev {A} (m : M A) (h : error -> M A) :
  starts_with ev m -> (forall e, emits any_event (h e)) ->
  starts_with ev (try_catch m h).
Proof.
  intros Hm Hh w. unfold try_catch. destruct (Hm w) as (tr & Ht).
  destruct (m w) as [[a|e] w1]; simpl in *.
  - exists tr. assumption.
  - destruct (Hh e w1) as (tr' & Ht' & _).
    exists (tr ++ tr')%list. rewrite Ht', Ht, <- app_assoc. reflexivity.
Qed.

Lemma starts_with_effect ev {A} (f : World -> outcome A * Disk) :
  starts_with ev (Sys.effect ev f).
Proof.
  intros w. exists []. unfold Sys.effect. destruct (f w). reflexivity.
Qed.

(** A refresh begins with the request to the token endpoint. *)
Lemma refreshAccessToken_starts rt :
  starts_with (EvFetch (json_post (refresh_request_body rt)))
    (refreshAccessToken rt).
Proof.
  unfold refreshAccessToken. apply starts_with_bind.
  - apply starts_with_effect.
  - intros r. apply (emits_any store_or_exchange).
    repeat first [apply emits_JSON_parse | apply emits_credentials_of_response
                 | step_emits].
Qed.

(** An exchange by code begins with the request to the token endpoint. *)
Lemma exchangeCodeForTokens_starts code v :
  starts_with (EvFetch (json_post (code_request_body code v)))
    (exchangeCodeForTokens code v).
Proof.
  unfold exchangeCodeForTokens. apply starts_with_bind.
  - apply starts_with_effect.
  - intros r. apply (emits_any store_or_exchange).
    repeat first [apply emits_JSON_parse | apply emits_credentials_of_response
                 | step_emits].
Qed.

(** *** The credential store: load *)

(** What [loadCredentials] yields in [w]. *)
Lemma loadCredentials_run w :
  loadCredentials w =
    (Ok match io_error (env w) (Sys.now w), files (disk w) !! CREDS_PATH (env w) with
        | None, Some f => default Null (JSON.parse (content f))
        | _, _ => Null
        end,
     Sys.log (EvReadFile (CREDS_PATH (env w))) w).
Proof.
  unfold loadCredentials, with_env, try_catch, bind, Sys.readFile, Sys.effect.
  destruct (io_error (env w) (Sys.now w)); [destruct w; reflexivity|].
  destruct (files (disk w) !! CREDS_PATH (env w)) as [f|];
    [|destruct w; reflexivity].
  unfold JSON_parse. destruct (JSON.parse (content f));
    destruct w; reflexivity.
Qed.

(** C2 (as the code has it). Loading never throws and never writes. It
    yields [null] when the file cannot be read or its text is not JSON, and
    otherwise the value the text denotes, as it is: the fields are not
    looked at, so a file with the three fields yields that credential and
    any other JSON text is handed on as parsed. *)
Theorem loadCredentials_yields_parsed_or_null w :
  exists v,
    loadCredentials w = (Ok v, Sys.log (EvReadFile (CREDS_PATH (env w))) w) /\
    v = match io_error (env w) (Sys.now w),
              files (disk w) !! CREDS_PATH (env w) with
        | None, Some f =>
            match JSON.parse (content f) with
            | Some parsed => parsed
            | None => Null
            end
        | _, _ => Null
        end.
Proof.
  eexists. split; [apply loadCredentials_run|].
  destruct (io_error _ _); [reflexivity|].
  destruct (files _ !! _) as [f|]; [|reflexivity].
  destruct (JSON.parse (content f)); reflexivity.
Qed.

(** C2 fails as stated: a credential file holding JSON with only one of the
    three fields is loaded as that partial object, not as absent. *)
Lemma loadCredentials_partial_file_is_not_absent :
  fst (loadCredentials
         (Scenario.world Scenario.offline
            (Scenario.disk_with Scenario.partial_text)))
  = Ok (Obj [("access_token", Str "A")])
  /\ ~ (fst (loadCredentials
              (Scenario.world Scenario.offline
                 (Scenario.disk_with Scenario.partial_text))) = Ok Null
        \/ exists v,
             fst (loadCredentials
                    (Scenario.world Scenario.offline
                       (Scenario.disk_with Scenario.partial_text))) = Ok v
             /\ fully_valid v).
Proof.
  assert (E : fst (loadCredentials
                (Scenario.world Scenario.offline
                   (Scenario.disk_with Scenario.partial_text)))
              = Ok (Obj [("access_token", Str "A")])) by (vm_compute; reflexivity).
  split; [exact E|].
  rewrite E. intros [H | (v & Hv & a & r & e & _ & Hr & _)].
  - discriminate H.
  - injection Hv as <-. vm_compute in Hr. discriminate Hr.
Qed.

(** *** The high-level accessor *)

(** The accessor, once the credential file has been read: [creds] is what
    the file holds and [t] what the clock reads. *)
Lemma getClaudeAccessToken_loaded w f creds :
  io_error (env w) (Sys.now w) = None ->
  files (disk w) !! CREDS_PATH (env w) = Some f ->
  JSON.parse (content f) = Some creds ->
  JS.ToBoolean creds = true ->
  let t := clock (env w) (S (Sys.now w)) in
  let w1 := Sys.log (EvNow t) (Sys.log (EvReadFile (CREDS_PATH (env w))) w) in
  getClaudeAccessToken w =
    match JS.greater (default Undefined (JS.get creds "expires_at"))
                     (Number.add (Number.of_Z t) (Number.of_Z 60000)) with
    | None => (Throw TypeError, w1)
    | Some true => (Ok (default Undefined (JS.get creds "access_token")), w1)
    | Some false =>
        try_catch
          (let* newCreds :=
             refreshAccessToken
               (default Undefined (JS.get creds "refresh_token")) in
           saveCredentials newCreds ;;
           ret (access_token newCreds))
          (fun _ => ret Null) w1
    end.
Proof.
  intros Hio Hf Hp Ht t w1.
  unfold getClaudeAccessToken, bind at 1.
  rewrite loadCredentials_run, Hio, Hf, Hp. cbn [default from_option id].
  rewrite Ht. cbn [negb].
  assert (Hget : forall k, exists x, JS.get creds k = Some x).
  { intros k. destruct creds; try discriminate Ht; eexists; reflexivity. }
  unfold prop.
  destruct (Hget "expires_at") as (x & ->).
  destruct (Hget "access_token") as (a & ->).
  destruct (Hget "refresh_token") as (r & ->).
  cbn [default from_option id].
  unfold bind at 1, ret at 1.
  unfold bind at 1. unfold Sys.Date_now at 1.
  replace (clock (env (Sys.log (EvReadFile (CREDS_PATH (env w))) w))
             (Sys.now (Sys.log (EvReadFile (CREDS_PATH (env w))) w)))
    with t.
  2:{ unfold t, Sys.now, Sys.log. cbn [trace env]. rewrite length_app.
      cbn [length]. f_equal. lia. }
  fold w1.
  unfold bind at 1, greater.
  destruct (JS.greater x _) as [[|]|]; [reflexivity| |reflexivity].
  unfold ret at 1, try_catch, bind at 1, ret at 1. reflexivity.
Qed.

(** C1. A stored credential is returned from the cache, with nothing but the
    file read and the clock read (no request is sent), when [expires_at] is
    more than 60000 ms past what the clock says; otherwise the first thing
    that follows is the refresh request. So 61 s ahead is fresh, and 59 s
    (or exactly 60 s) ahead is refreshed. The credential is one the program
    stores: two texts, which the file holds as well-formed UTF-8, and a
    whole number of milliseconds; that number and the clock's reading plus
    60000 are among the integers binary64 holds exactly, so that the
    comparison is the one the runtime makes. *)
Theorem getClaudeAccessToken_expiry_margin w f props a r e :
  io_error (env w) (Sys.now w) = None ->
  files (disk w) !! CREDS_PATH (env w) = Some f ->
  JSON.parse (content f) = Some (Obj props) ->
  JS.assoc "access_token" props = Some (Str a) ->
  JS.assoc "refresh_token" props = Some (Str r) ->
  JS.assoc "expires_at" props = Some (Num (Number.of_Z e)) ->
  Text.well_formed a = true ->
  Text.well_formed r = true ->
  held_exactly e ->
  held_exactly (clock (env w) (S (Sys.now w)) + 60000) ->
  let p := CREDS_PATH (env w) in
  let t := clock (env w) (S (Sys.now w)) in
  (t + 60000 < e ->
     getClaudeAccessToken w =
       (Ok (Str a), mkWorld (env w) (disk w)
                      (trace w ++ [EvReadFile p; EvNow t])%list))
  /\ (e <= t + 60000 ->
     exists tr,
       trace (snd (getClaudeAccessToken w)) =
         (trace w ++ [EvReadFile p; EvNow t;
                      EvFetch (json_post (refresh_request_body (Str r)))]
                  ++ tr)%list).
Proof.
  intros Hio Hf Hp Ha Hr He _ _ _ _ p t.
  pose proof (getClaudeAccessToken_loaded w f (Obj props) Hio Hf Hp eq_refl) as E.
  cbv zeta in E. fold t p in E.
  unfold JS.get in E. rewrite Ha, Hr, He in E. cbn [default from_option id] in E.
  rewrite NumberFacts.add_of_Z, greater_of_Z in E.
  split; intros H.
  - apply Z.ltb_lt in H. rewrite H in E. rewrite E.
    unfold Sys.log. cbn [env disk trace]. rewrite <- app_assoc. reflexivity.
  - apply Z.ltb_ge in H. rewrite H in E. rewrite E.
    assert (St : starts_with (EvFetch (json_post (refresh_request_body (Str r))))
              (try_catch
                 (let* newCreds := refreshAccessToken (Str r) in
                  saveCredentials newCreds ;; ret (access_token newCreds))
                 (fun _ => ret Null))).
    { apply starts_with_try.
      - apply starts_with_bind; [apply refreshAccessToken_starts|].
        intros c. apply (emits_any store_or_exchange).
        repeat first [apply emits_saveCredentials | step_emits].
      - intros e'. apply emits_ret. }
    destruct (St (Sys.log (EvNow t) (Sys.log (EvReadFile p) w))) as (tr & Htr).
    exists tr. rewrite Htr. unfold Sys.log. cbn [trace].
    rewrite <- !app_assoc. reflexivity.
Qed.

(** *** The credential store: save *)

Module SysFacts.
Import Sys.

Lemma In_ancestors (q p : path) :
  In q (ancestors p) <-> exists n, (1 <= n <= length p)%nat /\ q = firstn n p.
Proof.
  unfold ancestors. rewrite in_map_iff. split.
  - intros (n & <- & Hn). apply in_seq in Hn. exists n. split; [lia|reflexivity].
  - intros (n & Hn & ->). exists n. split; [reflexivity|]. apply in_seq. lia.
Qed.

Lemma ancestors_self (p : path) : p <> [] -> In p (ancestors p).
Proof.
  intros H. apply In_ancestors. exists (length p). split.
  - destruct p; [congruence|]. simpl. lia.
  - symmetry. apply firstn_all.
Qed.

Lemma ancestors_nonempty (q p : path) : In q (ancestors p) -> q <> [].
Proof.
  intros (n & Hn & ->)%In_ancestors. destruct p; simpl in *; [lia|].
  destruct n; [lia|]. discriminate.
Qed.

Lemma ancestors_shorter (q p : path) :
  In q (ancestors p) -> (length q <= length p)%nat.
Proof.
  intros (n & Hn & ->)%In_ancestors. rewrite length_firstn. lia.
Qed.

(** After [mkdir -p], every directory on the way exists. *)
Lemma is_dir_made d (p q : path) fs :
  In q (ancestors p) ->
  is_dir (mkDisk (dirs d ∪ list_to_set (ancestors p)) fs) q = true.
Proof.
  intros H. unfold is_dir. destruct q; [reflexivity|].
  apply bool_decide_eq_true. cbn [dirs].
  apply elem_of_union_r, elem_of_list_to_set, list_elem_of_In, H.
Qed.

Lemma is_dir_made_self d (p : path) fs :
  is_dir (mkDisk (dirs d ∪ list_to_set (ancestors p)) fs) p = true.
Proof.
  destruct p as [|c p]; [reflexivity|].
  apply is_dir_made, ancestors_self. discriminate.
Qed.

Lemma dirname_shorter (p : path) : p <> [] -> (length (dirname p) < length p)%nat.
Proof.
  intros H. unfold dirname.
  destruct (exists_last H) as (l & a & ->).
  rewrite removelast_last, length_app. simpl. lia.
Qed.

(** [mkdir -p] of the directory of [p] does not make [p] a directory. *)
Lemma not_dir_kept d (p : path) fs :
  is_dir d p = false ->
  is_dir (mkDisk (dirs d ∪ list_to_set (ancestors (dirname p))) fs) p = false.
Proof.
  unfold is_dir. destruct p as [|c p]; [discriminate|].
  intros H. apply bool_decide_eq_false in H. apply bool_decide_eq_false.
  cbn [dirs]. intros [Hd|Ha]%elem_of_union; [exact (H Hd)|].
  apply elem_of_list_to_set, list_elem_of_In, ancestors_shorter in Ha.
  pose proof (dirname_shorter (c :: p)) as L.
  assert (c :: p <> []) as N by discriminate. specialize (L N). lia.
Qed.

Lemma first_file_none d (l : list path) :
  existsb (is_file d) l = false -> first_file d l = None.
Proof.
  induction l as [|q l IH]; [reflexivity|]. cbn [existsb first_file].
  destruct (is_file d q); [discriminate|]. exact IH.
Qed.

Lemma first_file_some d (l : list path) q :
  first_file d l = Some q -> In q l /\ is_file d q = true.
Proof.
  induction l as [|x l IH]; [discriminate|]. cbn [first_file].
  destruct (is_file d x) eqn:E.
  - intros [= <-]. split; [left; reflexivity|exact E].
  - intros H. destruct (IH H). split; [right|]; assumption.
Qed.

Lemma firstn_incl {A} (k : nat) (l : list A) x : In x (firstn k l) -> In x l.
Proof.
  revert l. induction k as [|k IH]; intros l; [intros []|].
  destruct l as [|y l]; [intros []|]. cbn [firstn].
  intros [<-|H]; [left; reflexivity|right; exact (IH _ H)].
Qed.

Lemma before_file_incl d (l : list path) q :
  In q (before_file d l) -> In q l.
Proof.
  induction l as [|x l IH]; [intros []|]. cbn [before_file].
  destruct (is_file d x); [intros []|].
  intros [<-|H]; [left; reflexivity|right; exact (IH H)].
Qed.

Lemma now_log ev w : now (log ev w) = S (now w).
Proof. unfold now, log. cbn [trace]. rewrite length_app. simpl. lia. Qed.

Lemma now_set_disk d w : now (set_disk d w) = now w.
Proof. reflexivity. Qed.

End SysFacts.

(** What [saveCredentials] does once the directory could be made: the write
    decides, the change of permissions does not. *)
Lemma saveCredentials_run w c :
  let p := CREDS_PATH (env w) in
  let n := Sys.now w in
  let text := JSON.stringify_object (Credentials_object c) 2 in
  io_error (env w) n = None ->
  clear_way (disk w) p = true ->
  saveCredentials c w =
    match io_error (env w) (S n) with
    | Some e =>
        (Throw e,
         mkWorld (env w)
           (mkDisk (dirs (disk w) ∪ list_to_set (Sys.ancestors (Sys.dirname p)))
                   (match partial (env w) (S n) with
                    | Some k =>
                        <[p := File (substring 0 k text) (opened_mode w p)]>
                          (files (disk w))
                    | None => files (disk w)
                    end))
           (trace w ++ [EvMkdir (Sys.dirname p); EvWriteFile p text])%list)
    | None =>
        (Ok tt,
         mkWorld (env w)
           (saved_disk (disk w) p text (create_mode (env w))
              (match io_error (env w) (S (S n)) with
               | None => true
               | Some _ => false
               end))
           (trace w ++ [EvMkdir (Sys.dirname p); EvWriteFile p text;
                        EvChmod p 0x180])%list)
    end.
Proof.
  intros p n text Hio Hway.
  unfold clear_way in Hway. apply andb_true_iff in Hway as [Hanc Hdir].
  apply negb_true_iff in Hanc, Hdir.
  apply SysFacts.first_file_none in Hanc.
  unfold saveCredentials, with_env. fold p text.
  unfold opened_mode. unfold n, Sys.now in *. clearbody p text. clear n.
  unfold bind, try_catch, Sys.mkdir_recursive, Sys.writeFile, Sys.chmod,
    Sys.effect, Sys.log, Sys.set_disk, Sys.now.
  cbn [env disk trace files dirs].
  rewrite Hio, Hanc. cbn [env disk trace files dirs].
  rewrite !length_app. cbn [length]. rewrite !Nat.add_1_r.
  rewrite (SysFacts.not_dir_kept (disk w) p (files (disk w)) Hdir).
  rewrite SysFacts.is_dir_made_self. cbn [negb andb env disk trace files dirs].
  destruct (io_error (env w) (S (length (trace w)))) as [e|].
  { destruct (partial (env w) (S (length (trace w)))) as [k|];
      cbn [env disk trace files dirs]; rewrite <- app_assoc; reflexivity. }
  cbn [negb env disk trace files dirs].
  rewrite lookup_insert_eq, <- app_assoc. cbn [app].
  rewrite length_app. cbn [length].
  replace (length (trace w) + 2)%nat with (S (S (length (trace w)))) by lia.
  unfold saved_disk.
  destruct (io_error (env w) (S (S (length (trace w))))) as [e|];
    cbn [ret content env disk trace files dirs];
    rewrite <- ?app_assoc; cbn [app].
  - reflexivity.
  - rewrite insert_insert_eq. reflexivity.
Qed.


(** *** The token exchanger *)

Lemma get_total v k x :
  JS.get v k = Some x -> forall k', exists y, JS.get v k' = Some y.
Proof.
  intros H k'. destruct v; try discriminate H; eexists; reflexivity.
Qed.

(** The credential both exchanges build from a response that is not [null]
    and whose [expires_in] converts to a number: the clock is read when the
    response is there. *)
Lemma credentials_of_response_run data a r ei ms w :
  JS.get data "access_token" = Some a ->
  JS.get data "refresh_token" = Some r ->
  JS.get data "expires_in" = Some ei ->
  JS.times ei (Number.of_Z 1000) = Some ms ->
  credentials_of_response data w =
    (Ok (mkCredentials a r
           (Number.add (Number.of_Z (clock (env w) (Sys.now w))) ms)),
     Sys.log (EvNow (clock (env w) (Sys.now w))) w).
Proof.
  intros Ha Hr He Hm. unfold credentials_of_response, prop, times.
  rewrite Ha, Hr, He. unfold bind, ret, Sys.Date_now. rewrite Hm. reflexivity.
Qed.

(** An [expires_in] that does not convert makes the exchange throw, once
    the clock has been read. *)
Lemma credentials_of_response_unconverted data ei w :
  JS.get data "expires_in" = Some ei ->
  JS.times ei (Number.of_Z 1000) = None ->
  credentials_of_response data w =
    (Throw TypeError, Sys.log (EvNow (clock (env w) (Sys.now w))) w).
Proof.
  intros He Hm. unfold credentials_of_response, prop, times.
  destruct (get_total _ _ _ He "access_token") as (a & ->).
  destruct (get_total _ _ _ He "refresh_token") as (r & ->).
  rewrite He. unfold bind, ret, Sys.Date_now. rewrite Hm. reflexivity.
Qed.

Lemma fetch_run req w :
  Sys.fetch req w =
    (match network (env w) (Sys.now w) req with
     | Rejected e => Throw e
     | Resolved r => Ok r
     end, Sys.log (EvFetch req) w).
Proof.
  unfold Sys.fetch, Sys.effect.
  destruct (network _ _ _); destruct w; reflexivity.
Qed.

(** A refresh the endpoint answers with a success status and a JSON body
    that is not [null]. *)
Lemma refreshAccessToken_ok rt resp data a r ei ms w :
  network (env w) (Sys.now w) (json_post (refresh_request_body rt)) = Resolved resp ->
  ok resp = true ->
  JSON.parse (text resp) = Some data ->
  JS.get data "access_token" = Some a ->
  JS.get data "refresh_token" = Some r ->
  JS.get data "expires_in" = Some ei ->
  JS.times ei (Number.of_Z 1000) = Some ms ->
  let t := clock (env w) (S (Sys.now w)) in
  refreshAccessToken rt w =
    (Ok (mkCredentials a r (Number.add (Number.of_Z t) ms)),
     mkWorld (env w) (disk w)
       (trace w ++ [EvFetch (json_post (refresh_request_body rt)); EvNow t])%list).
Proof.
  intros Hn Hok Hp Ha Hr He Hm t.
  unfold refreshAccessToken, bind at 1. rewrite fetch_run, Hn, Hok.
  cbn [negb]. unfold bind at 1, JSON_parse. rewrite Hp. unfold ret at 1.
  rewrite (credentials_of_response_run data a r ei ms _ Ha Hr He Hm).
  rewrite SysFacts.now_log. unfold Sys.log. cbn [env disk trace].
  rewrite <- app_assoc. reflexivity.
Qed.

Lemma exchangeCodeForTokens_ok code v resp data a r ei ms w :
  network (env w) (Sys.now w) (json_post (code_request_body code v)) = Resolved resp ->
  ok resp = true ->
  JSON.parse (text resp) = Some data ->
  JS.get data "access_token" = Some a ->
  JS.get data "refresh_token" = Some r ->
  JS.get data "expires_in" = Some ei ->
  JS.times ei (Number.of_Z 1000) = Some ms ->
  let t := clock (env w) (S (Sys.now w)) in
  exchangeCodeForTokens code v w =
    (Ok (mkCredentials a r (Number.add (Number.of_Z t) ms)),
     mkWorld (env w) (disk w)
       (trace w ++ [EvFetch (json_post (code_request_body code v)); EvNow t])%list).
Proof.
  intros Hn Hok Hp Ha Hr He Hm t.
  unfold exchangeCodeForTokens, bind at 1. rewrite fetch_run, Hn, Hok.
  cbn [negb]. unfold bind at 1, JSON_parse. rewrite Hp. unfold ret at 1.
  rewrite (credentials_of_response_run data a r ei ms _ Ha Hr He Hm).
  rewrite SysFacts.now_log. unfold Sys.log. cbn [env disk trace].
  rewrite <- app_assoc. reflexivity.
Qed.

(** [t + s * 1000] in the arithmetic of the program, on whole numbers. *)
Lemma expiry_of_Z (t s : Z) :
  exists ms,
    JS.times (Num (Number.of_Z s)) (Number.of_Z 1000) = Some ms /\
    Number.add (Number.of_Z t) ms = Number.of_Z (t + s * 1000).
Proof.
  exists (Number.of_Z (s * 1000)). split; [apply times_of_Z|].
  apply NumberFacts.add_of_Z.
Qed.

(** C6. For a response with a success status whose JSON body gives a whole
    number [expires_in] of seconds, either exchange yields a credential whose
    [expires_at] is the clock's reading once the response is there, in
    milliseconds, plus a thousand times [expires_in]. The numbers are those
    the runtime counts exactly with. *)
Theorem expires_at_is_receipt_time_plus_lifetime
    w code v rt resp data s :
  ok resp = true ->
  JSON.parse (text resp) = Some data ->
  JS.get data "expires_in" = Some (Num (Number.of_Z s)) ->
  let received := clock (env w) (S (Sys.now w)) in
  held_exactly received ->
  held_exactly (s * 1000) ->
  held_exactly (received + s * 1000) ->
  (network (env w) (Sys.now w) (json_post (code_request_body code v))
     = Resolved resp ->
   exists c w',
     exchangeCodeForTokens code v w = (Ok c, w') /\
     expires_at c = Number.of_Z (received + s * 1000))
  /\
  (network (env w) (Sys.now w) (json_post (refresh_request_body rt))
     = Resolved resp ->
   exists c w',
     refreshAccessToken rt w = (Ok c, w') /\
     expires_at c = Number.of_Z (received + s * 1000)).
Proof.
  intros Hok Hp He received _ _ _.
  destruct (get_total _ _ _ He "access_token") as (a & Ha).
  destruct (get_total _ _ _ He "refresh_token") as (r & Hr).
  destruct (expiry_of_Z received s) as (ms & Hm & Hx).
  split; intros Hn.
  - exists (mkCredentials a r (Number.of_Z (received + s * 1000))). eexists.
    split; [|reflexivity].
    rewrite (exchangeCodeForTokens_ok code v resp data a r _ ms w
               Hn Hok Hp Ha Hr He Hm).
    cbv zeta. fold received. rewrite Hx. reflexivity.
  - exists (mkCredentials a r (Number.of_Z (received + s * 1000))). eexists.
    split; [|reflexivity].
    rewrite (refreshAccessToken_ok rt resp data a r _ ms w
               Hn Hok Hp Ha Hr He Hm).
    cbv zeta. fold received. rewrite Hx. reflexivity.
Qed.

(** *** Refreshing *)

(** The accessor on a stored credential that is not fresh any more. *)
Lemma getClaudeAccessToken_stale w f props a r d :
  io_error (env w) (Sys.now w) = None ->
  files (disk w) !! CREDS_PATH (env w) = Some f ->
  JSON.parse (content f) = Some (Obj props) ->
  JS.assoc "access_token" props = Some a ->
  JS.assoc "refresh_token" props = Some r ->
  JS.assoc "expires_at" props = Some (Num (Fin d)) ->
  let p := CREDS_PATH (env w) in
  let t := clock (env w) (S (Sys.now w)) in
  ~ (inject_Z (t + 60000) < Number.dval d)%Q ->
  getClaudeAccessToken w =
    try_catch
      (let* newCreds := refreshAccessToken r in
       saveCredentials newCreds ;; ret (access_token newCreds))
      (fun _ => ret Null)
      (mkWorld (env w) (disk w) (trace w ++ [EvReadFile p; EvNow t])%list).
Proof.
  intros Hio Hf Hp Ha Hr He p t Hstale.
  pose proof (getClaudeAccessToken_loaded w f (Obj props) Hio Hf Hp eq_refl) as E.
  cbv zeta in E. fold t p in E.
  unfold JS.get in E. rewrite Ha, Hr, He in E. cbn [default from_option id] in E.
  rewrite NumberFacts.add_of_Z in E.
  rewrite greater_Num in E. unfold Number.gtb, Number.of_Z, Number.ltb in E.
  pose proof (NumberFacts.dltb_spec (Dec (t + 60000) 0) d) as S.
  rewrite NumberFacts.dval_of_Z in S.
  destruct (Number.dltb (Dec (t + 60000) 0) d).
  { exfalso. apply Hstale, S. reflexivity. }
  rewrite E. unfold Sys.log. cbn [env disk trace].
  rewrite <- app_assoc. reflexivity.
Qed.

(** C3. When the stored credential is past, or within 60 seconds of, its
    expiry and the refresh fails, for whatever reason, the accessor returns
    [null] without throwing and the disk is as it was. *)
Theorem refresh_failure_is_unauthenticated w f props a r d e :
  io_error (env w) (Sys.now w) = None ->
  files (disk w) !! CREDS_PATH (env w) = Some f ->
  JSON.parse (content f) = Some (Obj props) ->
  JS.assoc "access_token" props = Some a ->
  JS.assoc "refresh_token" props = Some r ->
  JS.assoc "expires_at" props = Some (Num (Fin d)) ->
  let p := CREDS_PATH (env w) in
  let t := clock (env w) (S (Sys.now w)) in
  ~ (inject_Z (t + 60000) < Number.dval d)%Q ->
  fst (refreshAccessToken r
         (mkWorld (env w) (disk w) (trace w ++ [EvReadFile p; EvNow t])%list))
    = Throw e ->
  exists w',
    getClaudeAccessToken w = (Ok Null, w') /\
    disk w' = disk w /\
    files (disk w') !! p = Some f.
Proof.
  intros Hio Hf Hp Ha Hr He p t Hstale Hfail.
  rewrite (getClaudeAccessToken_stale w f props a r d Hio Hf Hp Ha Hr He Hstale).
  fold p t. unfold try_catch, bind at 1.
  pose proof (read_only_refreshAccessToken r
    (mkWorld (env w) (disk w) (trace w ++ [EvReadFile p; EvNow t])%list)) as RO.
  destruct (refreshAccessToken r _) as [[c|e'] w2]; cbn [fst snd] in *.
  - discriminate Hfail.
  - exists w2. cbn [disk] in RO. rewrite RO. auto.
Qed.

(** The accessor on a stale credential, when the refresh and the write go
    through. *)
Lemma getClaudeAccessToken_refreshed w f props a r d resp data B R2 ei ms :
  io_error (env w) (Sys.now w) = None ->
  files (disk w) !! CREDS_PATH (env w) = Some f ->
  JSON.parse (content f) = Some (Obj props) ->
  JS.assoc "access_token" props = Some a ->
  JS.assoc "refresh_token" props = Some r ->
  JS.assoc "expires_at" props = Some (Num (Fin d)) ->
  let p := CREDS_PATH (env w) in
  let n := Sys.now w in
  ~ (inject_Z (clock (env w) (S n) + 60000) < Number.dval d)%Q ->
  network (env w) (n + 2) (json_post (refresh_request_body r)) = Resolved resp ->
  ok resp = true ->
  JSON.parse (text resp) = Some data ->
  JS.get data "access_token" = Some B ->
  JS.get data "refresh_token" = Some R2 ->
  JS.get data "expires_in" = Some ei ->
  JS.times ei (Number.of_Z 1000) = Some ms ->
  io_error (env w) (n + 4) = None ->
  io_error (env w) (n + 5) = None ->
  clear_way (disk w) p = true ->
  let c := mkCredentials B R2
             (Number.add (Number.of_Z (clock (env w) (n + 3))) ms) in
  let saved := JSON.stringify_object (Credentials_object c) 2 in
  getClaudeAccessToken w
  = (Ok B,
     mkWorld (env w)
       (saved_disk (disk w) p saved (create_mode (env w))
          (match io_error (env w) (n + 6) with
           | None => true
           | Some _ => false
           end))
       (trace w ++
        [EvReadFile p; EvNow (clock (env w) (S n));
         EvFetch (json_post (refresh_request_body r));
         EvNow (clock (env w) (n + 3));
         EvMkdir (Sys.dirname p); EvWriteFile p saved; EvChmod p 0x180])).
Proof.
  intros Hio Hf Hp Ha Hr He p n Hstale Hn Hok Hpr HB HR Hei Hms Hmk Hwr Hway
    c saved.
  rewrite (getClaudeAccessToken_stale w f props a r d Hio Hf Hp Ha Hr He Hstale).
  fold p n. unfold try_catch, bind at 1.
  assert (L2 : Sys.now (mkWorld (env w) (disk w)
                 (trace w ++ [EvReadFile p; EvNow (clock (env w) (S n))])%list)
               = (n + 2)%nat).
  { unfold Sys.now, n. cbn [trace]. rewrite length_app. reflexivity. }
  rewrite (refreshAccessToken_ok r resp data B R2 ei ms);
    cbn [env disk]; rewrite ?L2; auto.
  cbv zeta. cbn [env disk trace].
  replace (S (n + 2)) with (n + 3)%nat by lia. fold c.
  rewrite <- app_assoc. cbn [app].
  unfold bind at 1.
  set (w3 := mkWorld (env w) (disk w) _).
  assert (L4 : Sys.now w3 = (n + 4)%nat).
  { unfold Sys.now, w3, n. cbn [trace]. rewrite length_app. reflexivity. }
  pose proof (saveCredentials_run w3 c) as Sv. cbv zeta in Sv.
  rewrite L4 in Sv.
  change (env w3) with (env w) in Sv. change (disk w3) with (disk w) in Sv.
  fold p saved in Sv.
  replace (S (n + 4)) with (n + 5)%nat in Sv by lia.
  replace (S (n + 5)) with (n + 6)%nat in Sv by lia.
  rewrite Hwr in Sv. rewrite (Sv Hmk Hway).
  unfold ret. cbn [access_token c]. unfold w3. cbn [trace].
  rewrite <- app_assoc. reflexivity.
Qed.

(** A credential with plain tokens and an expiry binary64 holds exactly is
    read back as it was written. *)
Lemma credential_flat b r2 expiry :
  plain b = true -> plain r2 = true -> 0 <= expiry < 2 ^ 53 ->
  flat [] (Credentials_object (mkCredentials (Str b) (Str r2)
                                 (Number.of_Z expiry))) = true.
Proof.
  intros Pb Pr Hx.
  cbn [flat Credentials_object simple access_token refresh_token expires_at
       Number.of_Z].
  rewrite Pb, Pr.
  replace (0 <=? expiry) with true by (symmetry; apply Z.leb_le; lia).
  replace (expiry <? 10 ^ 21) with true by (symmetry; apply Z.ltb_lt; lia).
  reflexivity.
Qed.

(** C7. When the stored credential is not fresh, the endpoint answers the
    refresh with a success status and a JSON body giving two texts and a
    whole number of seconds, and the write goes through, the accessor
    returns the access token of the response, and the credential file then
    holds the serialization of the credential made of the response: its
    [refresh_token] is the one the endpoint returned, not the one that was
    stored. Loading the store afterwards yields that credential. The new
    expiry is a number the runtime counts exactly with. *)
Theorem refresh_replaces_refresh_token w f props a r d resp data b r2 s :
  io_error (env w) (Sys.now w) = None ->
  files (disk w) !! CREDS_PATH (env w) = Some f ->
  JSON.parse (content f) = Some (Obj props) ->
  JS.assoc "access_token" props = Some a ->
  JS.assoc "refresh_token" props = Some (Str r) ->
  Text.well_formed r = true ->
  JS.assoc "expires_at" props = Some (Num (Fin d)) ->
  let p := CREDS_PATH (env w) in
  let n := Sys.now w in
  ~ (inject_Z (clock (env w) (S n) + 60000) < Number.dval d)%Q ->
  network (env w) (n + 2) (json_post (refresh_request_body (Str r))) = Resolved resp ->
  ok resp = true ->
  JSON.parse (text resp) = Some data ->
  JS.get data "access_token" = Some (Str b) ->
  JS.get data "refresh_token" = Some (Str r2) ->
  JS.get data "expires_in" = Some (Num (Number.of_Z s)) ->
  io_error (env w) (n + 4) = None ->
  io_error (env w) (n + 5) = None ->
  clear_way (disk w) p = true ->
  plain b = true -> plain r2 = true ->
  let expiry := clock (env w) (n + 3) + s * 1000 in
  0 <= expiry < 2 ^ 53 ->
  let c := mkCredentials (Str b) (Str r2) (Number.of_Z expiry) in
  exists w' m,
    getClaudeAccessToken w = (Ok (Str b), w') /\
    files (disk w') !! p
      = Some (File (JSON.stringify_object (Credentials_object c) 2) m) /\
    (io_error (env w') (Sys.now w') = None ->
     fst (loadCredentials w')
     = Ok (Obj [("access_token", Str b); ("refresh_token", Str r2);
                ("expires_at", Num (Number.of_Z expiry))])).
Proof.
  intros Hio Hf Hp Ha Hr _ He p n Hstale Hn Hok Hpr HB HR Hei Hmk Hwr Hway
    Pb Pr expiry Hx c.
  destruct (expiry_of_Z (clock (env w) (n + 3)) s) as (ms & Hms & Hsum).
  pose proof (getClaudeAccessToken_refreshed w f props a (Str r) d resp data
                (Str b) (Str r2) (Num (Number.of_Z s)) ms
                Hio Hf Hp Ha Hr He Hstale Hn Hok Hpr HB HR Hei Hms Hmk Hwr Hway)
    as R.
  cbv zeta in R. fold p n in R. rewrite Hsum in R.
  fold expiry in R. fold c in R.
  rewrite R. eexists; eexists. split; [reflexivity|].
  assert (Held : forall restricted,
            files (saved_disk (disk w) p
                     (JSON.stringify_object (Credentials_object c) 2)
                     (create_mode (env w)) restricted) !! p
            = Some (File (JSON.stringify_object (Credentials_object c) 2)
                      (if restricted then 384
                       else match files (disk w) !! p with
                            | Some f => mode f
                            | None => create_mode (env w)
                            end))).
  { intros restricted. unfold saved_disk. cbn [files]. apply lookup_insert_eq. }
  cbn [disk]. split; [apply Held|].
  intros Hread. rewrite loadCredentials_run.
  cbn [fst env disk] in Hread |- *. rewrite Hread. fold p. rewrite Held.
  cbn [content].
  rewrite JSONFacts.parse_stringify_flat
    by (discriminate || exact (credential_flat b r2 expiry Pb Pr Hx)).
  reflexivity.
Qed.

(** *** The interactive flow *)

(** C9. When the accessor yields a token (a value the flow's test takes for
    one: a non-empty string is), the flow returns it and ends in the world
    the accessor left: whatever the callbacks are, nothing was done beyond
    that one call, and that call draws no random bytes, launches nothing,
    prints and prompts nothing. *)
Theorem authenticateWithClaude_short_circuit callbacks w token w' :
  getClaudeAccessToken w = (Ok token, w') ->
  JS.ToBoolean token = true ->
  authenticateWithClaude callbacks w = (Ok token, w') /\
  exists tr,
    trace w' = (trace w ++ tr)%list /\ Forall store_or_exchange tr.
Proof.
  intros Hget Htok. split.
  - unfold authenticateWithClaude, bind at 1. rewrite Hget, Htok. reflexivity.
  - destruct (emits_getClaudeAccessToken w) as (tr & Ht & HP & _).
    rewrite Hget in Ht. exists tr. auto.
Qed.

(** *** Splitting the pasted code *)

Lemma split_plain s :
  Text.contains "#" s = false -> Text.split "#" s = [s].
Proof.
  induction s as [|c s IH]; [reflexivity|].
  cbn [Text.contains Text.split]. intros H.
  apply orb_false_iff in H as [Hc Hs].
  rewrite Hc, (IH Hs). reflexivity.
Qed.

Lemma split_compound a s :
  Text.contains "#" a = false -> Text.contains "#" s = false ->
  Text.split "#" (a ^^ "#" ^^ s) = [a; s].
Proof.
  intros Ha Hs. induction a as [|c a IH].
  - change (EmptyString ^^ "#" ^^ s) with (String "#"%char s).
    change (Text.split "#" (String "#"%char s))
      with (EmptyString :: Text.split "#" s).
    rewrite (split_plain s Hs). reflexivity.
  - cbn [Text.contains] in Ha. apply orb_false_iff in Ha as [Hc Ha].
    change (String c a ^^ "#" ^^ s) with (String c (a ^^ "#" ^^ s)).
    cbn [Text.split]. rewrite Hc, (IH Ha). reflexivity.
Qed.

(** C5. For a pasted text [authCode#state], neither part containing the
    delimiter, the exchange by code first sends a POST to the token endpoint
    whose JSON body has [code] = the part before ['#'], [state] = the part
    after it, the grant type "authorization_code", the fixed client id, the
    fixed redirect target and the verifier: the body is the serialization
    of that object and, for plain texts, parses as it. *)
Theorem exchangeCodeForTokens_splits_code authCode state v w :
  Text.contains "#" authCode = false ->
  Text.contains "#" state = false ->
  code_request_body (authCode ^^ "#" ^^ state) v
    = compound_code_body authCode state v
  /\ (exists tr,
      trace (snd (exchangeCodeForTokens (authCode ^^ "#" ^^ state) v w)) =
        (trace w ++
         EvFetch (mkRequest TOKEN_URL "POST"
                    [("Content-Type", "application/json")]
                    (compound_code_body authCode state v)) :: tr)%list)
  /\ (plain authCode = true -> plain state = true -> plain v = true ->
      JSON.parse (compound_code_body authCode state v)
      = Some (Obj [("code", Str authCode);
                   ("state", Str state);
                   ("grant_type", Str "authorization_code");
                   ("client_id", Str CLIENT_ID);
                   ("redirect_uri", Str REDIRECT_URI);
                   ("code_verifier", Str v)])).
Proof.
  intros Ha Hs.
  assert (Parse : plain authCode = true -> plain state = true -> plain v = true ->
      JSON.parse (compound_code_body authCode state v)
      = Some (Obj [("code", Str authCode);
                   ("state", Str state);
                   ("grant_type", Str "authorization_code");
                   ("client_id", Str CLIENT_ID);
                   ("redirect_uri", Str REDIRECT_URI);
                   ("code_verifier", Str v)])).
  { intros Pa Ps Pv. apply JSONFacts.parse_stringify_flat; [discriminate|].
    cbn [flat simple]. rewrite Pa, Ps, Pv. reflexivity. }
  assert (E : code_request_body (authCode ^^ "#" ^^ state) v
              = compound_code_body authCode state v).
  { unfold code_request_body. rewrite (split_compound _ _ Ha Hs). reflexivity. }
  split; [exact E|]. split; [|exact Parse].
  destruct (exchangeCodeForTokens_starts (authCode ^^ "#" ^^ state) v w)
    as (tr & Ht).
  exists tr. rewrite Ht, E. reflexivity.
Qed.

(** C10. A pasted text without the delimiter is not rejected: the whole of
    it is sent as [code], the second element of the split is [undefined],
    and the body sent is the serialization of an object with no [state]
    property: for plain texts, what the body parses as has [code] = the
    input and no [state]. *)
Theorem exchangeCodeForTokens_without_delimiter code v w :
  Text.contains "#" code = false ->
  item (Text.split "#" code) 0 = Str code
  /\ item (Text.split "#" code) 1 = Undefined
  /\ code_request_body code v = plain_code_body code v
  /\ (exists tr,
      trace (snd (exchangeCodeForTokens code v w)) =
        (trace w ++
         EvFetch (mkRequest TOKEN_URL "POST"
                    [("Content-Type", "application/json")]
                    (plain_code_body code v)) :: tr)%list)
  /\ (plain code = true -> plain v = true ->
      exists sent,
        JSON.parse (plain_code_body code v) = Some sent /\
        JS.get sent "code" = Some (Str code) /\
        JS.get sent "state" = Some Undefined).
Proof.
  intros Hc.
  assert (Parse : plain code = true -> plain v = true ->
      exists sent,
        JSON.parse (plain_code_body code v) = Some sent /\
        JS.get sent "code" = Some (Str code) /\
        JS.get sent "state" = Some Undefined).
  { intros Pc Pv.
    exists (Obj [("code", Str code);
                 ("grant_type", Str "authorization_code");
                 ("client_id", Str CLIENT_ID);
                 ("redirect_uri", Str REDIRECT_URI);
                 ("code_verifier", Str v)]).
    split; [|split; reflexivity].
    apply JSONFacts.parse_stringify_flat; [discriminate|].
    cbn [flat simple]. rewrite Pc, Pv. reflexivity. }
  assert (E : code_request_body code v = plain_code_body code v).
  { unfold code_request_body. rewrite (split_plain _ Hc). reflexivity. }
  rewrite (split_plain _ Hc).
  split; [reflexivity|]. split; [reflexivity|]. split; [exact E|].
  split; [|exact Parse].
  destruct (exchangeCodeForTokens_starts code v w) as (tr & Ht).
  exists tr. rewrite Ht, E. reflexivity.
Qed.

(** *** base64url *)

Module Base64Facts.
Import Crypto.

(** Names the quotient and the remainder of [x] by [k], so that what is
    left is linear. *)
Ltac name_divmod x k :=
  pose proof (N.div_mod x k ltac:(lia));
  pose proof (N.mod_lt x k ltac:(lia));
  generalize dependent (x / k)%N; generalize dependent (x mod k)%N; intros.

Lemma table_ok :
  forallb (fun n => N.eqb (b64val (b64char n)) n && url_safe (b64char n))
          (map N.of_nat (seq 0 64)) = true.
Proof. vm_compute. reflexivity. Qed.

Lemma b64char_ok n :
  (n < 64)%N -> b64val (b64char n) = n /\ url_safe (b64char n) = true.
Proof.
  intros H. pose proof table_ok as T. rewrite forallb_forall in T.
  specialize (T n). rewrite andb_true_iff, N.eqb_eq in T. apply T.
  apply in_map_iff. exists (N.to_nat n). split; [apply N2Nat.id|].
  apply in_seq. lia.
Qed.

Lemma url_safe_b64char n : (n < 64)%N -> url_safe (b64char n) = true.
Proof. intros H. apply b64char_ok, H. Qed.


(** Induction on a string three bytes at a time, as the encoder reads. *)
Lemma string_by_triples (P : string -> Prop) :
  P EmptyString ->
  (forall a, P (String a EmptyString)) ->
  (forall a b, P (String a (String b EmptyString))) ->
  (forall a b c r, P r -> P (String a (String b (String c r)))) ->
  forall s, P s.
Proof.
  intros H0 H1 H2 H3.
  assert (A : forall s, P s /\ (forall a, P (String a s))
                        /\ (forall a b, P (String a (String b s)))).
  { induction s as [|c s (Ps & P1 & P2)].
    - auto.
    - split; [apply P1|]. split; [intros a; apply P2|].
      intros a b. apply H3, Ps. }
  intros s. apply A.
Qed.

Lemma sextet_bounds (x y z : N) :
  (x < 256 -> y < 256 -> z < 256 ->
   x / 4 < 64 /\ x mod 4 * 16 < 64 /\ x mod 4 * 16 + y / 16 < 64 /\
   y mod 16 * 4 < 64 /\ y mod 16 * 4 + z / 64 < 64 /\ z mod 64 < 64)%N.
Proof.
  intros. name_divmod x 4%N. name_divmod y 16%N. name_divmod z 64%N. lia.
Qed.




Lemma code_sextets (a b c : ascii) :
  (Text.code a / 4 < 64 /\ Text.code a mod 4 * 16 < 64 /\
   Text.code a mod 4 * 16 + Text.code b / 16 < 64 /\
   Text.code b mod 16 * 4 < 64 /\
   Text.code b mod 16 * 4 + Text.code c / 64 < 64 /\
   Text.code c mod 64 < 64)%N.
Proof. apply sextet_bounds; apply code_bound. Qed.

Lemma base64url_url_safe s : all_chars url_safe (base64url s) = true.
Proof.
  induction s as [|a|a b|a b c r IH] using string_by_triples;
    cbn [base64url all_chars]; [reflexivity| | |];
    [destruct (code_sextets a a a) as (S1 & S2 & _)
    |destruct (code_sextets a b b) as (S1 & _ & S3 & S4 & _)
    |destruct (code_sextets a b c) as (S1 & _ & S3 & _ & S5 & S6)];
    rewrite ?url_safe_b64char by assumption;
    try rewrite IH; reflexivity.
Qed.



(** Thirty-two bytes are written as forty-three characters. *)
Lemma base64url_length_32 s :
  String.length s = 32%nat -> String.length (base64url s) = 43%nat.
Proof.
  intros H.
  do 33 (destruct s as [|? s]; [try discriminate H|]);
    [reflexivity|discriminate H].
Qed.

End Base64Facts.

(** *** The PKCE generator *)

Lemma contains_excluded (p : ascii -> bool) c s :
  all_chars p s = true -> p c = false -> Text.contains c s = false.
Proof.
  intros Hs Hc. induction s as [|a s IH]; [reflexivity|].
  cbn [all_chars Text.contains] in *.
  apply andb_true_iff in Hs as [Ha Hs]. rewrite (IH Hs), orb_false_r.
  destruct (Ascii.eqb_spec a c) as [->|]; [congruence|reflexivity].
Qed.

Module EntropyFacts.

Lemma numbered_length n : forall x, String.length (numbered n x) = n.
Proof.
  induction n as [|n IH]; intros x; [reflexivity|].
  cbn [numbered String.length]. rewrite IH. reflexivity.
Qed.








End EntropyFacts.


(* ===================================================================== *)
(** ** The properties at work on concrete machines *)
(* ===================================================================== *)

(** C1 at the boundary: a credential expiring 61 s from now is returned as
    it is, after the file read and the clock read only; one expiring 59 s
    from now is refreshed. *)
Lemma getClaudeAccessToken_expiry_margin_at_61s_and_59s :
  getClaudeAccessToken
    (Scenario.stored "A" "R" (Scenario.now + 61000) Scenario.offline)
  = (Ok (Str "A"),
     mkWorld (Scenario.machine Scenario.offline)
       (Scenario.disk_with
          (Scenario.credential_text "A" "R" (Scenario.now + 61000)))
       [EvReadFile Scenario.creds_file; EvNow Scenario.now])
  /\ exists tr,
      trace (snd (getClaudeAccessToken
                    (Scenario.stored "A" "R" (Scenario.now + 59000)
                       Scenario.offline)))
      = ([EvReadFile Scenario.creds_file; EvNow Scenario.now;
          EvFetch (json_post (refresh_request_body (Str "R")))] ++ tr)%list.
Proof.
  split.
  - refine (proj1 (getClaudeAccessToken_expiry_margin
                     (Scenario.stored "A" "R" (Scenario.now + 61000)
                        Scenario.offline)
                     (Scenario.stored_file "A" "R" (Scenario.now + 61000))
                     (Scenario.stored_props "A" "R" (Scenario.now + 61000))
                     "A" "R" (Scenario.now + 61000)
                     _ _ _ _ _ _ _ _ _ _) _);
      first [ vm_compute; reflexivity
            | unfold held_exactly, Scenario.now; cbn [Scenario.stored Scenario.world env
                Scenario.machine clock]; unfold Scenario.now; lia ].
  - refine (proj2 (getClaudeAccessToken_expiry_margin
                     (Scenario.stored "A" "R" (Scenario.now + 59000)
                        Scenario.offline)
                     (Scenario.stored_file "A" "R" (Scenario.now + 59000))
                     (Scenario.stored_props "A" "R" (Scenario.now + 59000))
                     "A" "R" (Scenario.now + 59000)
                     _ _ _ _ _ _ _ _ _ _) _);
      first [ vm_compute; reflexivity
            | unfold held_exactly, Scenario.now; cbn [Scenario.stored Scenario.world env
                Scenario.machine clock]; unfold Scenario.now; lia ].
Defined.

(** C3 on the scenario of the specification: the credential expired a second
    ago and the endpoint answers HTTP 401. *)
Lemma refresh_failure_is_unauthenticated_on_401 :
  exists w',
    getClaudeAccessToken
      (Scenario.stored "A" "R" (Scenario.now - 1000) Scenario.unauthorized)
    = (Ok Null, w') /\
    disk w' = Scenario.disk_with
                (Scenario.credential_text "A" "R" (Scenario.now - 1000)) /\
    files (disk w') !! Scenario.creds_file
      = Some (Scenario.stored_file "A" "R" (Scenario.now - 1000)).
Proof.
  refine (refresh_failure_is_unauthenticated
            (Scenario.stored "A" "R" (Scenario.now - 1000) Scenario.unauthorized)
            (Scenario.stored_file "A" "R" (Scenario.now - 1000))
            (Scenario.stored_props "A" "R" (Scenario.now - 1000))
            (Str "A") (Str "R") (Dec (Scenario.now - 1000) 0)
            (Error "Token refresh failed: Unauthorized")
            _ _ _ _ _ _ _ _);
    try (vm_compute; reflexivity).
  vm_compute. intros H. discriminate H.
Defined.

(** C5 on the scenario of the specification: the pasted text
    [abc123#xyzstate]. *)
Lemma exchangeCodeForTokens_splits_abc123_xyzstate :
  code_request_body "abc123#xyzstate" "V" = Scenario.compound_text "V"
  /\ (exists tr,
      trace (snd (exchangeCodeForTokens "abc123#xyzstate" "V"
                    (Scenario.world Scenario.rotated Scenario.empty_disk)))
      = (EvFetch (json_post (Scenario.compound_text "V")) :: tr)%list)
  /\ (exists sent,
        JSON.parse (Scenario.compound_text "V") = Some sent /\
        JS.get sent "code" = Some (Str "abc123") /\
        JS.get sent "state" = Some (Str "xyzstate")).
Proof.
  destruct (exchangeCodeForTokens_splits_code "abc123" "xyzstate" "V"
              (Scenario.world Scenario.rotated Scenario.empty_disk)
              eq_refl eq_refl) as (E & (tr & Ht) & P).
  split; [exact E|]. split; [exists tr; exact Ht|].
  eexists. split; [exact (P eq_refl eq_refl eq_refl)|].
  split; reflexivity.
Defined.


(** C6 on a response giving [expires_in] = 3600: both exchanges set
    [expires_at] to the clock's reading plus 3600000. *)
Lemma expires_at_is_receipt_time_plus_3600_seconds :
  (exists c w',
     exchangeCodeForTokens "abc123#xyzstate" "V"
       (Scenario.world Scenario.rotated Scenario.empty_disk) = (Ok c, w') /\
     expires_at c = Number.of_Z (Scenario.now + 3600000))
  /\
  (exists c w',
     refreshAccessToken (Str "R")
       (Scenario.world Scenario.rotated Scenario.empty_disk) = (Ok c, w') /\
     expires_at c = Number.of_Z (Scenario.now + 3600000)).
Proof.
  destruct (expires_at_is_receipt_time_plus_lifetime
              (Scenario.world Scenario.rotated Scenario.empty_disk)
              "abc123#xyzstate" "V" (Str "R")
              Scenario.rotated_response Scenario.rotated_data 3600
              eq_refl eq_refl eq_refl) as [Hc Hr];
    [unfold held_exactly; cbn [Scenario.world env Scenario.machine clock];
     unfold Scenario.now; lia .. | ].
  split; [apply Hc|apply Hr]; reflexivity.
Defined.

(** C7 on the scenario of the specification: the stored credential
    [A], [R] expired a second ago and the endpoint returns [B], [R2], 3600.
    The accessor returns [B], and what is then loaded from the store has
    [refresh_token] = [R2]. *)
Lemma refresh_replaces_R_by_R2 :
  exists w',
    getClaudeAccessToken
      (Scenario.stored "A" "R" (Scenario.now - 1000) Scenario.rotated)
    = (Ok (Str "B"), w') /\
    (exists m,
       files (disk w') !! Scenario.creds_file
       = Some (File (Scenario.credential_text "B" "R2"
                       (Scenario.now + 3600000)) m)) /\
    fst (loadCredentials w')
    = Ok (Obj (Scenario.stored_props "B" "R2" (Scenario.now + 3600000))).
Proof.
  destruct (refresh_replaces_refresh_token
              (Scenario.stored "A" "R" (Scenario.now - 1000) Scenario.rotated)
              (Scenario.stored_file "A" "R" (Scenario.now - 1000))
              (Scenario.stored_props "A" "R" (Scenario.now - 1000))
              (Str "A") "R" (Dec (Scenario.now - 1000) 0)
              Scenario.rotated_response Scenario.rotated_data
              "B" "R2" 3600)
    as (w' & m & G & Held & Loaded);
    [try (vm_compute; reflexivity) .. | ].
  - vm_compute. intros H. discriminate H.
  - vm_compute. split; [discriminate|reflexivity].
  - exists w'. split; [exact G|]. split; [exists m; exact Held|].
    assert (W : w' = snd (getClaudeAccessToken
                            (Scenario.stored "A" "R" (Scenario.now - 1000)
                               Scenario.rotated))).
    { rewrite G. reflexivity. }
    apply Loaded.
    rewrite W. vm_compute. reflexivity.
Defined.


(** C9 on a machine holding a fresh credential: the flow returns the cached
    token and leaves the world as the accessor alone leaves it. *)
Lemma authenticateWithClaude_short_circuit_on_fresh_credential :
  authenticateWithClaude None
    (Scenario.stored "A" "R" (Scenario.now + 3600000) Scenario.offline)
  = (Ok (Str "A"),
     mkWorld (Scenario.machine Scenario.offline)
       (Scenario.disk_with
          (Scenario.credential_text "A" "R" (Scenario.now + 3600000)))
       [EvReadFile Scenario.creds_file; EvNow Scenario.now]).
Proof.
  refine (proj1 (authenticateWithClaude_short_circuit None
                   (Scenario.stored "A" "R" (Scenario.now + 3600000)
                      Scenario.offline)
                   (Str "A") _ _ _)).
  - vm_compute. reflexivity.
  - reflexivity.
Defined.

(** C10 on the pasted text [abc123]. *)
Lemma exchangeCodeForTokens_without_delimiter_abc123 :
  code_request_body "abc123" "V" = Scenario.plain_text "V"
  /\ (exists tr,
      trace (snd (exchangeCodeForTokens "abc123" "V"
                    (Scenario.world Scenario.rotated Scenario.empty_disk)))
      = (EvFetch (json_post (Scenario.plain_text "V")) :: tr)%list)
  /\ (exists sent,
        JSON.parse (Scenario.plain_text "V") = Some sent /\
        JS.get sent "code" = Some (Str "abc123") /\
        JS.get sent "state" = Some Undefined).
Proof.
  destruct (exchangeCodeForTokens_without_delimiter "abc123" "V"
              (Scenario.world Scenario.rotated Scenario.empty_disk)
              eq_refl) as (_ & _ & E & (tr & Ht) & P).
  split; [exact E|]. split; [exists tr; exact Ht|].
  exact (P eq_refl eq_refl).
Defined.

(* ===================================================================== *)
(** ** Further properties of the credential manager *)
(* ===================================================================== *)

(** *** The accessor on every store *)

(** A [try] whose handler returns a value never throws. *)
Lemma try_catch_ret {A} (m : M A) (a0 : A) w :
  exists a w', try_catch m (fun _ => ret a0) w = (Ok a, w').
Proof.
  unfold try_catch. destruct (m w) as [[a|e] w1]; eexists; eexists; reflexivity.
Qed.

(** What is not [null] or [undefined] has every property, possibly
    [undefined]. *)
Lemma get_truthy creds k :
  JS.ToBoolean creds = true -> exists x, JS.get creds k = Some x.
Proof.
  intros H. destruct creds; try discriminate H; eexists; reflexivity.
Qed.

(** The accessor when what was loaded is taken for no credential. *)
Lemma getClaudeAccessToken_falsy w creds :
  fst (loadCredentials w) = Ok creds ->
  JS.ToBoolean creds = false ->
  getClaudeAccessToken w = (Ok Null, Sys.log (EvReadFile (CREDS_PATH (env w))) w).
Proof.
  intros Hl Hf. unfold getClaudeAccessToken, bind at 1.
  rewrite loadCredentials_run in Hl |- *. cbn [fst] in Hl.
  injection Hl as ->. rewrite Hf. reflexivity.
Qed.

(** X1. The accessor can throw. When what the file holds is taken for a
    credential and its [expires_at] is an object with a [toString] property
    of its own (which [JSON.parse] makes of [{"toString":null}]), the
    comparison, which is outside the [try], throws a TypeError once the
    file and the clock have been read. When what the file holds is not
    taken for a credential, or its [expires_at] is missing or is anything
    but such an object or an array, the accessor returns a value, whatever
    the disk, the clock and the network do. [isAuthenticated] throws or
    returns with it, in the same world: it returns whether the value is
    other than [null]. *)
Theorem getClaudeAccessToken_throws_only_on_conversion w creds :
  fst (loadCredentials w) = Ok creds ->
  let expiry := default Undefined (JS.get creds "expires_at") in
  let w2 :=
    mkWorld (env w) (disk w)
      (trace w ++ [EvReadFile (CREDS_PATH (env w));
                   EvNow (clock (env w) (S (Sys.now w)))]) in
  (JS.ToBoolean creds = true -> hides_toString expiry = true ->
     getClaudeAccessToken w = (Throw TypeError, w2) /\
     isAuthenticated w = (Throw TypeError, w2))
  /\ (JS.ToBoolean creds = false \/
      (hides_toString expiry = false /\ is_array expiry = false) ->
     exists v w',
       getClaudeAccessToken w = (Ok v, w') /\
       isAuthenticated w
       = (Ok (match v with Null => false | _ => true end), w')).
Proof.
  intros Hl expiry w2.
  assert (Auth : forall r w', getClaudeAccessToken w = (r, w') ->
            isAuthenticated w
            = (match r with
               | Ok v => Ok (match v with Null => false | _ => true end)
               | Throw e => Throw e
               end, w')).
  { intros r w' G. unfold isAuthenticated, bind. rewrite G.
    destruct r; reflexivity. }
  assert (Run : JS.ToBoolean creds = true ->
            getClaudeAccessToken w
            = (let* valid :=
                 greater expiry
                   (Number.add (Number.of_Z (clock (env w) (S (Sys.now w))))
                               (Number.of_Z 60000)) in
               if valid
               then ret (default Undefined (JS.get creds "access_token"))
               else
                 try_catch
                   (let* refresh_token := prop creds "refresh_token" in
                    let* newCreds := refreshAccessToken refresh_token in
                    saveCredentials newCreds ;;
                    ret (access_token newCreds))
                   (fun _ => ret Null)) w2).
  { intros T. unfold getClaudeAccessToken, bind at 1.
    rewrite loadCredentials_run in Hl |- *. cbn [fst] in Hl.
    injection Hl as ->. rewrite T. cbn [negb].
    destruct (get_truthy creds "expires_at" T) as (x & Hx).
    destruct (get_truthy creds "access_token" T) as (a & Ha).
    unfold expiry. rewrite Hx, Ha. cbn [default from_option id].
    unfold prop at 1. rewrite Hx.
    unfold bind at 1, ret at 1. unfold bind at 1, Sys.Date_now at 1.
    unfold prop at 1. rewrite Ha.
    rewrite SysFacts.now_log. unfold Sys.log at 1 2. cbn [env disk trace].
    unfold Sys.log, w2. cbn [env disk trace]. rewrite <- app_assoc.
    reflexivity. }
  split.
  - intros T Hh.
    assert (G : getClaudeAccessToken w = (Throw TypeError, w2)).
    { rewrite (Run T). unfold bind at 1, greater, JS.greater, JS.ToNumber.
      destruct expiry as [| | | | | |props]; try discriminate Hh.
      cbn [hides_toString] in Hh. cbn [JS.ToString].
      destruct (JS.assoc "toString" props); [reflexivity|discriminate Hh]. }
    split; [exact G|]. exact (Auth _ _ G).
  - intros Hc.
    assert (G : exists v w', getClaudeAccessToken w = (Ok v, w')).
    { destruct (JS.ToBoolean creds) eqn:T.
      - destruct Hc as [Hc|[Hh Ha]]; [discriminate Hc|].
        rewrite (Run eq_refl). unfold bind at 1, greater, JS.greater.
        assert (C : exists y, JS.ToNumber expiry = Some y).
        { destruct expiry as [| |[]| | | |props]; try discriminate Ha;
            try (eexists; reflexivity).
          cbn [hides_toString] in Hh. unfold JS.ToNumber. cbn [JS.ToString].
          destruct (JS.assoc "toString" props); [discriminate Hh|].
          eexists; reflexivity. }
        destruct C as (y & ->). cbn [option_map]. unfold ret at 1.
        destruct (Number.gtb y _); [eexists; eexists; reflexivity|].
        apply try_catch_ret.
      - eexists; eexists. apply (getClaudeAccessToken_falsy w creds Hl T). }
    destruct G as (v & w' & G). exists v, w'. split; [exact G|].
    exact (Auth _ _ G).
Qed.

(** X2. With no usable credential file (the read fails, the file is not
    there, its text is not JSON, or it denotes a value JavaScript takes for
    false, such as [null]), the accessor returns [null] and
    [isAuthenticated] false after the one read of the file: no request is
    sent and the disk is not touched. *)
Theorem no_credential_is_unauthenticated w :
  let p := CREDS_PATH (env w) in
  (io_error (env w) (Sys.now w) <> None \/
   files (disk w) !! p = None \/
   exists f, files (disk w) !! p = Some f /\
     (JSON.parse (content f) = None \/
      exists v, JSON.parse (content f) = Some v /\ JS.ToBoolean v = false)) ->
  getClaudeAccessToken w = (Ok Null, mkWorld (env w) (disk w) (trace w ++ [EvReadFile p])) /\
  isAuthenticated w = (Ok false, mkWorld (env w) (disk w) (trace w ++ [EvReadFile p])).
Proof.
  intros p H.
  assert (L : exists creds, fst (loadCredentials w) = Ok creds
                            /\ JS.ToBoolean creds = false).
  { rewrite loadCredentials_run. cbn [fst]. fold p.
    destruct H as [H | [H | (f & Hf & [H | (v & H & Hv)])]].
    - destruct (io_error (env w) (Sys.now w)); [|congruence].
      exists Null. auto.
    - rewrite H. exists Null. destruct (io_error _ _); auto.
    - rewrite Hf, H. exists Null. destruct (io_error _ _); auto.
    - rewrite Hf, H. destruct (io_error _ _); [exists Null; auto|].
      exists v. auto. }
  destruct L as (creds & Hl & Hc).
  pose proof (getClaudeAccessToken_falsy w creds Hl Hc) as G. fold p in G.
  split; [exact G|].
  unfold isAuthenticated, bind. rewrite G. reflexivity.
Qed.

(** X3. With a stored credential that is fresh, [isAuthenticated] looks at
    nothing but whether the [access_token] is [null]: when the file has no
    [access_token] at all, the accessor returns [undefined] and
    [isAuthenticated] is true all the same; when it has [null] there, both
    say that nobody is authenticated, though the credential is fresh; when
    it has a text, that text is returned. The expiry is a whole number of
    milliseconds that binary64 holds exactly, as is the clock's reading
    plus 60000. *)
Theorem isAuthenticated_on_fresh_credential w f props e :
  io_error (env w) (Sys.now w) = None ->
  files (disk w) !! CREDS_PATH (env w) = Some f ->
  JSON.parse (content f) = Some (Obj props) ->
  JS.assoc "expires_at" props = Some (Num (Number.of_Z e)) ->
  held_exactly e ->
  held_exactly (clock (env w) (S (Sys.now w)) + 60000) ->
  let p := CREDS_PATH (env w) in
  let t := clock (env w) (S (Sys.now w)) in
  t + 60000 < e ->
  let w' := mkWorld (env w) (disk w) (trace w ++ [EvReadFile p; EvNow t]) in
  (JS.assoc "access_token" props = None ->
     getClaudeAccessToken w = (Ok Undefined, w') /\
     isAuthenticated w = (Ok true, w'))
  /\ (JS.assoc "access_token" props = Some Null ->
     getClaudeAccessToken w = (Ok Null, w') /\
     isAuthenticated w = (Ok false, w'))
  /\ (forall a, JS.assoc "access_token" props = Some (Str a) ->
     Text.well_formed a = true ->
     getClaudeAccessToken w = (Ok (Str a), w') /\
     isAuthenticated w = (Ok true, w')).
Proof.
  intros Hio Hf Hp He _ _ p t Hfresh w'.
  pose proof (getClaudeAccessToken_loaded w f (Obj props) Hio Hf Hp eq_refl) as E.
  cbv zeta in E. fold t p in E.
  unfold JS.get in E. rewrite He in E. cbn [default from_option id] in E.
  rewrite NumberFacts.add_of_Z, greater_of_Z in E.
  apply Z.ltb_lt in Hfresh. rewrite Hfresh in E.
  assert (W : Sys.log (EvNow t) (Sys.log (EvReadFile p) w) = w').
  { unfold w', Sys.log. cbn [env disk trace]. rewrite <- app_assoc. reflexivity. }
  rewrite W in E.
  split; [|split].
  - intros Ha. rewrite Ha in E. cbn [default from_option id] in E.
    split; [exact E|]. unfold isAuthenticated, bind. rewrite E. reflexivity.
  - intros Ha. rewrite Ha in E. cbn [default from_option id] in E.
    split; [exact E|]. unfold isAuthenticated, bind. rewrite E. reflexivity.
  - intros a Ha _. rewrite Ha in E. cbn [default from_option id] in E.
    split; [exact E|]. unfold isAuthenticated, bind. rewrite E. reflexivity.
Qed.

(** The refresh-and-save block of the accessor begins with the request. *)
Lemma refresh_and_save_starts r :
  starts_with (EvFetch (json_post (refresh_request_body r)))
    (try_catch
       (let* newCreds := refreshAccessToken r in
        saveCredentials newCreds ;; ret (access_token newCreds))
       (fun _ => ret Null)).
Proof.
  apply starts_with_try.
  - apply starts_with_bind; [apply refreshAccessToken_starts|].
    intros c. apply (emits_any store_or_exchange).
    repeat first [apply emits_saveCredentials | step_emits].
  - intros e. apply emits_ret.
Qed.

(** X4. A stored object that has no [expires_at] is never served from the
    cache: after the file and the clock are read, the refresh request is
    sent. It carries the [refresh_token] of the object when that is a text,
    and no [refresh_token] at all when the object has none. *)
Theorem credential_without_expiry_is_refreshed w f props :
  io_error (env w) (Sys.now w) = None ->
  files (disk w) !! CREDS_PATH (env w) = Some f ->
  JSON.parse (content f) = Some (Obj props) ->
  JS.assoc "expires_at" props = None ->
  let p := CREDS_PATH (env w) in
  let t := clock (env w) (S (Sys.now w)) in
  (JS.assoc "refresh_token" props = None ->
   exists tr,
     trace (snd (getClaudeAccessToken w)) =
       (trace w ++
        [EvReadFile p; EvNow t;
         EvFetch (json_post (refresh_request_body Undefined))] ++ tr)%list)
  /\ (forall r,
       JS.assoc "refresh_token" props = Some (Str r) ->
       Text.well_formed r = true ->
       exists tr,
         trace (snd (getClaudeAccessToken w)) =
           (trace w ++
            [EvReadFile p; EvNow t;
             EvFetch (json_post (refresh_request_body (Str r)))] ++ tr)%list).
Proof.
  intros Hio Hf Hp He p t.
  pose proof (getClaudeAccessToken_loaded w f (Obj props) Hio Hf Hp eq_refl) as E.
  cbv zeta in E. fold p t in E.
  unfold JS.get in E. rewrite He in E. cbn [default from_option id] in E.
  change (JS.greater Undefined _) with (Some false) in E. cbv iota in E.
  assert (St : forall rt,
            default Undefined (JS.assoc "refresh_token" props) = rt ->
            exists tr,
              trace (snd (getClaudeAccessToken w)) =
                (trace w ++
                 [EvReadFile p; EvNow t;
                  EvFetch (json_post (refresh_request_body rt))] ++ tr)%list).
  { intros rt Hrt. rewrite Hrt in E. rewrite E.
    destruct (refresh_and_save_starts rt
                (Sys.log (EvNow t) (Sys.log (EvReadFile p) w))) as (tr & Htr).
    exists tr. rewrite Htr. unfold Sys.log. cbn [trace].
    rewrite <- !app_assoc. reflexivity. }
  split.
  - intros Hr. apply St. rewrite Hr. reflexivity.
  - intros r Hr _. apply St. rewrite Hr. reflexivity.
Qed.

(** A save that throws has left every other file alone, and the credential
    file as it was or cut short. *)
Lemma saveCredentials_throw c w e :
  let p := CREDS_PATH (env w) in
  let w' := snd (saveCredentials c w) in
  fst (saveCredentials c w) = Throw e ->
  (forall q, q <> p -> files (disk w') !! q = files (disk w) !! q) /\
  kept_or_cut w w' p (JSON.stringify_object (Credentials_object c) 2).
Proof.
  intros p w'. unfold kept_or_cut, opened_mode, w'.
  unfold saveCredentials, with_env, bind, try_catch, Sys.mkdir_recursive,
    Sys.writeFile, Sys.chmod, Sys.effect.
  fold p.
  destruct (io_error (env w) (Sys.now w));
    [intros _; split; [reflexivity|left; reflexivity]|].
  destruct (Sys.first_file _ _);
    [intros _; split; [reflexivity|left; reflexivity]|].
  cbn [fst snd env disk files dirs Sys.log Sys.set_disk].
  destruct (io_error (env w) _).
  { destruct (partial (env w) _) as [k|];
      [|intros _; split; [reflexivity|left; reflexivity]].
    destruct (negb _ && _);
      [|intros _; split; [reflexivity|left; reflexivity]].
    intros _. cbn [fst snd env disk files dirs]. split.
    - intros q Hq. apply lookup_insert_ne. congruence.
    - right. exists k. apply lookup_insert_eq. }
  destruct (Sys.is_dir _ _);
    [intros _; split; [reflexivity|left; reflexivity]|].
  destruct (negb _);
    [intros _; split; [reflexivity|left; reflexivity]|].
  cbn [fst snd env disk files dirs Sys.log Sys.set_disk].
  destruct (io_error (env w) _); [discriminate|].
  rewrite lookup_insert_eq. discriminate.
Qed.

(** X5. When the stored credential is not fresh and the endpoint answers
    the refresh with a new credential, but that credential cannot be saved
    (the directory cannot be made, or the write fails), the accessor returns
    [null], not the new access token. No other file has changed; the
    credential file holds the old credential still, unless the write failed
    once the file was open: it then holds the bytes of the new one written
    until then, and the old credential is lost. *)
Theorem unsaved_refresh_is_unauthenticated
    w f props a r d resp data b r2 s e :
  io_error (env w) (Sys.now w) = None ->
  files (disk w) !! CREDS_PATH (env w) = Some f ->
  JSON.parse (content f) = Some (Obj props) ->
  JS.assoc "access_token" props = Some a ->
  JS.assoc "refresh_token" props = Some (Str r) ->
  Text.well_formed r = true ->
  JS.assoc "expires_at" props = Some (Num (Fin d)) ->
  let p := CREDS_PATH (env w) in
  let n := Sys.now w in
  ~ (inject_Z (clock (env w) (S n) + 60000) < Number.dval d)%Q ->
  network (env w) (n + 2) (json_post (refresh_request_body (Str r))) = Resolved resp ->
  ok resp = true ->
  JSON.parse (text resp) = Some data ->
  JS.get data "access_token" = Some (Str b) ->
  JS.get data "refresh_token" = Some (Str r2) ->
  JS.get data "expires_in" = Some (Num (Number.of_Z s)) ->
  let expiry := clock (env w) (n + 3) + s * 1000 in
  0 <= expiry < 2 ^ 53 ->
  let c := mkCredentials (Str b) (Str r2) (Number.of_Z expiry) in
  fst (saveCredentials c
         (mkWorld (env w) (disk w)
            (trace w ++
             [EvReadFile p; EvNow (clock (env w) (S n));
              EvFetch (json_post (refresh_request_body (Str r)));
              EvNow (clock (env w) (n + 3))])%list))
    = Throw e ->
  exists w',
    getClaudeAccessToken w = (Ok Null, w') /\
    (forall q, q <> p -> files (disk w') !! q = files (disk w) !! q) /\
    (files (disk w') !! p = Some f \/
     exists k,
       files (disk w') !! p
       = Some (File (substring 0 k
                       (JSON.stringify_object (Credentials_object c) 2))
                 (mode f))).
Proof.
  intros Hio Hf Hp Ha Hr _ He p n Hstale Hn Hok Hpr HB HR Hei expiry _ c Hsave.
  rewrite (getClaudeAccessToken_stale w f props a (Str r) d
             Hio Hf Hp Ha Hr He Hstale).
  fold p n. unfold try_catch, bind at 1.
  assert (L2 : Sys.now (mkWorld (env w) (disk w)
                 (trace w ++ [EvReadFile p; EvNow (clock (env w) (S n))])%list)
               = (n + 2)%nat).
  { unfold Sys.now, n. cbn [trace]. rewrite length_app. reflexivity. }
  destruct (expiry_of_Z (clock (env w) (n + 3)) s) as (ms & Hms & Hsum).
  rewrite (refreshAccessToken_ok (Str r) resp data (Str b) (Str r2)
             (Num (Number.of_Z s)) ms);
    cbn [env disk]; rewrite ?L2; auto.
  cbv zeta. cbn [env disk trace].
  replace (S (n + 2)) with (n + 3)%nat by lia. rewrite Hsum.
  fold expiry. fold c.
  rewrite <- app_assoc. cbn [app].
  unfold bind at 1.
  pose proof (saveCredentials_throw c _ e Hsave) as Kept. cbv zeta in Kept.
  unfold kept_or_cut, opened_mode in Kept.
  cbn [env disk] in Kept. rewrite Hf in Kept.
  destruct (saveCredentials c _) as [[u|e'] w4]; cbn [fst snd] in *.
  - discriminate Hsave.
  - exists w4. split; [reflexivity|]. exact Kept.
Qed.

(** *** The credential store: clear, and save followed by load *)

(** What [clearCredentials] does in [w]. *)
Lemma clearCredentials_run w :
  let p := CREDS_PATH (env w) in
  clearCredentials w =
    (Ok tt,
     mkWorld (env w)
       (match io_error (env w) (Sys.now w), files (disk w) !! p with
        | None, Some _ => mkDisk (dirs (disk w)) (delete p (files (disk w)))
        | _, _ => disk w
        end)
       (trace w ++ [EvUnlink p])).
Proof.
  intros p. unfold clearCredentials, with_env, try_catch, Sys.unlink, Sys.effect.
  fold p.
  destruct (io_error (env w) (Sys.now w)); [reflexivity|].
  destruct (files (disk w) !! p); reflexivity.
Qed.

(** X6. [clearCredentials] never throws. It makes one [unlink] call on the
    credential file; if the call goes through the file is gone, and if it
    is refused (or there was no file) the disk is as it was, the caller not
    being told. In either case the directories and every other file are
    left alone. *)
Theorem clearCredentials_contract w :
  let p := CREDS_PATH (env w) in
  exists w',
    clearCredentials w = (Ok tt, w') /\
    trace w' = (trace w ++ [EvUnlink p])%list /\
    dirs (disk w') = dirs (disk w) /\
    (forall q, q <> p -> files (disk w') !! q = files (disk w) !! q) /\
    (io_error (env w) (Sys.now w) = None -> files (disk w') !! p = None) /\
    (io_error (env w) (Sys.now w) <> None -> disk w' = disk w).
Proof.
  intros p. eexists. split; [apply clearCredentials_run|]. fold p.
  cbn [trace disk]. split; [reflexivity|].
  destruct (io_error (env w) (Sys.now w)) as [e|].
  - repeat split; try reflexivity; congruence.
  - destruct (files (disk w) !! p) eqn:F; cbn [dirs files].
    + split; [reflexivity|]. split; [|split].
      * intros q Hq. apply lookup_delete_ne. congruence.
      * intros _. apply lookup_delete_eq.
      * congruence.
    + split; [reflexivity|]. split; [reflexivity|]. split; [auto|congruence].
Qed.

(** The accessor when there is no credential file. *)
Lemma getClaudeAccessToken_no_file w :
  files (disk w) !! CREDS_PATH (env w) = None ->
  getClaudeAccessToken w
  = (Ok Null, Sys.log (EvReadFile (CREDS_PATH (env w))) w).
Proof.
  intros H. apply getClaudeAccessToken_falsy with (creds := Null);
    [|reflexivity].
  rewrite loadCredentials_run, H. destruct (io_error _ _); reflexivity.
Qed.

(** X7. After [clearCredentials], if the [unlink] was not refused, the
    accessor returns [null] and [isAuthenticated] false: the file is read
    for (and not found), and no request is sent. *)
Theorem cleared_store_is_unauthenticated w :
  io_error (env w) (Sys.now w) = None ->
  let p := CREDS_PATH (env w) in
  exists d,
    (clearCredentials ;; getClaudeAccessToken) w
    = (Ok Null, mkWorld (env w) d (trace w ++ [EvUnlink p; EvReadFile p])) /\
    (clearCredentials ;; isAuthenticated) w
    = (Ok false, mkWorld (env w) d (trace w ++ [EvUnlink p; EvReadFile p])) /\
    files d !! p = None.
Proof.
  intros Hio p.
  pose proof (clearCredentials_run w) as C. cbv zeta in C. fold p in C.
  rewrite Hio in C.
  set (d := match files (disk w) !! p with
            | Some _ => mkDisk (dirs (disk w)) (delete p (files (disk w)))
            | None => disk w
            end) in C.
  assert (Gone : files d !! p = None).
  { unfold d. destruct (files (disk w) !! p) eqn:F; [|exact F].
    apply lookup_delete_eq. }
  exists d.
  pose proof (getClaudeAccessToken_no_file
                (mkWorld (env w) d (trace w ++ [EvUnlink p])) Gone) as G.
  unfold Sys.log in G. cbn [env disk trace] in G. fold p in G.
  rewrite <- app_assoc in G. cbn [app] in G.
  split; [|split; [|exact Gone]].
  - unfold bind. rewrite C. exact G.
  - unfold isAuthenticated, bind. rewrite C, G. reflexivity.
Qed.

(** X8. What is saved is what is loaded: when [saveCredentials] goes
    through for a credential whose tokens are strings and whose expiry is a
    whole number of milliseconds (below 2^53), a [loadCredentials] that
    follows and can read the file yields an object with exactly these three
    fields and these values. *)
Theorem saved_credential_loads_back w a r m :
  let p := CREDS_PATH (env w) in
  let n := Sys.now w in
  let c := mkCredentials (Str a) (Str r) (Number.of_Z m) in
  plain a = true -> plain r = true -> 0 <= m < 2 ^ 53 ->
  io_error (env w) n = None ->
  clear_way (disk w) p = true ->
  io_error (env w) (S n) = None ->
  io_error (env w) (n + 3) = None ->
  exists w',
    (saveCredentials c ;; loadCredentials) w
    = (Ok (Obj [("access_token", Str a); ("refresh_token", Str r);
                ("expires_at", Num (Number.of_Z m))]), w') /\
    trace w' = (trace w ++
                [EvMkdir (Sys.dirname p);
                 EvWriteFile p (JSON.stringify_object (Credentials_object c) 2);
                 EvChmod p 0x180; EvReadFile p])%list.
Proof.
  intros p n c Pa Pr Hm Hmk Hway Hwr Hrd.
  assert (Flat : flat [] (Credentials_object c) = true).
  { cbn [flat Credentials_object simple access_token refresh_token expires_at c
         Number.of_Z].
    rewrite Pa, Pr.
    replace (0 <=? m) with true by (symmetry; apply Z.leb_le; lia).
    replace (m <? 10 ^ 21) with true by (symmetry; apply Z.ltb_lt; lia).
    reflexivity. }
  pose proof (saveCredentials_run w c Hmk Hway) as Sv. cbv zeta in Sv.
  fold p n in Sv. rewrite Hwr in Sv.
  unfold bind. rewrite Sv, loadCredentials_run.
  cbn [env disk].
  match goal with |- context [Sys.now ?x] =>
    replace (Sys.now x) with (n + 3)%nat
      by (unfold n, Sys.now; cbn [trace]; rewrite length_app; reflexivity)
  end.
  rewrite Hrd.
  fold p. unfold saved_disk. cbn [files]. rewrite lookup_insert_eq.
  cbn [content].
  rewrite JSONFacts.parse_stringify_flat by (discriminate || exact Flat).
  eexists. split; [reflexivity|].
  unfold Sys.log. cbn [trace]. rewrite <- app_assoc. reflexivity.
Qed.

(** X9. When the directory of the credential file cannot be made,
    [saveCredentials] throws the error of [mkdir] and stops there: no write
    and no [chmod] is attempted, and no file has changed. Directories on the
    way may have been made before the failure, and none is removed. When it
    is a regular file that stands in the way, the error is EEXIST if the
    file is where the directory should be, and ENOTDIR if it is above. *)
Theorem saveCredentials_without_directory w c e :
  let p := CREDS_PATH (env w) in
  fst (Sys.mkdir_recursive (Sys.dirname p) w) = Throw e ->
  exists w',
    saveCredentials c w = (Throw e, w') /\
    trace w' = (trace w ++ [EvMkdir (Sys.dirname p)])%list /\
    files (disk w') = files (disk w) /\
    dirs (disk w) ⊆ dirs (disk w') /\
    (forall q, q ∈ dirs (disk w') ->
               q ∈ dirs (disk w) \/ In q (Sys.ancestors (Sys.dirname p))) /\
    (io_error (env w) (Sys.now w) = None ->
     exists q,
       Sys.first_file (disk w) (Sys.ancestors (Sys.dirname p)) = Some q /\
       e = SystemError (if bool_decide (q = Sys.dirname p) then "EEXIST"
                        else "ENOTDIR")).
Proof.
  intros p. unfold saveCredentials, with_env, bind. fold p.
  unfold Sys.mkdir_recursive, Sys.effect.
  assert (Made : forall l,
            (forall q, In q l -> In q (Sys.ancestors (Sys.dirname p))) ->
            dirs (disk w) ⊆ dirs (disk w) ∪ list_to_set l /\
            (forall q, q ∈ dirs (disk w) ∪ list_to_set l ->
                       q ∈ dirs (disk w) \/ In q (Sys.ancestors (Sys.dirname p)))).
  { intros l Hl. split; [set_solver|].
    intros q [Hq|Hq]%elem_of_union; [left; exact Hq|right].
    apply Hl, list_elem_of_In. apply elem_of_list_to_set in Hq. exact Hq. }
  destruct (io_error (env w) (Sys.now w)) as [e'|].
  - cbn [fst]. intros [= ->]. eexists. split; [reflexivity|].
    cbn [Sys.log Sys.set_disk trace disk files dirs env].
    split; [reflexivity|]. split; [reflexivity|].
    destruct (Made (firstn (default O (partial (env w) (Sys.now w)))
                      (Sys.before_file (disk w)
                         (Sys.ancestors (Sys.dirname p))))) as [M1 M2].
    { intros q Hq. apply (SysFacts.before_file_incl (disk w)).
      exact (SysFacts.firstn_incl _ _ _ Hq). }
    split; [exact M1|]. split; [exact M2|]. discriminate.
  - destruct (Sys.first_file _ _) as [q|] eqn:F; cbn [fst]; [|discriminate].
    intros [= <-]. eexists. split; [reflexivity|].
    cbn [Sys.log Sys.set_disk trace disk files dirs env].
    split; [reflexivity|]. split; [reflexivity|].
    destruct (Made (Sys.before_file (disk w) (Sys.ancestors (Sys.dirname p))))
      as [M1 M2].
    { intros x. apply SysFacts.before_file_incl. }
    split; [exact M1|]. split; [exact M2|].
    intros _. exists q. split; reflexivity.
Qed.


(** *** The token exchanger: failures, and what a success takes *)

Lemma ok_status r : ok r = true <-> 200 <= status r <= 299.
Proof.
  unfold ok. rewrite andb_true_iff, !Z.leb_le. reflexivity.
Qed.

(** X11. Both exchanges fail the same way. A status outside 200..299 makes
    them throw an [Error] whose message is "Token exchange failed: " (for
    the code) or "Token refresh failed: " (for the refresh) followed by the
    status text; a request that is rejected throws what it was rejected
    with. In both cases the body is not parsed, the clock is not read, and
    the request is the only thing that happened. *)
Theorem exchanges_fail_on_bad_status w code v rt :
  let n := Sys.now w in
  let by_code := json_post (code_request_body code v) in
  let by_refresh := json_post (refresh_request_body rt) in
  (forall resp,
     network (env w) n by_code = Resolved resp ->
     status resp < 200 \/ 299 < status resp ->
     exchangeCodeForTokens code v w
     = (Throw (Error ("Token exchange failed: " ^^ statusText resp)),
        mkWorld (env w) (disk w) (trace w ++ [EvFetch by_code])))
  /\ (forall resp,
     network (env w) n by_refresh = Resolved resp ->
     status resp < 200 \/ 299 < status resp ->
     refreshAccessToken rt w
     = (Throw (Error ("Token refresh failed: " ^^ statusText resp)),
        mkWorld (env w) (disk w) (trace w ++ [EvFetch by_refresh])))
  /\ (forall e,
     network (env w) n by_code = Rejected e ->
     exchangeCodeForTokens code v w
     = (Throw e, mkWorld (env w) (disk w) (trace w ++ [EvFetch by_code])))
  /\ (forall e,
     network (env w) n by_refresh = Rejected e ->
     refreshAccessToken rt w
     = (Throw e, mkWorld (env w) (disk w) (trace w ++ [EvFetch by_refresh]))).
Proof.
  intros n by_code by_refresh.
  assert (Bad : forall resp, status resp < 200 \/ 299 < status resp ->
                             ok resp = false).
  { intros resp H. destruct (ok resp) eqn:E; [|reflexivity].
    apply ok_status in E. lia. }
  repeat split.
  - intros resp Hn Hs. unfold exchangeCodeForTokens, bind.
    rewrite fetch_run. fold n by_code. rewrite Hn, (Bad resp Hs). reflexivity.
  - intros resp Hn Hs. unfold refreshAccessToken, bind.
    rewrite fetch_run. fold n by_refresh. rewrite Hn, (Bad resp Hs). reflexivity.
  - intros e Hn. unfold exchangeCodeForTokens, bind.
    rewrite fetch_run. fold n by_code. rewrite Hn. reflexivity.
  - intros e Hn. unfold refreshAccessToken, bind.
    rewrite fetch_run. fold n by_refresh. rewrite Hn. reflexivity.
Qed.

(** What both exchanges make of a response, if anything. *)
Lemma credentials_of_response_inv data c w w' :
  credentials_of_response data w = (Ok c, w') ->
  JS.get data "access_token" = Some (access_token c) /\
  JS.get data "refresh_token" = Some (refresh_token c) /\
  (exists ei ms,
     JS.get data "expires_in" = Some ei /\
     JS.times ei (Number.of_Z 1000) = Some ms /\
     expires_at c = Number.add (Number.of_Z (clock (env w) (Sys.now w))) ms) /\
  w' = Sys.log (EvNow (clock (env w) (Sys.now w))) w.
Proof.
  unfold credentials_of_response, prop, times.
  destruct (JS.get data "access_token") as [a|] eqn:Ha; [|discriminate].
  destruct (get_total _ _ _ Ha "refresh_token") as (r & Hr).
  destruct (get_total _ _ _ Ha "expires_in") as (ei & He).
  rewrite Hr, He. unfold bind, ret, Sys.Date_now.
  destruct (JS.times ei (Number.of_Z 1000)) as [ms|] eqn:Hm; [|discriminate].
  intros [= <- <-].
  split; [reflexivity|]. split; [reflexivity|]. split; [|reflexivity].
  exists ei, ms. repeat split; assumption.
Qed.

(** X12. An exchange yields a credential only if the request was answered
    with a status in 200..299 and a body that is JSON and not [null], whose
    [expires_in] converts to a number; the credential then has the
    [access_token] and [refresh_token] of that body as they are (whatever
    they are: they are not checked), and an expiry counted from the clock
    read after the response: for a whole number of seconds, that reading
    plus a thousand times the number. Nothing is written. *)
Theorem exchange_success_inversion w code v rt c w' :
  (exchangeCodeForTokens code v w = (Ok c, w') ->
   made_of_response w (json_post (code_request_body code v)) c w')
  /\ (refreshAccessToken rt w = (Ok c, w') ->
      made_of_response w (json_post (refresh_request_body rt)) c w').
Proof.
  assert (Inv : forall req msg,
    (let* response := Sys.fetch req in
     if negb (ok response) then throw (Error (msg ^^ statusText response))
     else let* data := JSON_parse (text response) in
          credentials_of_response data) w = (Ok c, w') ->
    made_of_response w req c w').
  { intros req msg. unfold bind at 1. rewrite fetch_run.
    destruct (network (env w) (Sys.now w) req) as [e|resp] eqn:Hn;
      [discriminate|].
    destruct (ok resp) eqn:Hok; cbn [negb]; [|discriminate].
    unfold bind, JSON_parse.
    destruct (JSON.parse (text resp)) as [data|] eqn:Hp; [|discriminate].
    unfold ret at 1. intros H.
    apply credentials_of_response_inv in H
      as (Ha & Hr & (ei & ms & He & Hm & Hx) & ->).
    rewrite SysFacts.now_log in Hx. cbn [env Sys.log] in Hx.
    unfold JS.times in Hm.
    destruct (JS.ToNumber ei) as [lifetime|] eqn:Hc; [|discriminate].
    exists resp, data, ei, lifetime. apply ok_status in Hok.
    repeat (split; [first [reflexivity | assumption | lia]|]).
    split.
    - intros s -> _. rewrite Hx. injection Hc as <-.
      cbn [option_map] in Hm. injection Hm as <-.
      exact (NumberFacts.add_of_Z _ (s * 1000)).
    - rewrite SysFacts.now_log. unfold Sys.log. cbn [env disk trace].
      rewrite <- app_assoc. reflexivity. }
  split; apply Inv.
Qed.

(** *** What is sent: more delimiters, and the refresh request *)

(** The part before the first delimiter is the first element. *)
Lemma split_first a rest :
  Text.contains "#" a = false ->
  Text.split "#" (a ^^ "#" ^^ rest) = a :: Text.split "#" rest.
Proof.
  intros Ha. induction a as [|c a IH].
  - reflexivity.
  - cbn [Text.contains] in Ha. apply orb_false_iff in Ha as [Hc Ha].
    change (String c a ^^ "#" ^^ rest) with (String c (a ^^ "#" ^^ rest)).
    cbn [Text.split]. rewrite Hc, (IH Ha). reflexivity.
Qed.

(** X13. Only the first two parts of the pasted text are used: of
    [authCode#state#rest] the exchange by code sends [authCode] as [code]
    and [state] as [state], exactly as for [authCode#state], and [rest]
    (which may hold more delimiters) is dropped without notice. *)
Theorem exchangeCodeForTokens_drops_third_part authCode state rest v w :
  Text.contains "#" authCode = false ->
  Text.contains "#" state = false ->
  code_request_body (authCode ^^ "#" ^^ state ^^ "#" ^^ rest) v
  = compound_code_body authCode state v
  /\ exchangeCodeForTokens (authCode ^^ "#" ^^ state ^^ "#" ^^ rest) v w
     = exchangeCodeForTokens (authCode ^^ "#" ^^ state) v w.
Proof.
  intros Ha Hs.
  assert (E : code_request_body (authCode ^^ "#" ^^ state ^^ "#" ^^ rest) v
              = compound_code_body authCode state v).
  { unfold code_request_body.
    rewrite (split_first authCode _ Ha), (split_first state _ Hs).
    reflexivity. }
  assert (E2 : code_request_body (authCode ^^ "#" ^^ state) v
               = compound_code_body authCode state v).
  { unfold code_request_body. rewrite (split_compound _ _ Ha Hs). reflexivity. }
  split; [exact E|].
  unfold exchangeCodeForTokens. rewrite E, E2. reflexivity.
Qed.

(** X14. The refresh is a POST of JSON to the token endpoint, and it is the
    first thing [refreshAccessToken] does. For a plain string the body
    reads back as the grant type "refresh_token", that string as
    [refresh_token], and the client id; when the token passed is
    [undefined] (the store had none), the body has no [refresh_token] at
    all, and the request is sent all the same. *)
Theorem refreshAccessToken_request rt w :
  (exists tr,
     trace (snd (refreshAccessToken rt w)) =
       (trace w ++
        EvFetch (mkRequest "https://console.anthropic.com/v1/oauth/token"
                   "POST" [("Content-Type", "application/json")]
                   (refresh_request_body rt)) :: tr)%list)
  /\ (forall r, rt = Str r -> plain r = true ->
      JSON.parse (refresh_request_body rt)
      = Some (Obj [("grant_type", Str "refresh_token");
                   ("refresh_token", Str r);
                   ("client_id", Str CLIENT_ID)]))
  /\ (rt = Undefined ->
      JSON.parse (refresh_request_body rt)
      = Some (Obj [("grant_type", Str "refresh_token");
                   ("client_id", Str CLIENT_ID)])).
Proof.
  split; [apply refreshAccessToken_starts|]. split.
  - intros r -> Pr. apply JSONFacts.parse_stringify_flat; [discriminate|].
    cbn [flat simple]. rewrite Pr. reflexivity.
  - intros ->. vm_compute. reflexivity.
Qed.

(** *** The authorization URL *)

Module UrlFacts.
Import Url.

Lemma all_chars_app p a b :
  all_chars p (a ^^ b) = all_chars p a && all_chars p b.
Proof.
  induction a as [|c a IH]; [reflexivity|].
  rewrite JSONFacts.append_cons. cbn [all_chars]. rewrite IH.
  apply andb_assoc.
Qed.

Lemma encode_cons c r :
  encode (String c r) = encode (String c EmptyString) ^^ encode r.
Proof.
  cbn [encode]. destruct (unreserved c); [reflexivity|].
  destruct (Ascii.eqb c " "); reflexivity.
Qed.

(** The serializer writes nothing but unreserved characters, ['+'] and
    percent escapes. *)
Lemma encode_char_safe c :
  all_chars form_char (encode (String c EmptyString)) = true.
Proof. destruct c as [[] [] [] [] [] [] [] []]; reflexivity. Qed.

Lemma encode_safe s : all_chars form_char (encode s) = true.
Proof.
  induction s as [|c s IH]; [reflexivity|].
  rewrite encode_cons, all_chars_app, encode_char_safe, IH. reflexivity.
Qed.

(** The characters of the base64url alphabet are written as they are. *)
Lemma url_safe_unreserved c : url_safe c = true -> unreserved c = true.
Proof.
  unfold url_safe, unreserved. intros H.
  repeat (apply orb_true_iff in H as [H|H]); rewrite H;
    rewrite ?orb_true_r; reflexivity.
Qed.

Lemma encode_url_safe s : all_chars url_safe s = true -> encode s = s.
Proof.
  induction s as [|c s IH]; [reflexivity|].
  cbn [all_chars encode]. intros H. apply andb_true_iff in H as [Hc Hs].
  rewrite (url_safe_unreserved c Hc), (IH Hs). reflexivity.
Qed.

Lemma all_chars_weaken (p q : ascii -> bool) s :
  (forall c, p c = true -> q c = true) ->
  all_chars p s = true -> all_chars q s = true.
Proof.
  intros H. induction s as [|c s IH]; [reflexivity|].
  cbn [all_chars]. intros Hs. apply andb_true_iff in Hs as [Hc Hs].
  rewrite (H c Hc), (IH Hs). reflexivity.
Qed.

Lemma split_none sep s :
  Text.contains sep s = false -> Text.split sep s = [s].
Proof.
  induction s as [|c s IH]; [reflexivity|].
  cbn [Text.contains Text.split]. intros H.
  apply orb_false_iff in H as [Hc Hs].
  rewrite Hc, (IH Hs). reflexivity.
Qed.

Lemma split_head sep a rest :
  Text.contains sep a = false ->
  Text.split sep (a ^^ String sep rest) = a :: Text.split sep rest.
Proof.
  intros Ha. induction a as [|c a IH].
  - rewrite JSONFacts.append_nil_l. cbn [Text.split].
    rewrite Ascii.eqb_refl. reflexivity.
  - cbn [Text.contains] in Ha. apply orb_false_iff in Ha as [Hc Ha].
    rewrite JSONFacts.append_cons. cbn [Text.split].
    rewrite Hc, (IH Ha). reflexivity.
Qed.

(** A list of texts free of the separator is what its joined text splits
    into. *)
Lemma split_join sep (items : list string) :
  items <> [] ->
  Forall (fun s => Text.contains sep s = false) items ->
  Text.split sep (JSON.join (String sep EmptyString) items) = items.
Proof.
  intros N H. induction H as [|x l Hx Hl IH]; [congruence|].
  destruct l as [|y l].
  - cbn [JSON.join]. apply split_none, Hx.
  - change (JSON.join (String sep EmptyString) (x :: y :: l))
      with (x ^^ String sep EmptyString
              ^^ JSON.join (String sep EmptyString) (y :: l)).
    change (String sep EmptyString ^^ ?r) with (String sep r).
    rewrite (split_head sep x _ Hx), IH by discriminate. reflexivity.
Qed.

Lemma no_ampersand s : Text.contains "&" (encode s) = false.
Proof.
  apply (contains_excluded form_char); [apply encode_safe|reflexivity].
Qed.

Lemma contains_app c a b :
  Text.contains c (a ^^ b) = Text.contains c a || Text.contains c b.
Proof.
  induction a as [|x a IH]; [reflexivity|].
  rewrite JSONFacts.append_cons. cbn [Text.contains]. rewrite IH.
  apply orb_assoc.
Qed.

(** The URL is the endpoint, a question mark and the parameters joined by
    ['&']. *)
Lemma getAuthorizationURL_query pkce :
  getAuthorizationURL pkce
  = "https://claude.ai/oauth/authorize?"
      ^^ JSON.join "&" (authorization_parameters pkce).
Proof. reflexivity. Qed.

Lemma parameters_free pkce :
  Forall (fun s => Text.contains "&" s = false) (authorization_parameters pkce).
Proof.
  unfold authorization_parameters.
  repeat constructor; rewrite ?contains_app, ?no_ampersand; reflexivity.
Qed.

End UrlFacts.

(** X15. Whatever the pair holds, the authorization URL is the fixed
    endpoint followed by ['?'] and a query of exactly eight parameters, in
    this order: [code], [client_id], [response_type], [redirect_uri],
    [scope], [code_challenge], [code_challenge_method] and [state], the
    challenge and the verifier being percent-encoded so that nothing in
    them can end a parameter or start another. Texts of the base64url
    alphabet are written as they are. *)
Theorem getAuthorizationURL_parameters pkce :
  exists query,
    getAuthorizationURL pkce = "https://claude.ai/oauth/authorize?" ^^ query /\
    Text.split "&" query = authorization_parameters pkce /\
    (all_chars url_safe (challenge pkce) = true ->
     all_chars url_safe (verifier pkce) = true ->
     Text.split "&" query
     = ["code=true";
        "client_id=9d1c250a-e61b-44d9-88ed-5944d1962f5e";
        "response_type=code";
        "redirect_uri=https%3A%2F%2Fconsole.anthropic.com%2Foauth%2Fcode%2Fcallback";
        "scope=org%3Acreate_api_key+user%3Aprofile+user%3Ainference";
        "code_challenge=" ^^ challenge pkce;
        "code_challenge_method=S256";
        "state=" ^^ verifier pkce]).
Proof.
  exists (JSON.join "&" (authorization_parameters pkce)).
  split; [apply UrlFacts.getAuthorizationURL_query|].
  assert (S : Text.split "&" (JSON.join "&" (authorization_parameters pkce))
              = authorization_parameters pkce).
  { apply UrlFacts.split_join; [discriminate|apply UrlFacts.parameters_free]. }
  split; [exact S|].
  intros Hc Hv. rewrite S. unfold authorization_parameters.
  rewrite (UrlFacts.encode_url_safe _ Hc), (UrlFacts.encode_url_safe _ Hv).
  reflexivity.
Qed.

Lemma all_chars_join p sep l :
  all_chars p sep = true ->
  Forall (fun s => all_chars p s = true) l ->
  all_chars p (JSON.join sep l) = true.
Proof.
  intros Hsep H. induction H as [|x l Hx Hl IH]; [reflexivity|].
  destruct l as [|y l]; [exact Hx|].
  change (JSON.join sep (x :: y :: l)) with (x ^^ sep ^^ JSON.join sep (y :: l)).
  rewrite !UrlFacts.all_chars_app, Hx, Hsep, IH. reflexivity.
Qed.

Lemma authorization_url_chars pkce :
  all_chars url_char (getAuthorizationURL pkce) = true.
Proof.
  assert (E : forall k s, all_chars url_char k = true ->
                          all_chars url_char (k ^^ Url.encode s) = true).
  { intros k s Hk. rewrite UrlFacts.all_chars_app, Hk.
    apply (UrlFacts.all_chars_weaken form_char);
      [|apply UrlFacts.encode_safe].
    intros c H. unfold url_char. rewrite H. reflexivity. }
  rewrite UrlFacts.getAuthorizationURL_query, UrlFacts.all_chars_app.
  apply andb_true_iff. split; [vm_compute; reflexivity|].
  apply all_chars_join; [vm_compute; reflexivity|].
  unfold authorization_parameters.
  repeat (constructor;
          [lazymatch goal with
           | |- all_chars _ (_ ^^ Url.encode _) = true => apply E
           | _ => idtac
           end; vm_compute; reflexivity|]).
  constructor.
Qed.

(** What [openUrl] does in [w]. *)
Lemma openUrl_run url w :
  openUrl url w
  = (match io_error (env w) (Sys.now w) with
     | Some e => Throw e
     | None => Ok tt
     end,
     Sys.log (EvExec (launcher (platform (env w)) ^^ dq ^^ url ^^ dq)) w).
Proof.
  unfold openUrl, with_env, Sys.exec, Sys.effect, launcher.
  destruct (String.eqb (platform (env w)) "darwin");
    [|destruct (String.eqb (platform (env w)) "win32")];
    rewrite ?JSONFacts.append_assoc;
    destruct (io_error (env w) (Sys.now w)); destruct w; reflexivity.
Qed.

(** X16. The authorization URL is made of letters, digits and
    [* - . _ + % : / ? & =] only, whatever the pair holds: it has no double
    quote, space, backslash, dollar, backquote or the like. [openUrl] runs
    one command, the launcher of the platform ([open] on darwin, [start]
    with an empty title on win32, [xdg-open] elsewhere) followed by the URL
    between double quotes, which the URL therefore cannot close; it throws
    what the launch fails with, and touches no file. *)
Theorem openUrl_authorization_command pkce w :
  let url := getAuthorizationURL pkce in
  all_chars url_char url = true /\
  (forall c, url_char c = false -> Text.contains c url = false) /\
  Text.contains "034" url = false /\
  openUrl url w
  = (match io_error (env w) (Sys.now w) with
     | Some e => Throw e
     | None => Ok tt
     end,
     mkWorld (env w) (disk w)
       (trace w ++
        [EvExec ((if String.eqb (platform (env w)) "darwin" then "open "
                  else if String.eqb (platform (env w)) "win32"
                  then "start " ^^ dq ^^ dq ^^ " "
                  else "xdg-open ")
                 ^^ dq ^^ url ^^ dq)])).
Proof.
  intros url.
  pose proof (authorization_url_chars pkce) as C. fold url in C.
  split; [exact C|]. split; [|split].
  - intros c Hc. apply (contains_excluded url_char); assumption.
  - apply (contains_excluded url_char); [exact C|reflexivity].
  - clearbody url. exact (openUrl_run url w).
Qed.

Module EncodeFacts.
Import Url.

(** A hexadecimal digit as the serializer writes it reads back as its
    value. *)
Lemma hex_back n :
  (n < 16)%N -> Text.digit_val (Text.upper_hex_digit n) = Some (Z.of_N n).
Proof.
  intros H.
  assert (C : In n (map N.of_nat (seq 0 16))).
  { apply in_map_iff. exists (N.to_nat n). split; [lia|].
    apply in_seq. lia. }
  cbn in C.
  repeat (destruct C as [<-|C]; [reflexivity|]). destruct C.
Qed.

Lemma hex_inj n m :
  (n < 16)%N -> (m < 16)%N ->
  Text.upper_hex_digit n = Text.upper_hex_digit m -> n = m.
Proof.
  intros Hn Hm E. pose proof (hex_back n Hn) as A.
  rewrite E, (hex_back m Hm) in A. injection A as A. lia.
Qed.

Lemma code_by_nibbles c d :
  (Text.code c / 16 = Text.code d / 16)%N ->
  (Text.code c mod 16 = Text.code d mod 16)%N ->
  c = d.
Proof.
  intros Hq Hr. apply code_inj.
  rewrite (N.div_mod (Text.code c) 16), (N.div_mod (Text.code d) 16) by lia.
  rewrite Hq, Hr. reflexivity.
Qed.

Lemma nibbles c : (Text.code c / 16 < 16 /\ Text.code c mod 16 < 16)%N.
Proof.
  pose proof (code_bound c) as B. split.
  - apply N.Div0.div_lt_upper_bound. exact B.
  - apply N.mod_lt. lia.
Qed.

Lemma encode_nonempty c s : encode (String c s) <> EmptyString.
Proof.
  cbn [encode]. destruct (unreserved c); [discriminate|].
  destruct (Ascii.eqb c " "); discriminate.
Qed.

(** Different texts are written differently. *)
Lemma encode_inj s : forall t, encode s = encode t -> s = t.
Proof.
  induction s as [|c s IH]; intros [|d t] E.
  - reflexivity.
  - symmetry in E. destruct (encode_nonempty _ _ E).
  - destruct (encode_nonempty _ _ E).
  - cbn [encode] in E.
    destruct (unreserved c) eqn:Uc, (unreserved d) eqn:Ud.
    + injection E as -> E. f_equal. apply IH, E.
    + destruct (Ascii.eqb d " "); injection E as -> _; discriminate Uc.
    + destruct (Ascii.eqb c " "); injection E as <- _; discriminate Ud.
    + destruct (Ascii.eqb_spec c " ") as [->|Sc],
               (Ascii.eqb_spec d " ") as [->|Sd];
        try discriminate E.
      * injection E as E. f_equal. apply IH, E.
      * injection E as H1 H2 E. f_equal; [|apply IH, E].
        destruct (nibbles c) as [C1 C2], (nibbles d) as [D1 D2].
        apply code_by_nibbles; apply hex_inj; assumption.
Qed.

Lemma append_inv_head a x y : a ^^ x = a ^^ y -> x = y.
Proof.
  induction a as [|c a IH]; [auto|].
  rewrite !JSONFacts.append_cons. intros [= E]. apply IH, E.
Qed.

End EncodeFacts.

(** X17. Different pairs give different authorization URLs: the URL
    determines the challenge and the verifier it was made from. *)
Theorem getAuthorizationURL_inj p1 p2 :
  getAuthorizationURL p1 = getAuthorizationURL p2 -> p1 = p2.
Proof.
  rewrite !UrlFacts.getAuthorizationURL_query. intros E.
  apply EncodeFacts.append_inv_head in E.
  apply (f_equal (Text.split "&")) in E.
  rewrite !UrlFacts.split_join in E
    by (discriminate || apply UrlFacts.parameters_free).
  unfold authorization_parameters in E.
  injection E as Ec Ev.
  apply EncodeFacts.append_inv_head, EncodeFacts.encode_inj in Ec.
  apply EncodeFacts.append_inv_head, EncodeFacts.encode_inj in Ev.
  destruct p1 as [v1 c1], p2 as [v2 c2].
  cbn [challenge verifier] in Ec, Ev. subst. reflexivity.
Qed.

(** *** The digest and the challenge *)

Module DigestFacts.
Import Crypto.

Lemma round_length st kw : length st = 8%nat -> length (round st kw) = 8%nat.
Proof.
  intros H. do 9 (destruct st as [|? st]; try discriminate H). reflexivity.
Qed.

Lemma rounds_length l : forall st,
  length st = 8%nat -> length (fold_left round l st) = 8%nat.
Proof.
  induction l as [|kw l IH]; intros st H; [exact H|].
  cbn [fold_left]. apply IH, round_length, H.
Qed.

Lemma zip_with_length {A B C} (f : A -> B -> C) l : forall m,
  length l = length m -> length (zip_with f l m) = length l.
Proof.
  induction l as [|x l IH]; intros [|y m] H; try discriminate H;
    [reflexivity|].
  cbn [zip_with length]. rewrite IH; [reflexivity|].
  injection H as H. exact H.
Qed.

Lemma compress_length h block :
  length h = 8%nat -> length (compress h block) = 8%nat.
Proof.
  intros H. unfold compress. rewrite zip_with_length; [exact H|].
  rewrite rounds_length; assumption.
Qed.

Lemma blocks_length n : forall h l,
  length h = 8%nat -> length (blocks n h l) = 8%nat.
Proof.
  induction n as [|n IH]; intros h l H; [exact H|].
  cbn [blocks]. apply IH, compress_length, H.
Qed.

Lemma be_bytes_length n x : length (be_bytes n x) = n.
Proof. induction n as [|n IH]; [reflexivity|]. cbn [be_bytes length]. rewrite IH. reflexivity. Qed.

Lemma words_bytes_length l :
  length (concat (map (be_bytes 4) l)) = (4 * length l)%nat.
Proof.
  induction l as [|x l IH]; [reflexivity|].
  cbn [map concat]. rewrite length_app, be_bytes_length, IH.
  cbn [length]. lia.
Qed.

Lemma of_bytes_length l : String.length (of_bytes l) = length l.
Proof.
  unfold of_bytes. induction l as [|x l IH]; [reflexivity|].
  cbn [map string_of_list_ascii String.length length]. rewrite IH. reflexivity.
Qed.

(** The digest of any text is thirty-two bytes long. *)
Lemma sha256_length s : String.length (sha256 s) = 32%nat.
Proof.
  unfold sha256. rewrite of_bytes_length, words_bytes_length, blocks_length;
    [reflexivity|].
  vm_compute. reflexivity.
Qed.

End DigestFacts.

(** What [generatePKCE] yields in [w]. *)
Lemma generatePKCE_run w :
  generatePKCE w =
    (Ok (mkPKCE (Crypto.base64url (drawn (env w) (Sys.now w) 32))
           (Crypto.base64url
              (Crypto.sha256 (Crypto.base64url (drawn (env w) (Sys.now w) 32))))),
     Sys.log (EvRandomBytes 32) w).
Proof. destruct w. reflexivity. Qed.

(** X18. The SHA-256 digest of any text has thirty-two bytes, so the
    challenge of every generated pair, like its verifier, is forty-three
    characters of the URL-safe alphabet, without padding. *)
Theorem generatePKCE_challenge_shape w :
  (forall s, String.length (Crypto.sha256 s) = 32%nat) /\
  exists pkce w',
    generatePKCE w = (Ok pkce, w') /\
    String.length (challenge pkce) = 43%nat /\
    all_chars url_safe (challenge pkce) = true /\
    Text.contains "=" (challenge pkce) = false.
Proof.
  split; [apply DigestFacts.sha256_length|].
  eexists; eexists. split; [apply generatePKCE_run|]. cbn [challenge].
  split; [|split].
  - apply Base64Facts.base64url_length_32, DigestFacts.sha256_length.
  - apply Base64Facts.base64url_url_safe.
  - apply (contains_excluded url_safe);
      [apply Base64Facts.base64url_url_safe|reflexivity].
Qed.

(** The text of the URL, for a challenge and a verifier that need no
    escape. *)
Lemma authorization_url_text (c v : string) :
  "https://claude.ai/oauth/authorize?"
    ^^ JSON.join "&"
         ["code=true";
          "client_id=9d1c250a-e61b-44d9-88ed-5944d1962f5e";
          "response_type=code";
          "redirect_uri=https%3A%2F%2Fconsole.anthropic.com%2Foauth%2Fcode%2Fcallback";
          "scope=org%3Acreate_api_key+user%3Aprofile+user%3Ainference";
          "code_challenge=" ^^ c;
          "code_challenge_method=S256";
          "state=" ^^ v]
  = "https://claude.ai/oauth/authorize?code=true&client_id=9d1c250a-e61b-44d9-88ed-5944d1962f5e&response_type=code&redirect_uri=https%3A%2F%2Fconsole.anthropic.com%2Foauth%2Fcode%2Fcallback&scope=org%3Acreate_api_key+user%3Aprofile+user%3Ainference&code_challenge="
      ^^ c ^^ "&code_challenge_method=S256&state=" ^^ v.
Proof. vm_compute. reflexivity. Qed.

(** X19. The URL made for a generated pair carries the pair as it is: the
    [code_challenge] parameter is the challenge and the [state] parameter is
    the verifier, character for character, no escape being needed. *)
Theorem generated_pair_in_authorization_url w :
  exists pkce w',
    generatePKCE w = (Ok pkce, w') /\
    getAuthorizationURL pkce
    = "https://claude.ai/oauth/authorize?code=true&client_id=9d1c250a-e61b-44d9-88ed-5944d1962f5e&response_type=code&redirect_uri=https%3A%2F%2Fconsole.anthropic.com%2Foauth%2Fcode%2Fcallback&scope=org%3Acreate_api_key+user%3Aprofile+user%3Ainference&code_challenge="
        ^^ challenge pkce ^^ "&code_challenge_method=S256&state="
        ^^ verifier pkce.
Proof.
  pose proof (generatePKCE_run w) as G.
  set (v := Crypto.base64url (drawn (env w) (Sys.now w) 32)) in G.
  set (c := Crypto.base64url (Crypto.sha256 v)) in G.
  exists (mkPKCE v c), (Sys.log (EvRandomBytes 32) w).
  split; [exact G|].
  rewrite UrlFacts.getAuthorizationURL_query.
  assert (P : authorization_parameters (mkPKCE v c)
              = ["code=true";
                 "client_id=9d1c250a-e61b-44d9-88ed-5944d1962f5e";
                 "response_type=code";
                 "redirect_uri=https%3A%2F%2Fconsole.anthropic.com%2Foauth%2Fcode%2Fcallback";
                 "scope=org%3Acreate_api_key+user%3Aprofile+user%3Ainference";
                 "code_challenge=" ^^ c;
                 "code_challenge_method=S256";
                 "state=" ^^ v]).
  { unfold authorization_parameters. cbn [challenge verifier].
    rewrite (UrlFacts.encode_url_safe v), (UrlFacts.encode_url_safe c)
      by apply Base64Facts.base64url_url_safe.
    reflexivity. }
  rewrite P. cbn [challenge verifier]. exact (authorization_url_text c v).
Qed.

(** *** The interactive flow *)

Lemma env_log ev w : env (Sys.log ev w) = env w.
Proof. reflexivity. Qed.

Lemma disk_log ev w : disk (Sys.log ev w) = disk w.
Proof. reflexivity. Qed.

Lemma console_log_run line w :
  Sys.console_log line w = (Ok tt, Sys.log (EvLog line) w).
Proof. destruct w. reflexivity. Qed.

Lemma stdin_data_run w :
  Sys.stdin_data w = (Ok (stdin (env w) (Sys.now w)), Sys.log EvStdin w).
Proof. destruct w. reflexivity. Qed.

(** The browser is opened, or not: the flow goes on all the same. *)
Lemma open_browser_run url w :
  try_catch (openUrl url) (fun _ => ret tt) w
  = (Ok tt, Sys.log (EvExec (launcher (platform (env w)) ^^ dq ^^ url ^^ dq)) w).
Proof.
  unfold try_catch. rewrite openUrl_run.
  destruct (io_error (env w) (Sys.now w)); reflexivity.
Qed.

(** The flow without hooks, from the pair to the pasted code: the URL is
    printed between two lines of instructions and one chunk is read from
    the standard input. *)
Lemma prompt_on_console w (k : PKCEPair -> string -> M value) :
  let n := Sys.now w in
  let v := Crypto.base64url (drawn (env w) n 32) in
  let pkce := mkPKCE v (Crypto.base64url (Crypto.sha256 v)) in
  let url := getAuthorizationURL pkce in
  (let* pkce := generatePKCE in
   let authUrl := getAuthorizationURL pkce in
   try_catch (openUrl authUrl) (fun _ => ret tt) ;;
   (Sys.console_log (JSON.nl ^^ "To authenticate, visit:") ;;
    Sys.console_log authUrl ;;
    Sys.console_log (JSON.nl ^^ "Paste the authorization code below:")) ;;
   let* code := (let* data := Sys.stdin_data in ret (Text.trim data)) in
   k pkce code) w
  = k pkce (Text.trim (stdin (env w) (n + 5)))
      (mkWorld (env w) (disk w)
         (trace w ++
          [EvRandomBytes 32;
           EvExec (launcher (platform (env w)) ^^ dq ^^ url ^^ dq);
           EvLog (JSON.nl ^^ "To authenticate, visit:");
           EvLog url;
           EvLog (JSON.nl ^^ "Paste the authorization code below:");
           EvStdin])).
Proof.
  intros n v pkce url.
  unfold bind at 1. rewrite generatePKCE_run. fold n v pkce. cbv zeta.
  fold url. clearbody url.
  unfold bind at 1. rewrite open_browser_run. rewrite env_log.
  unfold bind at 1. unfold bind at 1. rewrite console_log_run.
  unfold bind at 1. rewrite console_log_run. rewrite console_log_run.
  unfold bind at 1. unfold bind at 1. rewrite stdin_data_run.
  unfold ret at 1.
  rewrite !env_log, !SysFacts.now_log. fold n.
  replace (S (S (S (S (S n))))) with (n + 5)%nat by lia.
  unfold Sys.log. cbn [env disk trace].
  rewrite <- !app_assoc. reflexivity.
Qed.

(** The flow without hooks, once the accessor has yielded no token. *)
Lemma authenticateWithClaude_on_console callbacks w token w1 :
  getClaudeAccessToken w = (Ok token, w1) ->
  JS.ToBoolean token = false ->
  hook callbacks onAuthUrlReady = None ->
  hook callbacks promptForCode = None ->
  let n := Sys.now w1 in
  let v := Crypto.base64url (drawn (env w1) n 32) in
  let url :=
    getAuthorizationURL (mkPKCE v (Crypto.base64url (Crypto.sha256 v))) in
  authenticateWithClaude callbacks w
  = (let* creds :=
       exchangeCodeForTokens (Text.trim (stdin (env w1) (n + 5))) v in
     saveCredentials creds ;;
     match hook callbacks onSuccess with
     | Some f => f
     | None => ret tt
     end ;;
     ret (access_token creds))
      (mkWorld (env w1) (disk w1)
         (trace w1 ++
          [EvRandomBytes 32;
           EvExec (launcher (platform (env w1)) ^^ dq ^^ url ^^ dq);
           EvLog (JSON.nl ^^ "To authenticate, visit:");
           EvLog url;
           EvLog (JSON.nl ^^ "Paste the authorization code below:");
           EvStdin])).
Proof.
  intros Hget Htok H1 H2 n v url.
  pose proof (prompt_on_console w1
                (fun pkce code =>
                   let* creds := exchangeCodeForTokens code (verifier pkce) in
                   saveCredentials creds ;;
                   match hook callbacks onSuccess with
                   | Some f => f
                   | None => ret tt
                   end ;;
                   ret (access_token creds)))
    as P.
  cbv zeta in P. fold n v url in P. cbn [verifier] in P.
  unfold authenticateWithClaude, bind at 1. rewrite Hget, Htok.
  rewrite H1, H2. exact P.
Qed.

(** The flow without hooks, when the exchange and the write go through. *)
Lemma authenticateWithClaude_console_run
    callbacks w token w1 resp data B R2 ei ms :
  getClaudeAccessToken w = (Ok token, w1) ->
  JS.ToBoolean token = false ->
  hook callbacks onAuthUrlReady = None ->
  hook callbacks promptForCode = None ->
  hook callbacks onSuccess = None ->
  let e := env w1 in
  let n := Sys.now w1 in
  let p := CREDS_PATH e in
  let v := Crypto.base64url (drawn e n 32) in
  let url :=
    getAuthorizationURL (mkPKCE v (Crypto.base64url (Crypto.sha256 v))) in
  let request := json_post (code_request_body (Text.trim (stdin e (n + 5))) v) in
  network e (n + 6) request = Resolved resp ->
  ok resp = true ->
  JSON.parse (text resp) = Some data ->
  JS.get data "access_token" = Some B ->
  JS.get data "refresh_token" = Some R2 ->
  JS.get data "expires_in" = Some ei ->
  JS.times ei (Number.of_Z 1000) = Some ms ->
  io_error e (n + 8) = None ->
  io_error e (n + 9) = None ->
  clear_way (disk w1) p = true ->
  let t := clock e (n + 7) in
  let c := mkCredentials B R2 (Number.add (Number.of_Z t) ms) in
  let saved := JSON.stringify_object (Credentials_object c) 2 in
  authenticateWithClaude callbacks w
  = (Ok B,
     mkWorld e
       (saved_disk (disk w1) p saved (create_mode e)
          (match io_error e (n + 10) with
           | None => true
           | Some _ => false
           end))
       (trace w1 ++
        [EvRandomBytes 32;
         EvExec (launcher (platform e) ^^ dq ^^ url ^^ dq);
         EvLog (JSON.nl ^^ "To authenticate, visit:");
         EvLog url;
         EvLog (JSON.nl ^^ "Paste the authorization code below:");
         EvStdin;
         EvFetch request;
         EvNow t;
         EvMkdir (Sys.dirname p);
         EvWriteFile p saved;
         EvChmod p 0x180])).
Proof.
  intros Hget Htok H1 H2 H3 e n p v url request Hn Hok Hp HB HR Hei Hms
    Hmk Hwr Hway t c saved.
  rewrite (authenticateWithClaude_on_console callbacks w token w1
             Hget Htok H1 H2), H3.
  fold e n v url. clearbody url.
  set (w7 := mkWorld e (disk w1) _).
  assert (L7 : Sys.now w7 = (n + 6)%nat).
  { unfold Sys.now, w7, n. cbn [trace]. rewrite length_app. reflexivity. }
  unfold bind at 1.
  rewrite (exchangeCodeForTokens_ok _ v resp data B R2 ei ms w7);
    try assumption; [|rewrite L7; exact Hn].
  cbv zeta. rewrite L7. change (env w7) with e. change (disk w7) with (disk w1).
  replace (S (n + 6)) with (n + 7)%nat by lia. fold t c request.
  set (w9 := mkWorld e (disk w1) _).
  assert (L9 : Sys.now w9 = (n + 8)%nat).
  { unfold n, w9, w7, Sys.now. cbn [trace]. rewrite !length_app.
    cbn [length]. lia. }
  pose proof (saveCredentials_run w9 c) as Sv. cbv zeta in Sv.
  rewrite L9 in Sv.
  change (env w9) with e in Sv. change (disk w9) with (disk w1) in Sv.
  fold p saved in Sv.
  replace (S (n + 8)) with (n + 9)%nat in Sv by lia.
  replace (S (n + 9)) with (n + 10)%nat in Sv by lia.
  rewrite Hwr in Sv. unfold bind. rewrite (Sv Hmk Hway). unfold ret.
  unfold w9, w7. cbn [trace access_token c]. rewrite <- !app_assoc. reflexivity.
Qed.

(** X20. The interactive flow without hooks. When the accessor has no
    token to give, the flow draws a PKCE pair, launches the browser on the
    authorization URL (going on whether or not the launch succeeds), prints
    the URL between two lines of instructions, reads one chunk from the
    standard input and trims it, and exchanges that code with the verifier
    of the very pair whose challenge is in the URL. If the endpoint answers
    with a success status and a JSON body giving two texts and a whole
    number of seconds, and the credential can be written, the flow returns
    the access token of the response and the credential file holds the
    serialized credential. *)
Theorem authenticateWithClaude_console_flow
    callbacks w token w1 resp data b r2 s :
  getClaudeAccessToken w = (Ok token, w1) ->
  JS.ToBoolean token = false ->
  hook callbacks onAuthUrlReady = None ->
  hook callbacks promptForCode = None ->
  hook callbacks onSuccess = None ->
  let e := env w1 in
  let n := Sys.now w1 in
  let p := CREDS_PATH e in
  let v := Crypto.base64url (drawn e n 32) in
  let url :=
    getAuthorizationURL (mkPKCE v (Crypto.base64url (Crypto.sha256 v))) in
  let request := json_post (code_request_body (Text.trim (stdin e (n + 5))) v) in
  network e (n + 6) request = Resolved resp ->
  ok resp = true ->
  JSON.parse (text resp) = Some data ->
  JS.get data "access_token" = Some (Str b) ->
  JS.get data "refresh_token" = Some (Str r2) ->
  JS.get data "expires_in" = Some (Num (Number.of_Z s)) ->
  io_error e (n + 8) = None ->
  io_error e (n + 9) = None ->
  clear_way (disk w1) p = true ->
  let t := clock e (n + 7) in
  0 <= t + s * 1000 < 2 ^ 53 ->
  let c := mkCredentials (Str b) (Str r2) (Number.of_Z (t + s * 1000)) in
  let saved := JSON.stringify_object (Credentials_object c) 2 in
  exists w' m,
    authenticateWithClaude callbacks w = (Ok (Str b), w') /\
    trace w' =
      (trace w1 ++
       [EvRandomBytes 32;
        EvExec (launcher (platform e) ^^ dq ^^ url ^^ dq);
        EvLog (JSON.nl ^^ "To authenticate, visit:");
        EvLog url;
        EvLog (JSON.nl ^^ "Paste the authorization code below:");
        EvStdin;
        EvFetch request;
        EvNow t;
        EvMkdir (Sys.dirname p);
        EvWriteFile p saved;
        EvChmod p 0x180])%list /\
    files (disk w') !! p = Some (File saved m).
Proof.
  intros Hget Htok H1 H2 H3 e n p v url request Hn Hok Hp HB HR Hei
    Hmk Hwr Hway t _ c saved.
  destruct (expiry_of_Z t s) as (ms & Hms & Hsum).
  pose proof (authenticateWithClaude_console_run callbacks w token w1
                resp data (Str b) (Str r2) (Num (Number.of_Z s)) ms
                Hget Htok H1 H2 H3 Hn Hok Hp HB HR Hei Hms Hmk Hwr Hway) as R.
  cbv zeta in R. fold e n p v in R. fold url request t in R.
  rewrite Hsum in R. fold c in R. fold saved in R.
  eexists; eexists. split; [exact R|]. cbn [trace disk].
  split; [reflexivity|].
  unfold saved_disk. cbn [files]. apply lookup_insert_eq.
Qed.

(** X21. In the flow without prompt hooks, a failure of the exchange (the
    endpoint refuses the code, the request is rejected, the body is not
    JSON) or of the save is thrown to the caller as it is. Nothing more
    happens: the world is the one the failing step left, so [onSuccess] was
    not called, and neither was [onError], which the flow never calls. A
    failed exchange leaves the disk as the accessor left it, and a failed
    save leaves every file but the credential file as it was. *)
Theorem authenticateWithClaude_failure callbacks w token w1 :
  getClaudeAccessToken w = (Ok token, w1) ->
  JS.ToBoolean token = false ->
  hook callbacks onAuthUrlReady = None ->
  hook callbacks promptForCode = None ->
  let e := env w1 in
  let n := Sys.now w1 in
  let v := Crypto.base64url (drawn e n 32) in
  let url :=
    getAuthorizationURL (mkPKCE v (Crypto.base64url (Crypto.sha256 v))) in
  let code := Text.trim (stdin e (n + 5)) in
  let w7 :=
    mkWorld e (disk w1)
      (trace w1 ++
       [EvRandomBytes 32;
        EvExec (launcher (platform e) ^^ dq ^^ url ^^ dq);
        EvLog (JSON.nl ^^ "To authenticate, visit:");
        EvLog url;
        EvLog (JSON.nl ^^ "Paste the authorization code below:");
        EvStdin]) in
  (forall err w8,
     exchangeCodeForTokens code v w7 = (Throw err, w8) ->
     authenticateWithClaude callbacks w = (Throw err, w8) /\
     disk w8 = disk w1)
  /\ (forall c w8 err w9,
       exchangeCodeForTokens code v w7 = (Ok c, w8) ->
       saveCredentials c w8 = (Throw err, w9) ->
       authenticateWithClaude callbacks w = (Throw err, w9) /\
       forall q, q <> CREDS_PATH e ->
                 files (disk w9) !! q = files (disk w1) !! q).
Proof.
  intros Hget Htok H1 H2 e n v url code w7.
  rewrite (authenticateWithClaude_on_console callbacks w token w1
             Hget Htok H1 H2).
  fold e n v url code w7. clearbody url.
  split.
  - intros err w8 Hx. unfold bind at 1. rewrite Hx. split; [reflexivity|].
    pose proof (read_only_exchangeCodeForTokens code v w7) as RO.
    rewrite Hx in RO. exact RO.
  - intros c w8 err w9 Hx Hs. unfold bind. rewrite Hx, Hs.
    split; [reflexivity|].
    pose proof (saveCredentials_throw c w8 err) as K. cbv zeta in K.
    rewrite Hs in K. cbn [fst snd] in K. destruct (K eq_refl) as [K1 _].
    pose proof (read_only_exchangeCodeForTokens code v w7) as RO.
    rewrite Hx in RO. cbn [snd] in RO.
    assert (Ee : env w8 = e).
    { assert (Em : emits store_or_exchange (exchangeCodeForTokens code v)).
      { unfold exchangeCodeForTokens, Sys.fetch.
        repeat first [apply emits_JSON_parse
                     | apply emits_credentials_of_response | step_emits]. }
      destruct (Em w7) as (tr & _ & _ & He). rewrite Hx in He. exact He. }
    intros q Hq. rewrite Ee in K1. rewrite (K1 q Hq), RO. reflexivity.
Qed.

(** X22. The interactive flow with hooks. When the accessor has no token to
    give, the browser is launched on the authorization URL and then
    [onAuthUrlReady] is called with that same URL; nothing is printed.
    [promptForCode] supplies the code, which is exchanged exactly as
    returned (it is not trimmed) with the verifier of the pair; the
    credential is saved, and only then is [onSuccess] called. The flow
    returns the access token, or throws what [onSuccess] throws. *)
Theorem authenticateWithClaude_with_hooks
    cb f pr w token w1 w4 code w5 c w6 w7 :
  getClaudeAccessToken w = (Ok token, w1) ->
  JS.ToBoolean token = false ->
  onAuthUrlReady cb = Some f ->
  promptForCode cb = Some pr ->
  let e := env w1 in
  let n := Sys.now w1 in
  let v := Crypto.base64url (drawn e n 32) in
  let url :=
    getAuthorizationURL (mkPKCE v (Crypto.base64url (Crypto.sha256 v))) in
  let w3 :=
    mkWorld e (disk w1)
      (trace w1 ++
       [EvRandomBytes 32;
        EvExec (launcher (platform e) ^^ dq ^^ url ^^ dq)]) in
  f url w3 = (Ok tt, w4) ->
  pr w4 = (Ok code, w5) ->
  exchangeCodeForTokens code v w5 = (Ok c, w6) ->
  saveCredentials c w6 = (Ok tt, w7) ->
  (onSuccess cb = None ->
   authenticateWithClaude (Some cb) w = (Ok (access_token c), w7))
  /\ (forall g r w8,
      onSuccess cb = Some g -> g w7 = (r, w8) ->
      authenticateWithClaude (Some cb) w
      = (match r with
         | Ok _ => Ok (access_token c)
         | Throw err => Throw err
         end, w8)).
Proof.
  intros Hget Htok Hf Hpr e n v url w3 Hrun Hcode Hx Hs.
  assert (E : authenticateWithClaude (Some cb) w
              = (match onSuccess cb with
                 | Some g => g
                 | None => ret tt
                 end ;;
                 ret (access_token c)) w7).
  { unfold authenticateWithClaude, bind at 1. rewrite Hget, Htok.
    cbn [hook]. rewrite Hf, Hpr.
    unfold bind at 1. rewrite generatePKCE_run. fold e n v. cbv zeta.
    fold url. clearbody url.
    unfold bind at 1. rewrite open_browser_run. rewrite env_log. fold e.
    replace (Sys.log (EvExec (launcher (platform e) ^^ dq ^^ url ^^ dq))
               (Sys.log (EvRandomBytes 32) w1)) with w3.
    2:{ unfold w3, Sys.log. cbn [env disk trace]. rewrite <- app_assoc.
        reflexivity. }
    unfold bind at 1. rewrite Hrun.
    unfold bind at 1. rewrite Hcode.
    unfold bind at 1. cbn [verifier]. rewrite Hx.
    unfold bind at 1. rewrite Hs. reflexivity. }
  split.
  - intros H. rewrite E, H. reflexivity.
  - intros g r w8 H Hg. rewrite E, H. unfold bind. rewrite Hg.
    destruct r; reflexivity.
Qed.

(** *** Trimming what was typed *)

Module TrimFacts.
Import Text.

Lemma drop_space_space c r :
  ascii_space c = true -> drop_space (String c r) = Some r.
Proof.
  unfold ascii_space, drop_space. intros H. rewrite H. reflexivity.
Qed.

Lemma drop_space_visible c r :
  visible c = true -> drop_space (String c r) = None.
Proof.
  unfold visible, drop_space. intros H.
  apply andb_true_iff in H as [L U].
  apply N.leb_le in L, U.
  replace (N.leb (code c) 13) with false by (symmetry; apply N.leb_gt; lia).
  replace (N.eqb (code c) 32) with false by (symmetry; apply N.eqb_neq; lia).
  replace (N.eqb (code c) 194) with false by (symmetry; apply N.eqb_neq; lia).
  replace (N.eqb (code c) 225) with false by (symmetry; apply N.eqb_neq; lia).
  replace (N.eqb (code c) 226) with false by (symmetry; apply N.eqb_neq; lia).
  replace (N.eqb (code c) 227) with false by (symmetry; apply N.eqb_neq; lia).
  replace (N.eqb (code c) 239) with false by (symmetry; apply N.eqb_neq; lia).
  rewrite andb_false_r. cbn [orb andb].
  destruct r as [|c1 [|c2 r2]]; reflexivity.
Qed.

Lemma trim_start_fuel_stop fuel s :
  drop_space s = None -> trim_start_fuel fuel s = s.
Proof. intros H. destruct fuel; [reflexivity|]. cbn [trim_start_fuel]. rewrite H. reflexivity. Qed.

Lemma trim_start_fuel_spaces ws : forall fuel rest,
  all_chars ascii_space ws = true ->
  trim_start_fuel (String.length ws + fuel) (ws ^^ rest)
  = trim_start_fuel fuel rest.
Proof.
  induction ws as [|c ws IH]; intros fuel rest H; [reflexivity|].
  cbn [all_chars] in H. apply andb_true_iff in H as [Hc Hs].
  rewrite JSONFacts.append_cons. cbn [String.length Nat.add trim_start_fuel].
  rewrite (drop_space_space c _ Hc). apply IH, Hs.
Qed.

Lemma length_append (a b : string) :
  String.length (a ^^ b) = (String.length a + String.length b)%nat.
Proof.
  induction a as [|c a IH]; [reflexivity|].
  rewrite JSONFacts.append_cons. cbn [String.length]. rewrite IH. reflexivity.
Qed.

(** White space in front of [rest] is dropped. *)
Lemma trim_start_spaces ws rest :
  all_chars ascii_space ws = true ->
  drop_space rest = None ->
  trim_start (ws ^^ rest) = rest.
Proof.
  intros Hs Hr. unfold trim_start. rewrite length_append.
  rewrite trim_start_fuel_spaces by exact Hs.
  apply trim_start_fuel_stop, Hr.
Qed.

Lemma all_space_spaces ws :
  all_chars ascii_space ws = true -> all_space ws = true.
Proof.
  intros H. unfold all_space.
  rewrite <- (JSONFacts.append_nil_r ws), trim_start_spaces;
    [reflexivity|exact H|reflexivity].
Qed.

Lemma all_space_visible c r : visible c = true -> all_space (String c r) = false.
Proof.
  intros H. unfold all_space, trim_start.
  rewrite trim_start_fuel_stop; [reflexivity|].
  apply drop_space_visible, H.
Qed.

(** White space behind visible text is dropped. *)
Lemma trim_end_spaces s ws :
  all_chars visible s = true ->
  all_chars ascii_space ws = true ->
  trim_end (s ^^ ws) = s.
Proof.
  intros Hs Hw. induction s as [|c s IH].
  - rewrite JSONFacts.append_nil_l. destruct ws as [|c r]; [reflexivity|].
    cbn [trim_end]. rewrite (all_space_spaces _ Hw). reflexivity.
  - cbn [all_chars] in Hs. apply andb_true_iff in Hs as [Hc Hs].
    rewrite JSONFacts.append_cons. cbn [trim_end].
    rewrite (all_space_visible c _ Hc), (IH Hs). reflexivity.
Qed.

End TrimFacts.

(** X23. What is typed at the prompt is used without the white space
    around it: for a code of visible ASCII characters, with any tabs, spaces
    and line ends before and after it (the line end the terminal adds, for
    one), [trim] gives back the code. *)
Theorem trim_pasted_code before code after :
  all_chars ascii_space before = true ->
  all_chars visible code = true ->
  all_chars ascii_space after = true ->
  Text.trim (before ^^ code ^^ after) = code.
Proof.
  intros Hb Hc Ha. unfold Text.trim.
  destruct code as [|c s].
  - rewrite JSONFacts.append_nil_l.
    assert (E : Text.trim_start (before ^^ after) = EmptyString).
    { rewrite <- (JSONFacts.append_nil_r (before ^^ after)).
      rewrite JSONFacts.append_assoc.
      unfold Text.trim_start.
      rewrite !TrimFacts.length_append.
      rewrite TrimFacts.trim_start_fuel_spaces by exact Hb.
      rewrite TrimFacts.trim_start_fuel_spaces by exact Ha.
      reflexivity. }
    rewrite E. reflexivity.
  - rewrite TrimFacts.trim_start_spaces.
    + apply TrimFacts.trim_end_spaces; assumption.
    + exact Hb.
    + rewrite JSONFacts.append_cons. apply TrimFacts.drop_space_visible.
      cbn [all_chars] in Hc. apply andb_true_iff in Hc as [Hc _]. exact Hc.
Qed.

(** *** A refresh, then the cache *)

(** X24. A refresh is paid for once: when the accessor has refreshed a
    stale credential and written it, and the new expiry (the clock at the
    response plus the lifetime) is more than a minute past the clock of the
    next call, that next call reads the file and the clock and returns the
    new access token, with no request. *)
Theorem refreshed_token_is_cached w f props a r d resp data b r2 s :
  io_error (env w) (Sys.now w) = None ->
  files (disk w) !! CREDS_PATH (env w) = Some f ->
  JSON.parse (content f) = Some (Obj props) ->
  JS.assoc "access_token" props = Some a ->
  JS.assoc "refresh_token" props = Some r ->
  JS.assoc "expires_at" props = Some (Num (Fin d)) ->
  let p := CREDS_PATH (env w) in
  let n := Sys.now w in
  ~ (inject_Z (clock (env w) (S n) + 60000) < Number.dval d)%Q ->
  network (env w) (n + 2) (json_post (refresh_request_body r)) = Resolved resp ->
  ok resp = true ->
  JSON.parse (text resp) = Some data ->
  JS.get data "access_token" = Some (Str b) ->
  JS.get data "refresh_token" = Some (Str r2) ->
  JS.get data "expires_in" = Some (Num (Number.of_Z s)) ->
  io_error (env w) (n + 4) = None ->
  io_error (env w) (n + 5) = None ->
  clear_way (disk w) p = true ->
  plain b = true -> plain r2 = true ->
  let expiry := clock (env w) (n + 3) + s * 1000 in
  0 <= expiry < 2 ^ 53 ->
  io_error (env w) (n + 7) = None ->
  clock (env w) (n + 8) + 60000 < expiry ->
  let c := mkCredentials (Str b) (Str r2) (Number.of_Z expiry) in
  let saved := JSON.stringify_object (Credentials_object c) 2 in
  exists w'',
    (getClaudeAccessToken ;; getClaudeAccessToken) w = (Ok (Str b), w'') /\
    trace w'' =
      (trace w ++
       [EvReadFile p; EvNow (clock (env w) (S n));
        EvFetch (json_post (refresh_request_body r));
        EvNow (clock (env w) (n + 3));
        EvMkdir (Sys.dirname p); EvWriteFile p saved; EvChmod p 0x180;
        EvReadFile p; EvNow (clock (env w) (n + 8))])%list.
Proof.
  intros Hio Hf Hp Ha Hr He p n Hstale Hn Hok Hpr HB HR Hei Hmk Hwr Hway
    Pb Pr expiry Hx Hrd Hfresh c saved.
  destruct (expiry_of_Z (clock (env w) (n + 3)) s) as (ms & Hms & Hsum).
  pose proof (getClaudeAccessToken_refreshed w f props a r d resp data
                (Str b) (Str r2) (Num (Number.of_Z s)) ms
                Hio Hf Hp Ha Hr He Hstale Hn Hok Hpr HB HR Hei Hms Hmk Hwr Hway)
    as R.
  cbv zeta in R. fold p n in R. rewrite Hsum in R.
  fold expiry in R. fold c in R. fold saved in R.
  unfold bind. rewrite R.
  set (w7 := mkWorld (env w) _ _).
  assert (L7 : Sys.now w7 = (n + 7)%nat).
  { unfold n, w7, Sys.now. cbn [trace]. rewrite length_app. reflexivity. }
  assert (Flat : flat [] (Credentials_object c) = true).
  { cbn [flat Credentials_object simple access_token refresh_token expires_at c
         Number.of_Z].
    rewrite Pb, Pr.
    replace (0 <=? expiry) with true by (symmetry; apply Z.leb_le; lia).
    replace (expiry <? 10 ^ 21) with true by (symmetry; apply Z.ltb_lt; lia).
    reflexivity. }
  pose proof (getClaudeAccessToken_loaded w7 (File saved
                (if match io_error (env w) (n + 6) with
                    | None => true
                    | Some _ => false
                    end
                 then 0x180
                 else match files (disk w) !! p with
                      | Some f0 => mode f0
                      | None => create_mode (env w)
                      end))
                (Obj (Credentials_object c))) as G.
  rewrite L7 in G. change (env w7) with (env w) in G. fold p in G.
  specialize (G Hrd).
  assert (Held : files (disk w7) !! p = Some (File saved
                (if match io_error (env w) (n + 6) with
                    | None => true
                    | Some _ => false
                    end
                 then 0x180
                 else match files (disk w) !! p with
                      | Some f0 => mode f0
                      | None => create_mode (env w)
                      end))).
  { unfold w7, saved_disk. cbn [disk files]. apply lookup_insert_eq. }
  specialize (G Held). cbn [content] in G.
  assert (NE : Credentials_object c <> []) by discriminate.
  specialize (G (JSONFacts.parse_stringify_flat _ 2 NE Flat) eq_refl).
  cbv zeta in G.
  replace (S (n + 7)) with (n + 8)%nat in G by lia.
  change (JS.get (Obj (Credentials_object c)) "expires_at")
    with (Some (Num (Number.of_Z expiry))) in G.
  change (JS.get (Obj (Credentials_object c)) "access_token")
    with (Some (Str b)) in G.
  cbn [default from_option id] in G.
  rewrite NumberFacts.add_of_Z in G.
  rewrite greater_of_Z in G.
  replace (clock (env w) (n + 8) + 60000 <? expiry) with true in G
    by (symmetry; apply Z.ltb_lt; lia).
  rewrite G. eexists. split; [reflexivity|].
  unfold Sys.log, w7. cbn [trace]. rewrite <- !app_assoc. reflexivity.
Qed.

(** *** After the login, and what a careless answer does *)

(** The accessor on a store that holds the serialization of a credential
    with string tokens, more than a minute before its expiry. *)
Lemma getClaudeAccessToken_of_saved w b r2 expiry m :
  let p := CREDS_PATH (env w) in
  let t := clock (env w) (S (Sys.now w)) in
  let c := mkCredentials (Str b) (Str r2) (Number.of_Z expiry) in
  io_error (env w) (Sys.now w) = None ->
  files (disk w) !! p
  = Some (File (JSON.stringify_object (Credentials_object c) 2) m) ->
  plain b = true -> plain r2 = true ->
  0 <= expiry < 2 ^ 53 ->
  t + 60000 < expiry ->
  getClaudeAccessToken w
  = (Ok (Str b), mkWorld (env w) (disk w) (trace w ++ [EvReadFile p; EvNow t])).
Proof.
  intros p t c Hio Held Pb Pr Hx Hfresh.
  assert (Flat : flat [] (Credentials_object c) = true).
  { cbn [flat Credentials_object simple access_token refresh_token expires_at c
         Number.of_Z].
    rewrite Pb, Pr.
    replace (0 <=? expiry) with true by (symmetry; apply Z.leb_le; lia).
    replace (expiry <? 10 ^ 21) with true by (symmetry; apply Z.ltb_lt; lia).
    reflexivity. }
  assert (NE : Credentials_object c <> []) by discriminate.
  pose proof (getClaudeAccessToken_loaded w _ (Obj (Credentials_object c))
                Hio Held (JSONFacts.parse_stringify_flat _ 2 NE Flat) eq_refl)
    as G.
  cbv zeta in G. fold p t in G.
  change (JS.get (Obj (Credentials_object c)) "expires_at")
    with (Some (Num (Number.of_Z expiry))) in G.
  change (JS.get (Obj (Credentials_object c)) "access_token")
    with (Some (Str b)) in G.
  cbn [default from_option id] in G.
  rewrite NumberFacts.add_of_Z in G.
  rewrite greater_of_Z in G.
  replace (t + 60000 <? expiry) with true in G
    by (symmetry; apply Z.ltb_lt; lia).
  rewrite G. unfold Sys.log. cbn [env disk trace].
  rewrite <- app_assoc. reflexivity.
Qed.

(** X25. After the login, the token is there: when the interactive flow
    without hooks has gone through with string tokens and a lifetime that
    ends more than a minute after the clock of the next call, a call of the
    accessor that follows reads the file and the clock and returns the same
    access token, with no request. *)
Theorem authenticated_token_is_cached callbacks w token w1 resp data b r2 s :
  getClaudeAccessToken w = (Ok token, w1) ->
  JS.ToBoolean token = false ->
  hook callbacks onAuthUrlReady = None ->
  hook callbacks promptForCode = None ->
  hook callbacks onSuccess = None ->
  let e := env w1 in
  let n := Sys.now w1 in
  let p := CREDS_PATH e in
  let v := Crypto.base64url (drawn e n 32) in
  let request := json_post (code_request_body (Text.trim (stdin e (n + 5))) v) in
  network e (n + 6) request = Resolved resp ->
  ok resp = true ->
  JSON.parse (text resp) = Some data ->
  JS.get data "access_token" = Some (Str b) ->
  JS.get data "refresh_token" = Some (Str r2) ->
  JS.get data "expires_in" = Some (Num (Number.of_Z s)) ->
  io_error e (n + 8) = None ->
  io_error e (n + 9) = None ->
  clear_way (disk w1) p = true ->
  plain b = true -> plain r2 = true ->
  let expiry := clock e (n + 7) + s * 1000 in
  0 <= expiry < 2 ^ 53 ->
  io_error e (n + 11) = None ->
  clock e (n + 12) + 60000 < expiry ->
  exists w' w'',
    authenticateWithClaude callbacks w = (Ok (Str b), w') /\
    getClaudeAccessToken w' = (Ok (Str b), w'') /\
    trace w'' = (trace w' ++ [EvReadFile p; EvNow (clock e (n + 12))])%list.
Proof.
  intros Hget Htok H1 H2 H3 e n p v request Hn Hok Hp HB HR Hei
    Hmk Hwr Hway Pb Pr expiry Hx Hrd Hfresh.
  destruct (expiry_of_Z (clock e (n + 7)) s) as (ms & Hms & Hsum).
  pose proof (authenticateWithClaude_console_run callbacks w token w1
                resp data (Str b) (Str r2) (Num (Number.of_Z s)) ms
                Hget Htok H1 H2 H3 Hn Hok Hp HB HR Hei Hms Hmk Hwr Hway) as R.
  cbv zeta in R. fold e n p v request in R. rewrite Hsum in R.
  fold expiry in R.
  set (w' := mkWorld e _ _) in R.
  assert (L : Sys.now w' = (n + 11)%nat).
  { unfold n, w', Sys.now. cbn [trace]. rewrite length_app. reflexivity. }
  pose proof (getClaudeAccessToken_of_saved w' b r2 expiry) as G.
  cbv zeta in G. rewrite L in G. change (env w') with e in G. fold p in G.
  replace (S (n + 11)) with (n + 12)%nat in G by lia.
  assert (Held : exists m,
    files (disk w') !! p
    = Some (File (JSON.stringify_object
                    (Credentials_object
                       (mkCredentials (Str b) (Str r2) (Number.of_Z expiry))) 2)
              m)).
  { eexists. unfold w', saved_disk. cbn [disk files]. apply lookup_insert_eq. }
  destruct Held as (m & Held).
  exists w'. eexists. split; [exact R|].
  rewrite (G m Hrd Held Pb Pr Hx Hfresh). split; reflexivity.
Qed.


(** X27. The answer of the endpoint is not checked. When a stale
    credential is refreshed and the endpoint answers with a success status
    and a JSON body that has none of the three fields (an empty object,
    say), the accessor returns [undefined], which [isAuthenticated] takes
    for a token, and the store is overwritten with a credential that has no
    tokens and [null] for its expiry. *)
Theorem fieldless_answer_overwrites_store w f props a r d resp data :
  io_error (env w) (Sys.now w) = None ->
  files (disk w) !! CREDS_PATH (env w) = Some f ->
  JSON.parse (content f) = Some (Obj props) ->
  JS.assoc "access_token" props = Some a ->
  JS.assoc "refresh_token" props = Some r ->
  JS.assoc "expires_at" props = Some (Num (Fin d)) ->
  let p := CREDS_PATH (env w) in
  let n := Sys.now w in
  ~ (inject_Z (clock (env w) (S n) + 60000) < Number.dval d)%Q ->
  network (env w) (n + 2) (json_post (refresh_request_body r)) = Resolved resp ->
  ok resp = true ->
  JSON.parse (text resp) = Some data ->
  JS.get data "access_token" = Some Undefined ->
  JS.get data "refresh_token" = Some Undefined ->
  JS.get data "expires_in" = Some Undefined ->
  io_error (env w) (n + 4) = None ->
  io_error (env w) (n + 5) = None ->
  clear_way (disk w) p = true ->
  exists w' m,
    getClaudeAccessToken w = (Ok Undefined, w') /\
    isAuthenticated w = (Ok true, w') /\
    files (disk w') !! p
    = Some (File ("{" ^^ JSON.nl ^^ "  " ^^ dq ^^ "expires_at" ^^ dq
                    ^^ ": null" ^^ JSON.nl ^^ "}") m).
Proof.
  intros Hio Hf Hp Ha Hr He p n Hstale Hn Hok Hpr HB HR Hei Hmk Hwr Hway.
  pose proof (getClaudeAccessToken_refreshed w f props a r d resp data
                Undefined Undefined Undefined NaN
                Hio Hf Hp Ha Hr He Hstale Hn Hok Hpr HB HR Hei eq_refl
                Hmk Hwr Hway)
    as R.
  cbv zeta in R. fold p n in R.
  change (Number.add (Number.of_Z (clock (env w) (n + 3))) NaN)
    with NaN in R.
  change (JSON.stringify_object
            (Credentials_object (mkCredentials Undefined Undefined NaN)) 2)
    with ("{" ^^ JSON.nl ^^ "  " ^^ dq ^^ "expires_at" ^^ dq
            ^^ ": null" ^^ JSON.nl ^^ "}") in R.
  eexists; eexists. split; [exact R|]. split.
  - unfold isAuthenticated, bind. rewrite R. reflexivity.
  - unfold saved_disk. cbn [disk files]. apply lookup_insert_eq.
Qed.

(* ===================================================================== *)
(** ** The further properties at work on concrete machines *)
(* ===================================================================== *)

(** X2 on a machine with an empty disk: one read, and no token. *)
Lemma no_credential_is_unauthenticated_on_empty_disk :
  getClaudeAccessToken (Scenario.world Scenario.offline Scenario.empty_disk)
  = (Ok Null,
     mkWorld (Scenario.machine Scenario.offline) Scenario.empty_disk
       [EvReadFile Scenario.creds_file])
  /\ isAuthenticated (Scenario.world Scenario.offline Scenario.empty_disk)
     = (Ok false,
        mkWorld (Scenario.machine Scenario.offline) Scenario.empty_disk
          [EvReadFile Scenario.creds_file]).
Proof.
  apply (no_credential_is_unauthenticated
           (Scenario.world Scenario.offline Scenario.empty_disk)).
  right. left. reflexivity.
Defined.

(** X1 on a credential file whose expiry is [{"toString":null}]: the
    accessor throws a TypeError, and so does [isAuthenticated]; on an empty
    disk the accessor returns. *)
Lemma getClaudeAccessToken_throws_on_unconvertible_expiry :
  fst (getClaudeAccessToken
         (Scenario.world Scenario.offline
            (Scenario.disk_with Scenario.unconvertible_text)))
  = Throw TypeError
  /\ fst (isAuthenticated
            (Scenario.world Scenario.offline
               (Scenario.disk_with Scenario.unconvertible_text)))
     = Throw TypeError
  /\ exists v,
       fst (getClaudeAccessToken
              (Scenario.world Scenario.offline Scenario.empty_disk)) = Ok v.
Proof.
  destruct (getClaudeAccessToken_throws_only_on_conversion
              (Scenario.world Scenario.offline
                 (Scenario.disk_with Scenario.unconvertible_text))
              (Obj [("expires_at", Obj [("toString", Null)])]))
    as [T _]; [vm_compute; reflexivity|].
  destruct (T eq_refl eq_refl) as [G I].
  rewrite G, I. split; [reflexivity|]. split; [reflexivity|].
  destruct (getClaudeAccessToken_throws_only_on_conversion
              (Scenario.world Scenario.offline Scenario.empty_disk) Null)
    as [_ R]; [vm_compute; reflexivity|].
  destruct R as (v & w' & G' & _); [left; reflexivity|].
  exists v. rewrite G'. reflexivity.
Defined.

(** X3 on a credential file that is fresh and has no tokens: the accessor
    returns [undefined], and [isAuthenticated] is true. *)
Lemma isAuthenticated_on_tokenless_credential :
  fst (getClaudeAccessToken
         (Scenario.world Scenario.offline
            (Scenario.disk_with Scenario.tokenless_text)))
  = Ok Undefined
  /\ fst (isAuthenticated
            (Scenario.world Scenario.offline
               (Scenario.disk_with Scenario.tokenless_text)))
     = Ok true.
Proof.
  destruct (isAuthenticated_on_fresh_credential
              (Scenario.world Scenario.offline
                 (Scenario.disk_with Scenario.tokenless_text))
              (File Scenario.tokenless_text 0x180)
              [("expires_at", Num (Number.of_Z 1700003600000))]
              1700003600000)
    as (A & _ & _); [vm_compute; reflexivity ..| | | |].
  - unfold held_exactly. lia.
  - unfold held_exactly. cbn [Scenario.world env Scenario.machine clock].
    unfold Scenario.now. lia.
  - vm_compute. reflexivity.
  - destruct (A eq_refl) as [G I]. rewrite G, I. split; reflexivity.
Defined.

(** X4 on the file [{"access_token": "A"}]: the refresh request follows
    the reads, and it has no [refresh_token]. *)
Lemma credential_without_expiry_is_refreshed_on_partial_file :
  exists tr,
    trace (snd (getClaudeAccessToken
                  (Scenario.world Scenario.offline
                     (Scenario.disk_with Scenario.partial_text))))
    = ([EvReadFile Scenario.creds_file; EvNow Scenario.now;
        EvFetch (json_post (refresh_request_body Undefined))] ++ tr)%list.
Proof.
  exact (proj1 (credential_without_expiry_is_refreshed
                  (Scenario.world Scenario.offline
                     (Scenario.disk_with Scenario.partial_text))
                  (File Scenario.partial_text 0x180)
                  [("access_token", Str "A")]
                  eq_refl eq_refl eq_refl eq_refl) eq_refl).
Defined.

(** X5 on a machine whose disk is full when the refreshed credential is
    written, the file being open already: the accessor returns [null], and
    the credential file is left empty. *)
Lemma unsaved_refresh_is_unauthenticated_on_full_disk :
  exists w',
    getClaudeAccessToken
      (Scenario.failing_at 5 (SystemError "ENOSPC")
         (Scenario.cutting 0
            (Scenario.stored "A" "R" (Scenario.now - 1000) Scenario.rotated)))
    = (Ok Null, w') /\
    files (disk w') !! Scenario.creds_file = Some (File EmptyString 0x180).
Proof.
  destruct (unsaved_refresh_is_unauthenticated
              (Scenario.failing_at 5 (SystemError "ENOSPC")
                 (Scenario.cutting 0
                    (Scenario.stored "A" "R" (Scenario.now - 1000)
                       Scenario.rotated)))
              (Scenario.stored_file "A" "R" (Scenario.now - 1000))
              (Scenario.stored_props "A" "R" (Scenario.now - 1000))
              (Str "A") "R" (Dec (Scenario.now - 1000) 0)
              Scenario.rotated_response Scenario.rotated_data
              "B" "R2" 3600
              (SystemError "ENOSPC"))
    as (w' & G & _ & Held);
    [try (vm_compute; reflexivity) .. | ].
  - vm_compute. intros H. discriminate H.
  - vm_compute. split; [discriminate|reflexivity].
  - exists w'. split; [exact G|].
    assert (W : w' = snd (getClaudeAccessToken
                (Scenario.failing_at 5 (SystemError "ENOSPC")
                   (Scenario.cutting 0
                      (Scenario.stored "A" "R" (Scenario.now - 1000)
                         Scenario.rotated))))).
    { rewrite G. reflexivity. }
    rewrite W. vm_compute. reflexivity.
Defined.

(** X7 on a machine holding a fresh credential: after the logout there is
    no token, and nothing was asked of the network. *)
Lemma cleared_store_is_unauthenticated_after_logout :
  exists d,
    (clearCredentials ;; getClaudeAccessToken)
      (Scenario.stored "A" "R" (Scenario.now + 3600000) Scenario.rotated)
    = (Ok Null,
       mkWorld (Scenario.machine Scenario.rotated) d
         [EvUnlink Scenario.creds_file; EvReadFile Scenario.creds_file]) /\
    (clearCredentials ;; isAuthenticated)
      (Scenario.stored "A" "R" (Scenario.now + 3600000) Scenario.rotated)
    = (Ok false,
       mkWorld (Scenario.machine Scenario.rotated) d
         [EvUnlink Scenario.creds_file; EvReadFile Scenario.creds_file]) /\
    files d !! Scenario.creds_file = None.
Proof.
  exact (cleared_store_is_unauthenticated
           (Scenario.stored "A" "R" (Scenario.now + 3600000) Scenario.rotated)
           eq_refl).
Defined.

(** X8 on a machine with an empty disk: the credential [A], [R] is saved
    and loaded back. *)
Lemma saved_credential_loads_back_on_empty_disk :
  exists w',
    (saveCredentials
       (mkCredentials (Str "A") (Str "R") (Number.of_Z Scenario.now)) ;;
     loadCredentials)
      (Scenario.world Scenario.offline Scenario.empty_disk)
    = (Ok (Obj (Scenario.stored_props "A" "R" Scenario.now)), w').
Proof.
  destruct (saved_credential_loads_back
              (Scenario.world Scenario.offline Scenario.empty_disk)
              "A" "R" Scenario.now)
    as (w' & E & _); [try reflexivity ..| ].
  - unfold Scenario.now. lia.
  - exists w'. exact E.
Defined.

(** X9 on a disk where a regular file stands where the directory [.titan]
    should be: the save throws ENOTDIR, and the files are as they were. *)
Lemma saveCredentials_without_directory_on_blocked_disk :
  exists w',
    saveCredentials
      (mkCredentials (Str "A") (Str "R") (Number.of_Z Scenario.now))
      (Scenario.world Scenario.offline Scenario.blocked_disk)
    = (Throw (SystemError "ENOTDIR"), w') /\
    trace w' = [EvMkdir Scenario.creds_dir] /\
    files (disk w') = files Scenario.blocked_disk.
Proof.
  destruct (saveCredentials_without_directory
              (Scenario.world Scenario.offline Scenario.blocked_disk)
              (mkCredentials (Str "A") (Str "R") (Number.of_Z Scenario.now))
              (SystemError "ENOTDIR"))
    as (w' & E & T & F & _); [vm_compute; reflexivity|].
  exists w'. split; [exact E|]. split; [exact T|exact F].
Defined.

(** X11 on the scenario of the specification's HTTP 401: both exchanges
    throw their message with the status text. *)
Lemma exchanges_fail_on_unauthorized :
  fst (exchangeCodeForTokens "abc123#xyzstate" "V"
         (Scenario.world Scenario.unauthorized Scenario.empty_disk))
  = Throw (Error "Token exchange failed: Unauthorized")
  /\ fst (refreshAccessToken (Str "R")
            (Scenario.world Scenario.unauthorized Scenario.empty_disk))
     = Throw (Error "Token refresh failed: Unauthorized").
Proof.
  destruct (exchanges_fail_on_bad_status
              (Scenario.world Scenario.unauthorized Scenario.empty_disk)
              "abc123#xyzstate" "V" (Str "R"))
    as (Hc & Hr & _).
  rewrite (Hc _ eq_refl), (Hr _ eq_refl); [split; reflexivity| |];
    right; reflexivity.
Defined.

(** X12 on the response [B], [R2], 3600 with status 200. *)
Lemma exchange_success_inversion_on_rotated :
  made_of_response (Scenario.world Scenario.rotated Scenario.empty_disk)
    (json_post (refresh_request_body (Str "R")))
    (mkCredentials (Str "B") (Str "R2")
       (Number.of_Z (Scenario.now + 3600000)))
    (mkWorld (Scenario.machine Scenario.rotated) Scenario.empty_disk
       [EvFetch (json_post (refresh_request_body (Str "R")));
        EvNow Scenario.now]).
Proof.
  apply (proj2 (exchange_success_inversion
                  (Scenario.world Scenario.rotated Scenario.empty_disk)
                  "abc123#xyzstate" "V" (Str "R") _ _)).
  vm_compute. reflexivity.
Defined.

(** X13 on the pasted text [abc123#xyzstate#more#parts]. *)
Lemma exchangeCodeForTokens_drops_more_parts :
  code_request_body "abc123#xyzstate#more#parts" "V"
  = Scenario.compound_text "V".
Proof.
  exact (proj1 (exchangeCodeForTokens_drops_third_part
                  "abc123" "xyzstate" "more#parts" "V"
                  (Scenario.world Scenario.offline Scenario.empty_disk)
                  eq_refl eq_refl)).
Defined.

(** X14 on the refresh token [R]. *)
Lemma refreshAccessToken_request_for_R :
  JSON.parse (refresh_request_body (Str "R"))
  = Some (Obj [("grant_type", Str "refresh_token");
               ("refresh_token", Str "R");
               ("client_id", Str CLIENT_ID)]).
Proof.
  destruct (refreshAccessToken_request (Str "R")
              (Scenario.world Scenario.offline Scenario.empty_disk))
    as (_ & H & _).
  exact (H "R" eq_refl eq_refl).
Defined.

(** X15 on the pair drawn on the machines of the scenarios: the last
    parameter is [state], with the verifier as it is. *)
Lemma getAuthorizationURL_parameters_of_drawn_pair :
  exists query,
    getAuthorizationURL Scenario.drawn_pair
    = "https://claude.ai/oauth/authorize?" ^^ query /\
    nth_error (Text.split "&" query) 7
    = Some ("state=" ^^ Scenario.drawn_verifier).
Proof.
  destruct (getAuthorizationURL_parameters Scenario.drawn_pair)
    as (query & E & _ & S).
  exists query. split; [exact E|].
  rewrite S; [reflexivity| |]; apply Base64Facts.base64url_url_safe.
Defined.

(** X17 on the same pair. *)
Lemma getAuthorizationURL_inj_on_drawn_pair :
  Scenario.drawn_pair = Scenario.drawn_pair.
Proof.
  exact (getAuthorizationURL_inj Scenario.drawn_pair Scenario.drawn_pair
           eq_refl).
Defined.

(** X20 on a machine with an empty disk at which [abc123#xyzstate] and a
    line end are typed, the endpoint answering [B], [R2], 3600: the flow
    returns [B], the request carries the verifier that was drawn, and the
    credential is in the store. *)
Lemma authenticateWithClaude_console_flow_on_empty_disk :
  exists w' m,
    authenticateWithClaude None
      (Scenario.typing ("abc123#xyzstate" ^^ JSON.nl)
         (Scenario.world Scenario.rotated Scenario.empty_disk))
    = (Ok (Str "B"), w') /\
    In (EvFetch (json_post (Scenario.compound_text Scenario.drawn_verifier)))
       (trace w') /\
    files (disk w') !! Scenario.creds_file
    = Some (File (Scenario.credential_text "B" "R2"
                    (Scenario.now + 3600000)) m).
Proof.
  destruct (authenticateWithClaude_console_flow None
              (Scenario.typing ("abc123#xyzstate" ^^ JSON.nl)
                 (Scenario.world Scenario.rotated Scenario.empty_disk))
              Null
              (mkWorld
                 (env (Scenario.typing ("abc123#xyzstate" ^^ JSON.nl)
                         (Scenario.world Scenario.rotated Scenario.empty_disk)))
                 Scenario.empty_disk [EvReadFile Scenario.creds_file])
              Scenario.rotated_response Scenario.rotated_data
              "B" "R2" 3600)
    as (w' & m & G & T & Held);
    [try (vm_compute; reflexivity) ..| ].
  - vm_compute. split; [discriminate|reflexivity].
  - exists w', m. split; [exact G|]. split; [|exact Held].
    rewrite T. apply in_or_app. right. do 6 right. left.
    vm_compute. reflexivity.
Defined.

(** X21 on the same machine when the endpoint answers 401: the flow throws
    the error of the exchange. *)
Lemma authenticateWithClaude_failure_on_unauthorized :
  exists w',
    authenticateWithClaude None
      (Scenario.typing ("abc123#xyzstate" ^^ JSON.nl)
         (Scenario.world Scenario.unauthorized Scenario.empty_disk))
    = (Throw (Error "Token exchange failed: Unauthorized"), w') /\
    disk w' = Scenario.empty_disk.
Proof.
  destruct (authenticateWithClaude_failure None
              (Scenario.typing ("abc123#xyzstate" ^^ JSON.nl)
                 (Scenario.world Scenario.unauthorized Scenario.empty_disk))
              Null
              (mkWorld
                 (env (Scenario.typing ("abc123#xyzstate" ^^ JSON.nl)
                         (Scenario.world Scenario.unauthorized
                            Scenario.empty_disk)))
                 Scenario.empty_disk [EvReadFile Scenario.creds_file]))
    as [F _]; [vm_compute; reflexivity ..| ].
  eexists. apply F. vm_compute. reflexivity.
Defined.

(** X22 on a machine with an empty disk, with hooks that take the URL and
    give the code [abc123#xyzstate]: nothing is printed or read from the
    standard input, and the flow returns [B]. *)
Lemma authenticateWithClaude_with_quiet_hooks :
  exists w',
    authenticateWithClaude (Some Scenario.quiet_hooks)
      (Scenario.world Scenario.rotated Scenario.empty_disk)
    = (Ok (Str "B"), w') /\
    In (EvFetch (json_post (Scenario.compound_text Scenario.drawn_verifier)))
       (trace w') /\
    Forall (fun ev => match ev with
                      | EvLog _ | EvStdin => False
                      | _ => True
                      end) (trace w').
Proof.
  pose (url := getAuthorizationURL Scenario.drawn_pair).
  pose (w3 := mkWorld (Scenario.machine Scenario.rotated) Scenario.empty_disk
                [EvReadFile Scenario.creds_file; EvRandomBytes 32;
                 EvExec (launcher "linux" ^^ dq ^^ url ^^ dq)]).
  pose (c := mkCredentials (Str "B") (Str "R2")
               (Number.of_Z (Scenario.now + 3600000))).
  pose (w6 := snd (exchangeCodeForTokens "abc123#xyzstate"
                     Scenario.drawn_verifier w3)).
  pose (w7 := snd (saveCredentials c w6)).
  destruct (authenticateWithClaude_with_hooks Scenario.quiet_hooks
              (fun _ => ret tt) (ret "abc123#xyzstate")
              (Scenario.world Scenario.rotated Scenario.empty_disk)
              Null
              (mkWorld (Scenario.machine Scenario.rotated) Scenario.empty_disk
                 [EvReadFile Scenario.creds_file])
              w3 "abc123#xyzstate" w3 c w6 w7)
    as [S _]; [vm_compute; reflexivity ..| ].
  exists w7. split; [exact (S eq_refl)|].
  split.
  - vm_compute. do 3 right. left. reflexivity.
  - vm_compute. repeat constructor.
Defined.

(** X23 on the line [abc123#xyzstate] typed after a space and ended by the
    terminal. *)
Lemma trim_pasted_code_with_line_end :
  Text.trim (" " ^^ "abc123#xyzstate" ^^ JSON.nl) = "abc123#xyzstate".
Proof.
  exact (trim_pasted_code " " "abc123#xyzstate" JSON.nl
           eq_refl eq_refl eq_refl).
Defined.

(** X24 on the scenario of the specification: the stored credential [A],
    [R] expired a second ago and the endpoint returns [B], [R2], 3600; the
    second call returns [B] from the file, without a second request. *)
Lemma refreshed_token_is_cached_for_B :
  exists w'',
    (getClaudeAccessToken ;; getClaudeAccessToken)
      (Scenario.stored "A" "R" (Scenario.now - 1000) Scenario.rotated)
    = (Ok (Str "B"), w'') /\
    trace w'' =
      [EvReadFile Scenario.creds_file; EvNow Scenario.now;
       EvFetch (json_post (refresh_request_body (Str "R")));
       EvNow Scenario.now;
       EvMkdir Scenario.creds_dir;
       EvWriteFile Scenario.creds_file
         (Scenario.credential_text "B" "R2" (Scenario.now + 3600000));
       EvChmod Scenario.creds_file 0x180;
       EvReadFile Scenario.creds_file; EvNow Scenario.now].
Proof.
  destruct (refreshed_token_is_cached
              (Scenario.stored "A" "R" (Scenario.now - 1000) Scenario.rotated)
              (Scenario.stored_file "A" "R" (Scenario.now - 1000))
              (Scenario.stored_props "A" "R" (Scenario.now - 1000))
              (Str "A") (Str "R") (Dec (Scenario.now - 1000) 0)
              Scenario.rotated_response Scenario.rotated_data
              "B" "R2" 3600)
    as (w'' & G & T);
    [try (vm_compute; reflexivity) ..| ].
  - vm_compute. intros H. discriminate H.
  - vm_compute. split; [discriminate|reflexivity].
  - exists w''. split; [exact G|]. rewrite T. reflexivity.
Defined.

(** X25 on the machine of X20: the call that follows the login returns [B]
    from the store. *)
Lemma authenticated_token_is_cached_on_empty_disk :
  exists w' w'',
    authenticateWithClaude None
      (Scenario.typing ("abc123#xyzstate" ^^ JSON.nl)
         (Scenario.world Scenario.rotated Scenario.empty_disk))
    = (Ok (Str "B"), w') /\
    getClaudeAccessToken w' = (Ok (Str "B"), w'') /\
    trace w'' = (trace w' ++ [EvReadFile Scenario.creds_file;
                              EvNow Scenario.now])%list.
Proof.
  destruct (authenticated_token_is_cached None
              (Scenario.typing ("abc123#xyzstate" ^^ JSON.nl)
                 (Scenario.world Scenario.rotated Scenario.empty_disk))
              Null
              (mkWorld
                 (env (Scenario.typing ("abc123#xyzstate" ^^ JSON.nl)
                         (Scenario.world Scenario.rotated Scenario.empty_disk)))
                 Scenario.empty_disk [EvReadFile Scenario.creds_file])
              Scenario.rotated_response Scenario.rotated_data "B" "R2" 3600)
    as (w' & w'' & A & G & T);
    [try (vm_compute; reflexivity) ..| ].
  - vm_compute. split; [discriminate|reflexivity].
  - exists w', w''. split; [exact A|]. split; [exact G|exact T].
Defined.


(** X27 on the stored credential [A], [R], expired a second ago, when the
    endpoint answers 200 with [{}]: the accessor returns [undefined] and the
    tokens are gone from the store. *)
Lemma fieldless_answer_overwrites_A_and_R :
  exists w' m,
    getClaudeAccessToken
      (Scenario.stored "A" "R" (Scenario.now - 1000) Scenario.empty_answer)
    = (Ok Undefined, w') /\
    isAuthenticated
      (Scenario.stored "A" "R" (Scenario.now - 1000) Scenario.empty_answer)
    = (Ok true, w') /\
    files (disk w') !! Scenario.creds_file
    = Some (File ("{" ^^ JSON.nl ^^ "  " ^^ dq ^^ "expires_at" ^^ dq
                    ^^ ": null" ^^ JSON.nl ^^ "}") m).
Proof.
  destruct (fieldless_answer_overwrites_store
              (Scenario.stored "A" "R" (Scenario.now - 1000)
                 Scenario.empty_answer)
              (Scenario.stored_file "A" "R" (Scenario.now - 1000))
              (Scenario.stored_props "A" "R" (Scenario.now - 1000))
              (Str "A") (Str "R") (Dec (Scenario.now - 1000) 0)
              (mkResponse 200 "OK" "{}") (Obj []))
    as (w' & m & G & I & Held);
    [try (vm_compute; reflexivity) ..| ].
  - vm_compute. intros H. discriminate H.
  - exists w', m. split; [exact G|]. split; [exact I|exact Held].
Defined.
